(** * Telegram media archiver: a shallow embedding of [bot.py]

    The development follows the source file top to bottom:
    - Python values the code manipulates (str, int, the message objects of
      the platform client) and the two string helpers it relies on
      ([str.split], the [%0Nd] format);
    - the JSON documents written by [json.dump(..., ensure_ascii=False,
      indent=2)] and read back by [json.load];
    - the disk, as far as the program touches it;
    - [MediaArchiver]: [_load_metadata], [_save_metadata], [save_media_group];
    - [handle_media] and the dispatcher that awaits its invocations one after
      the other.

    A Python [str] is held as the Rocq [string] of its UTF-8 bytes: an
    ASCII character is one [ascii], any other character several.  Where the
    source counts characters (the slice of the caption) the model counts
    code points.

    Every call that can raise in the source takes its outcome from an
    explicit environment, so that a run of the model is a function of the inputs. *)

From Stdlib Require Import String Ascii ZArith List QArith Lqa.
From Stdlib Require Import DecimalString DecimalNat DecimalZ.
From Stdlib Require DecimalPos DecimalFacts.
From stdpp Require Import gmap strings list.

Local Open Scope string_scope.
Local Open Scope Z_scope.
Local Open Scope list_scope.

(** ** Python helpers *)

(** [s.split(sep)] for a one-character separator: never empty, keeps empty
    pieces. *)
Fixpoint split (sep : ascii) (s : string) : list string :=
  match s with
  | EmptyString => [EmptyString]
  | String c s' =>
      if Ascii.eqb c sep then EmptyString :: split sep s'
      else match split sep s' with
           | [] => [String c EmptyString]
           | piece :: pieces => String c piece :: pieces
           end
  end.

(** [l[-1]] on a list of strings known to be non-empty. *)
Definition last_piece (l : list string) : string := List.last l EmptyString.

(** [str(n)] for a non-negative int. *)
Definition str_nat (n : nat) : string := NilZero.string_of_uint (Nat.to_uint n).

(** [str(z)] / [repr(z)] for an int. *)
Definition str_int (z : Z) : string := NilZero.string_of_int (Z.to_int z).

Fixpoint zeros (n : nat) : string :=
  match n with
  | O => EmptyString
  | S n' => String "0" (zeros n')
  end.

(** [f'{n:0{width}d}'] for a non-negative int: left-padded with zeros up to
    [width], never truncated. *)
Definition format_d (width n : nat) : string :=
  let digits := str_nat n in
  zeros (width - String.length digits) +:+ digits.

(** Truthiness of an optional string attribute ([None] and [''] are falsy). *)
Definition truthy (o : option string) : bool :=
  match o with
  | Some (String _ _) => true
  | _ => false
  end.

(** [pathlib]'s [/]. *)
Definition path_join (dir name : string) : string := dir +:+ "/" +:+ name.

(** ** The platform's message objects *)

Record PhotoSize := {
  file_id : string;
  file_size : option Z;
  width : Z;
  height : Z
}.

Record User := {
  username : option string;
  full_name : string
}.

Record Message := {
  message_id : Z;
  media_group_id : option string;
  caption : option string;
  from_user : option User;
  chat_id : Z;
  photo : list PhotoSize
}.

(** ** Records the archiver builds *)

(** One entry of [group_info['files']]. *)
Record StoredFile := {
  sf_file_id : string;
  sf_filename : string;
  sf_size : option Z;
  sf_width : Z;
  sf_height : Z
}.

(** The dict [group_info]. *)
Record GroupInfo := {
  gi_media_group_id : string;
  gi_date : string;
  gi_caption : string;
  gi_files : list StoredFile;
  gi_sender : string;
  gi_chat_id : option Z;
  gi_message_count : nat
}.

(** One entry of [metadata['groups']]. *)
Record GroupSummary := {
  gs_group_id : string;
  gs_folder : string;
  gs_date : string;
  gs_files_count : Z;
  gs_caption : string
}.

(** The dict [self.metadata]. *)
Record MetadataIndex := {
  groups : list GroupSummary;
  total_files : Z
}.

(** [{'groups': [], 'total_files': 0}] *)
Definition empty_index : MetadataIndex := {| groups := []; total_files := 0 |}.

(** ** JSON documents *)

#[local] Unset Elimination Schemes.
Inductive json :=
| JNull
| JBool (b : bool)
| JInt (z : Z)
| JString (s : string)
| JList (items : list json)
| JDict (members : list (string * json)).
#[local] Set Elimination Schemes.

Definition json_of_option_int (o : option Z) : json :=
  match o with
  | Some z => JInt z
  | None => JNull
  end.

Definition json_of_stored_file (f : StoredFile) : json :=
  JDict [("file_id", JString (sf_file_id f));
         ("filename", JString (sf_filename f));
         ("size", json_of_option_int (sf_size f));
         ("width", JInt (sf_width f));
         ("height", JInt (sf_height f))].

Definition json_of_group_info (gi : GroupInfo) : json :=
  JDict [("media_group_id", JString (gi_media_group_id gi));
         ("date", JString (gi_date gi));
         ("caption", JString (gi_caption gi));
         ("files", JList (map json_of_stored_file (gi_files gi)));
         ("sender", JString (gi_sender gi));
         ("chat_id", json_of_option_int (gi_chat_id gi));
         ("message_count", JInt (Z.of_nat (gi_message_count gi)))].

Definition json_of_summary (g : GroupSummary) : json :=
  JDict [("group_id", JString (gs_group_id g));
         ("folder", JString (gs_folder g));
         ("date", JString (gs_date g));
         ("files_count", JInt (gs_files_count g));
         ("caption", JString (gs_caption g))].

Definition json_of_index (ix : MetadataIndex) : json :=
  JDict [("groups", JList (map json_of_summary (groups ix)));
         ("total_files", JInt (total_files ix))].

(** *** [json.dump(obj, f, ensure_ascii=False, indent=2)] *)

(** The double quote, code 34. *)
Definition dquote : ascii := ascii_of_nat 34.

Definition hex_digit (n : nat) : ascii :=
  match n with
  | 0%nat => "0" | 1%nat => "1" | 2%nat => "2" | 3%nat => "3"
  | 4%nat => "4" | 5%nat => "5" | 6%nat => "6" | 7%nat => "7"
  | 8%nat => "8" | 9%nat => "9" | 10%nat => "a" | 11%nat => "b"
  | 12%nat => "c" | 13%nat => "d" | 14%nat => "e" | _ => "f"
  end%char.

(** The encoder's escape table: the quote, the backslash and the control
    characters below 0x20; with [ensure_ascii=False] every other character
    is written as it is. *)
Definition escape_char (c : ascii) : string :=
  let n := nat_of_ascii c in
  if Nat.eqb n 34 then String "\" (String dquote EmptyString)
  else if Nat.eqb n 92 then "\\"
  else if Nat.eqb n 10 then "\n"
  else if Nat.eqb n 13 then "\r"
  else if Nat.eqb n 9 then "\t"
  else if Nat.eqb n 8 then "\b"
  else if Nat.eqb n 12 then "\f"
  else if Nat.ltb n 32 then
    "\u00" +:+ String (hex_digit (n / 16)) (String (hex_digit (n mod 16)) EmptyString)
  else String c EmptyString.

Fixpoint escape (s : string) : string :=
  match s with
  | EmptyString => EmptyString
  | String c s' => escape_char c +:+ escape s'
  end.

Definition encode_string (s : string) : string :=
  String dquote (escape s +:+ String dquote EmptyString).

Fixpoint spaces (n : nat) : string :=
  match n with
  | O => EmptyString
  | S n' => String " " (spaces n')
  end.

(** A line break followed by the indentation of nesting depth [level]. *)
Definition newline_indent (level : nat) : string :=
  String (ascii_of_nat 10) (spaces (2 * level)).

(** [separator.join(pieces)] *)
Fixpoint join (separator : string) (pieces : list string) : string :=
  match pieces with
  | [] => EmptyString
  | [piece] => piece
  | piece :: rest => piece +:+ separator +:+ join separator rest
  end.

(** The text of a value at nesting depth [level]: items one per line,
    [","] between items, [": "] after a key, empty containers closed on the
    spot. *)
Fixpoint encode (level : nat) (v : json) {struct v} : string :=
  match v with
  | JNull => "null"
  | JBool true => "true"
  | JBool false => "false"
  | JInt z => str_int z
  | JString s => encode_string s
  | JList [] => "[]"
  | JList items =>
      "[" +:+ newline_indent (S level) +:+
      join ("," +:+ newline_indent (S level)) (map (encode (S level)) items) +:+
      newline_indent level +:+ "]"
  | JDict [] => "{}"
  | JDict members =>
      "{" +:+ newline_indent (S level) +:+
      join ("," +:+ newline_indent (S level))
           (map (fun '(k, x) => encode_string k +:+ ": " +:+ encode (S level) x) members) +:+
      newline_indent level +:+ "}"
  end.

Definition json_dumps (v : json) : string := encode 0 v.

(** *** [json.load(f)]

    The decoder of the standard library, for the documents of this program:
    objects, arrays, strings, integers, [true], [false], [null].  A number
    with a fraction or an exponent and an escape for a character above
    0xff have no value in the model and are rejected.  The recursion of the
    decoder is bounded by a fuel that [json_loads] takes from the length of
    the text (each recursive call is on a shorter text). *)

Definition is_ws (c : ascii) : bool :=
  let n := nat_of_ascii c in
  Nat.eqb n 32 || Nat.eqb n 9 || Nat.eqb n 10 || Nat.eqb n 13.

Fixpoint skip_ws (s : string) : string :=
  match s with
  | String c s' => if is_ws c then skip_ws s' else s
  | EmptyString => EmptyString
  end.

Definition is_digit (c : ascii) : bool :=
  let n := nat_of_ascii c in
  Nat.leb 48 n && Nat.leb n 57.

Definition hex_value (c : ascii) : option nat :=
  let n := nat_of_ascii c in
  if Nat.leb 48 n && Nat.leb n 57 then Some (n - 48)%nat
  else if Nat.leb 97 n && Nat.leb n 102 then Some (n - 87)%nat
  else if Nat.leb 65 n && Nat.leb n 70 then Some (n - 55)%nat
  else None.

Definition hex4 (h1 h2 h3 h4 : ascii) : option nat :=
  match hex_value h1, hex_value h2, hex_value h3, hex_value h4 with
  | Some a, Some b, Some c, Some d => Some (((a * 16 + b) * 16 + c) * 16 + d)%nat
  | _, _, _, _ => None
  end.

(** The character a one-letter escape stands for. *)
Definition unescape_simple (e : ascii) : option ascii :=
  let n := nat_of_ascii e in
  if Nat.eqb n 34 then Some dquote
  else if Nat.eqb n 92 then Some "\"%char
  else if Nat.eqb n 47 then Some "/"%char
  else if Nat.eqb n 98 then Some (ascii_of_nat 8)
  else if Nat.eqb n 102 then Some (ascii_of_nat 12)
  else if Nat.eqb n 110 then Some (ascii_of_nat 10)
  else if Nat.eqb n 114 then Some (ascii_of_nat 13)
  else if Nat.eqb n 116 then Some (ascii_of_nat 9)
  else None.

(** The characters of a string literal, from just after its opening quote
    to its closing quote; a raw control character is an error. *)
Fixpoint parse_chars (s : string) : option (string * string) :=
  match s with
  | EmptyString => None
  | String c s' =>
      if Ascii.eqb c dquote then Some (EmptyString, s')
      else if Ascii.eqb c "\" then
        match s' with
        | EmptyString => None
        | String e s'' =>
            if Ascii.eqb e "u" then
              match s'' with
              | String h1 (String h2 (String h3 (String h4 rest))) =>
                  match hex4 h1 h2 h3 h4 with
                  | Some n =>
                      if Nat.ltb n 256 then
                        match parse_chars rest with
                        | Some (t, r) => Some (String (ascii_of_nat n) t, r)
                        | None => None
                        end
                      else None
                  | None => None
                  end
              | _ => None
              end
            else
              match unescape_simple e with
              | Some c' =>
                  match parse_chars s'' with
                  | Some (t, r) => Some (String c' t, r)
                  | None => None
                  end
              | None => None
              end
        end
      else if Nat.ltb (nat_of_ascii c) 32 then None
      else
        match parse_chars s' with
        | Some (t, r) => Some (String c t, r)
        | None => None
        end
  end.

Fixpoint span_digits (s : string) : string * string :=
  match s with
  | String c s' =>
      if is_digit c then let '(ds, r) := span_digits s' in (String c ds, r)
      else (EmptyString, s)
  | EmptyString => (EmptyString, EmptyString)
  end.

(** The integer part of a number: [0], or a non-zero digit and more digits. *)
Definition parse_int_part (s : string) : option (string * string) :=
  match s with
  | String c s' =>
      if Ascii.eqb c "0" then Some ("0", s')
      else if is_digit c then let '(ds, r) := span_digits s' in Some (String c ds, r)
      else None
  | EmptyString => None
  end.

Definition starts_fraction_or_exponent (s : string) : bool :=
  match s with
  | String c _ => Ascii.eqb c "." || Ascii.eqb c "e" || Ascii.eqb c "E"
  | EmptyString => false
  end.

Definition parse_number (s : string) : option (Z * string) :=
  let '(negative, s1) :=
    match s with
    | String c s' => if Ascii.eqb c "-" then (true, s') else (false, s)
    | EmptyString => (false, s)
    end in
  match parse_int_part s1 with
  | Some (ds, r) =>
      if starts_fraction_or_exponent r then None
      else
        match NilZero.uint_of_string ds with
        | Some u =>
            let n := Z.of_N (N.of_uint u) in
            Some (if negative : bool then - n else n, r)
        | None => None
        end
  | None => None
  end.

(** [strip_literal lit s]: the text after [lit] when [s] starts with it. *)
Fixpoint strip_literal (lit s : string) : option string :=
  match lit, s with
  | EmptyString, _ => Some s
  | String a lit', String b s' => if Ascii.eqb a b then strip_literal lit' s' else None
  | String _ _, EmptyString => None
  end.

Fixpoint parse_value (fuel : nat) (s : string) {struct fuel} : option (json * string) :=
  match fuel with
  | O => None
  | S fuel' =>
      match s with
      | EmptyString => None
      | String c s' =>
          if Ascii.eqb c dquote then
            match parse_chars s' with
            | Some (t, r) => Some (JString t, r)
            | None => None
            end
          else if Ascii.eqb c "[" then
            match skip_ws s' with
            | EmptyString => None
            | String c1 r1 =>
                if Ascii.eqb c1 "]" then Some (JList [], r1)
                else
                  match parse_items fuel' (skip_ws s') with
                  | Some (items, r) => Some (JList items, r)
                  | None => None
                  end
            end
          else if Ascii.eqb c "{" then
            match skip_ws s' with
            | EmptyString => None
            | String c1 r1 =>
                if Ascii.eqb c1 "}" then Some (JDict [], r1)
                else
                  match parse_members fuel' (skip_ws s') with
                  | Some (members, r) => Some (JDict members, r)
                  | None => None
                  end
            end
          else
            match strip_literal "null" s, strip_literal "true" s, strip_literal "false" s with
            | Some r, _, _ => Some (JNull, r)
            | None, Some r, _ => Some (JBool true, r)
            | None, None, Some r => Some (JBool false, r)
            | None, None, None =>
                match parse_number s with
                | Some (z, r) => Some (JInt z, r)
                | None => None
                end
            end
      end
  end

with parse_items (fuel : nat) (s : string) {struct fuel} : option (list json * string) :=
  match fuel with
  | O => None
  | S fuel' =>
      match parse_value fuel' s with
      | None => None
      | Some (v, r) =>
          match skip_ws r with
          | EmptyString => None
          | String c r1 =>
              if Ascii.eqb c "]" then Some ([v], r1)
              else if Ascii.eqb c "," then
                match parse_items fuel' (skip_ws r1) with
                | Some (vs, r2) => Some (v :: vs, r2)
                | None => None
                end
              else None
          end
      end
  end

with parse_members (fuel : nat) (s : string) {struct fuel}
    : option (list (string * json) * string) :=
  match fuel with
  | O => None
  | S fuel' =>
      match s with
      | EmptyString => None
      | String q s' =>
          if Ascii.eqb q dquote then
            match parse_chars s' with
            | None => None
            | Some (k, r) =>
                match skip_ws r with
                | EmptyString => None
                | String c r1 =>
                    if Ascii.eqb c ":" then
                      match parse_value fuel' (skip_ws r1) with
                      | None => None
                      | Some (v, r2) =>
                          match skip_ws r2 with
                          | EmptyString => None
                          | String c2 r3 =>
                              if Ascii.eqb c2 "}" then Some ([(k, v)], r3)
                              else if Ascii.eqb c2 "," then
                                match parse_members fuel' (skip_ws r3) with
                                | Some (kvs, r4) => Some ((k, v) :: kvs, r4)
                                | None => None
                                end
                              else None
                          end
                      end
                    else None
                end
            end
          else None
      end
  end.

(** [json.loads(text)]: one value, white space around it, nothing else. *)
Definition json_loads (text : string) : option json :=
  match parse_value (2 * String.length text + 1) (skip_ws text) with
  | Some (v, r) =>
      match skip_ws r with
      | EmptyString => Some v
      | String _ _ => None
      end
  | None => None
  end.

(** *** Reading an index out of a document

    The index the program keeps is a dict with the keys [groups] and
    [total_files]; [index_of_json] reads one out of a loaded document, by
    key, as the subscripts of the source do. *)

(** [d[key]] on an object; the last binding of a repeated key wins. *)
Fixpoint dict_get (key : string) (members : list (string * json)) : option json :=
  match members with
  | [] => None
  | (k, v) :: rest =>
      match dict_get key rest with
      | Some v' => Some v'
      | None => if String.eqb k key then Some v else None
      end
  end.

Definition get_string (key : string) (members : list (string * json)) : option string :=
  match dict_get key members with
  | Some (JString s) => Some s
  | _ => None
  end.

Definition get_int (key : string) (members : list (string * json)) : option Z :=
  match dict_get key members with
  | Some (JInt z) => Some z
  | _ => None
  end.

Definition summary_of_json (v : json) : option GroupSummary :=
  match v with
  | JDict m =>
      match get_string "group_id" m, get_string "folder" m, get_string "date" m,
            get_int "files_count" m, get_string "caption" m with
      | Some g, Some f, Some d, Some n, Some c =>
          Some {| gs_group_id := g; gs_folder := f; gs_date := d;
                  gs_files_count := n; gs_caption := c |}
      | _, _, _, _, _ => None
      end
  | _ => None
  end.

Definition index_of_json (v : json) : option MetadataIndex :=
  match v with
  | JDict m =>
      match dict_get "groups" m, get_int "total_files" m with
      | Some (JList gs), Some n =>
          match mapM summary_of_json gs with
          | Some l => Some {| groups := l; total_files := n |}
          | None => None
          end
      | _, _ => None
      end
  | _ => None
  end.

(** ** The disk *)

(** Paths are relative to the download directory. *)
Record FS := {
  dirs : gset string;
  files : gmap string string
}.

Definition media_groups_dir : string := "media_groups".
Definition metadata_file : string := "metadata.json".

(** How an [open(path, 'w')] followed by writes ends: the file holds the
    whole text; or [open] itself raises and the file is untouched; or a
    write raises after [open] has truncated the file and [n] characters
    have reached it. *)
Inductive write_outcome :=
| WriteOk
| OpenFails
| WriteFailsAfter (n : nat).

Definition write_text (path text : string) (o : write_outcome) (d : FS) : bool * FS :=
  match o with
  | WriteOk => (true, {| dirs := dirs d; files := <[path := text]> (files d) |})
  | OpenFails => (false, d)
  | WriteFailsAfter n =>
      (false, {| dirs := dirs d; files := <[path := substring 0 n text]> (files d) |})
  end.

(** [path.mkdir(exist_ok=True)]: an existing directory is not an error. *)
Definition mkdir_exist_ok (path : string) (ok : bool) (d : FS) : bool * FS :=
  if ok then (true, {| dirs := {[path]} ∪ dirs d; files := files d |})
  else (false, d).

(** ** Exceptions and outcomes *)

Inductive exn :=
| MkdirError
| GetFileError (idx : nat)
| FilePathIsNone (idx : nat)
| DownloadError (idx : nat)
| DescriptorWriteError
| MetadataWriteError
| JSONDecodeError
| ReplyError
| KeyError (key : string)
| AttributeError.

Inductive outcome (A : Type) :=
| Returned (a : A)
| Raised (e : exn).
Arguments Returned {A} a.
Arguments Raised {A} e.

(** ** The environment of one [save_media_group] call *)

(** What the platform answers for the photo of the message at position
    [idx]: [get_file()] raises, or returns a file whose [file_path] may be
    [None], and [download_to_drive] then writes the bytes or raises. *)
Inductive fetch_outcome :=
| GetFileFails
| GotFile (file_path : option string) (download : option string).

Record ArchiveEnv := {
  now : string;
  mkdir_ok : bool;
  fetch : nat -> fetch_outcome;
  info_write : write_outcome;
  meta_write : write_outcome
}.

(** ** [class MediaArchiver] *)

(** The archiver object's [metadata] attribute together with the disk. *)
Record Archiver := {
  metadata : MetadataIndex;
  disk : FS
}.

(** [_load_metadata]: the document in the metadata file when there is one,
    the empty index otherwise.  A text that [json_loads] rejects raises; that
    is what the source does on a malformed text (an empty file, a cut one). *)
Definition _load_metadata (d : FS) : outcome json :=
  match files d !! metadata_file with
  | Some text =>
      match json_loads text with
      | Some v => Returned v
      | None => Raised JSONDecodeError
      end
  | None => Returned (json_of_index empty_index)
  end.

(** [__init__]: the groups directory is created and the metadata loaded.
    A loaded document that is not an index has no value in the typed model
    ([None]); the source keeps it and fails on its first use. *)
Definition MediaArchiver_init (mkdir_succeeds : bool) (d : FS) : option (outcome Archiver) :=
  match mkdir_exist_ok media_groups_dir mkdir_succeeds d with
  | (false, _) => Some (Raised MkdirError)
  | (true, d') =>
      match _load_metadata d' with
      | Raised e => Some (Raised e)
      | Returned v =>
          match index_of_json v with
          | Some ix => Some (Returned {| metadata := ix; disk := d' |})
          | None => None
          end
      end
  end.

(** [_save_metadata]: the whole index is written over the metadata file. *)
Definition _save_metadata (o : write_outcome) (a : Archiver) : bool * Archiver :=
  let '(ok, d) := write_text metadata_file (json_dumps (json_of_index (metadata a))) o (disk a) in
  (ok, {| metadata := metadata a; disk := d |}).

(** The folder of the group with sequence number [group_count]. *)
Definition group_folder (group_count : nat) : string := "group_" +:+ format_d 4 group_count.
Definition group_dir_of (group_count : nat) : string :=
  path_join media_groups_dir (group_folder group_count).

(** [msg.from_user.username or msg.from_user.full_name] *)
Definition sender_of (u : User) : string :=
  match username u with
  | Some (String c s) => String c s
  | _ => full_name u
  end.

Definition set_caption (gi : GroupInfo) (c : string) : GroupInfo :=
  {| gi_media_group_id := gi_media_group_id gi; gi_date := gi_date gi; gi_caption := c;
     gi_files := gi_files gi; gi_sender := gi_sender gi; gi_chat_id := gi_chat_id gi;
     gi_message_count := gi_message_count gi |}.

Definition set_sender (gi : GroupInfo) (s : string) : GroupInfo :=
  {| gi_media_group_id := gi_media_group_id gi; gi_date := gi_date gi; gi_caption := gi_caption gi;
     gi_files := gi_files gi; gi_sender := s; gi_chat_id := gi_chat_id gi;
     gi_message_count := gi_message_count gi |}.

Definition set_chat_id (gi : GroupInfo) (c : Z) : GroupInfo :=
  {| gi_media_group_id := gi_media_group_id gi; gi_date := gi_date gi; gi_caption := gi_caption gi;
     gi_files := gi_files gi; gi_sender := gi_sender gi; gi_chat_id := Some c;
     gi_message_count := gi_message_count gi |}.

Definition append_file (gi : GroupInfo) (f : StoredFile) : GroupInfo :=
  {| gi_media_group_id := gi_media_group_id gi; gi_date := gi_date gi; gi_caption := gi_caption gi;
     gi_files := gi_files gi ++ [f]; gi_sender := gi_sender gi; gi_chat_id := gi_chat_id gi;
     gi_message_count := gi_message_count gi |}.

(** The part of the loop body before the download: caption of the first
    message, sender, chat id. *)
Definition note_message (idx : nat) (msg : Message) (gi : GroupInfo) : GroupInfo :=
  let gi1 :=
    if Nat.eqb idx 1 && truthy (caption msg)
    then set_caption gi (default EmptyString (caption msg)) else gi in
  let gi2 :=
    match from_user msg with
    | Some u => set_sender gi1 (sender_of u)
    | None => gi1
    end in
  set_chat_id gi2 (chat_id msg).

(** [f'photo_{idx:02d}.{file_ext}'] with [file_ext = file_path.split('.')[-1]]. *)
Definition photo_filename (idx : nat) (file_path : string) : string :=
  "photo_" +:+ format_d 2 idx +:+ "." +:+ last_piece (split "." file_path).

(** One iteration of [for idx, msg in enumerate(messages, 1)]. *)
Definition process_message (env : ArchiveEnv) (group_dir : string) (idx : nat)
    (msg : Message) (gi : GroupInfo) (d : FS) : outcome GroupInfo * FS :=
  let gi' := note_message idx msg gi in
  match photo msg with
  | [] => (Returned gi', d)
  | smallest :: larger =>
      let ph := List.last larger smallest in
      match fetch env idx with
      | GetFileFails => (Raised (GetFileError idx), d)
      | GotFile None _ => (Raised (FilePathIsNone idx), d)
      | GotFile (Some file_path) download =>
          let filename := photo_filename idx file_path in
          let filepath := path_join group_dir filename in
          match download with
          | None => (Raised (DownloadError idx), d)
          | Some bytes =>
              (Returned (append_file gi' {| sf_file_id := file_id ph; sf_filename := filename;
                                            sf_size := file_size ph; sf_width := width ph;
                                            sf_height := height ph |}),
               {| dirs := dirs d; files := <[filepath := bytes]> (files d) |})
          end
      end
  end.

(** The loop, stopped by the first exception. *)
Fixpoint process_messages (env : ArchiveEnv) (group_dir : string) (idx : nat)
    (msgs : list Message) (gi : GroupInfo) (d : FS) : outcome GroupInfo * FS :=
  match msgs with
  | [] => (Returned gi, d)
  | msg :: rest =>
      match process_message env group_dir idx msg gi d with
      | (Returned gi', d') => process_messages env group_dir (S idx) rest gi' d'
      | (Raised e, d') => (Raised e, d')
      end
  end.

(** A byte that continues a code point of a UTF-8 text (binary [10xxxxxx]). *)
Definition is_continuation (c : ascii) : bool :=
  let n := nat_of_ascii c in
  Nat.leb 128 n && Nat.ltb n 192.

(** [s[:n]]: the first [n] code points of [s].  A text is held as its UTF-8
    bytes, as the literals of this file are, and the slice of the source
    counts code points: each is a byte that is no continuation, followed by
    its continuation bytes. *)
Fixpoint slice_to (n : nat) (s : string) : string :=
  match s with
  | EmptyString => EmptyString
  | String c s' =>
      if is_continuation c then String c (slice_to n s')
      else
        match n with
        | O => EmptyString
        | S n' => String c (slice_to n' s')
        end
  end.

Definition summary_of (folder : string) (gi : GroupInfo) : GroupSummary :=
  {| gs_group_id := gi_media_group_id gi;
     gs_folder := folder;
     gs_date := gi_date gi;
     gs_files_count := Z.of_nat (length (gi_files gi));
     gs_caption := slice_to 100 (gi_caption gi) |}.

(** [len(self.metadata['groups']) + 1] *)
Definition next_group_count (a : Archiver) : nat := S (length (groups (metadata a))).

(** The dict [group_info] as the call creates it. *)
Definition initial_group_info (env : ArchiveEnv) (gid : string) (messages : list Message)
    : GroupInfo :=
  {| gi_media_group_id := gid; gi_date := now env; gi_caption := EmptyString;
     gi_files := []; gi_sender := EmptyString; gi_chat_id := None;
     gi_message_count := length messages |}.

(** The body of the [try] block of [save_media_group]. *)
Definition save_media_group_body (env : ArchiveEnv) (gid : string) (messages : list Message)
    (a : Archiver) : outcome unit * Archiver :=
  let group_count := next_group_count a in
  let group_dir := group_dir_of group_count in
  match mkdir_exist_ok group_dir (mkdir_ok env) (disk a) with
  | (false, d) => (Raised MkdirError, {| metadata := metadata a; disk := d |})
  | (true, d0) =>
      let group_info := initial_group_info env gid messages in
      match process_messages env group_dir 1 messages group_info d0 with
      | (Raised e, d1) => (Raised e, {| metadata := metadata a; disk := d1 |})
      | (Returned gi, d1) =>
          match write_text (path_join group_dir "info.json")
                  (json_dumps (json_of_group_info gi)) (info_write env) d1 with
          | (false, d2) => (Raised DescriptorWriteError, {| metadata := metadata a; disk := d2 |})
          | (true, d2) =>
              let ix :=
                {| groups := groups (metadata a) ++ [summary_of (group_folder group_count) gi];
                   total_files := total_files (metadata a) + Z.of_nat (length (gi_files gi)) |} in
              match _save_metadata (meta_write env) {| metadata := ix; disk := d2 |} with
              | (false, a') => (Raised MetadataWriteError, a')
              | (true, a') => (Returned tt, a')
              end
          end
      end
  end.

(** [save_media_group]: [except Exception] turns every exception of the
    body into the return value [False]. *)
Definition save_media_group (env : ArchiveEnv) (gid : string) (messages : list Message)
    (a : Archiver) : outcome bool * Archiver :=
  match save_media_group_body env gid messages a with
  | (Returned _, a') => (Returned true, a')
  | (Raised _, a') => (Returned false, a')
  end.

(** One call of [save_media_group]: its environment and its arguments. *)
Record ArchiveCall := {
  call_env : ArchiveEnv;
  call_gid : string;
  call_messages : list Message
}.

Definition archive_call (c : ArchiveCall) (a : Archiver) : outcome bool * Archiver :=
  save_media_group (call_env c) (call_gid c) (call_messages c) a.

(** Calls made one after the other, each on the state the previous one
    left: the state at the end. *)
Definition archive_all (calls : list ArchiveCall) (a : Archiver) : Archiver :=
  fold_left (fun acc c => snd (archive_call c acc)) calls a.

(** The results of the same calls, in order. *)
Fixpoint archive_results (calls : list ArchiveCall) (a : Archiver) : list (outcome bool) :=
  match calls with
  | [] => []
  | c :: rest => fst (archive_call c a) :: archive_results rest (snd (archive_call c a))
  end.

(** What a reader outside the process can find on disk while a write that
    runs to completion is under way: [open(path, 'w')] has emptied the file,
    and the text reaches it from its start, piece by piece as the buffers
    are flushed; the states are listed at the grain of one character. *)
Definition write_text_states (path text : string) (d : FS) : list FS :=
  map (fun n => {| dirs := dirs d; files := <[path := substring 0 n text]> (files d) |})
      (seq 0 (S (String.length text))).

Definition _save_metadata_states (a : Archiver) : list FS :=
  write_text_states metadata_file (json_dumps (json_of_index (metadata a))) (disk a).

(** [load] as the typed index it denotes, when it denotes one. *)
Definition load_index (d : FS) : option MetadataIndex :=
  match _load_metadata d with
  | Returned v => index_of_json v
  | Raised _ => None
  end.

(** [sum(g['files_count'] for g in groups)] *)
Definition sum_files_count (gs : list GroupSummary) : Z :=
  fold_right (fun g acc => gs_files_count g + acc) 0 gs.

(** ** [handle_media] *)

Inductive ReplyText :=
| AlbumSaved (count : nat)
| PhotoSaved.

(** A [message.reply_text(...)] call that went through. *)
Record Reply := {
  reply_to : Z;
  reply_text : ReplyText
}.

(** The process-wide state: the archiver, [media_group_buffer] (a
    [defaultdict(list)]: a dict whose subscript creates a missing entry as
    the empty list), and the replies sent so far. *)
Record World := {
  archiver : Archiver;
  media_group_buffer : gmap string (list Message);
  outbox : list Reply
}.

(** The environment of one [handle_media] invocation. *)
Record HandlerEnv := {
  archive_env : ArchiveEnv;
  reply_ok : bool
}.

(** [media_group_buffer[key]]: the entry, created empty when missing. *)
Definition buffer_get (key : string) (buf : gmap string (list Message))
    : list Message * gmap string (list Message) :=
  match buf !! key with
  | Some l => (l, buf)
  | None => ([], <[key := []]> buf)
  end.

(** [del media_group_buffer[key]] *)
Definition buffer_del (key : string) (buf : gmap string (list Message))
    : outcome (gmap string (list Message)) :=
  match buf !! key with
  | Some _ => Returned (delete key buf)
  | None => Raised (KeyError key)
  end.

(** [await message.reply_text(...)] *)
Definition send_reply (ok : bool) (m : Message) (text : ReplyText) (out : list Reply)
    : outcome unit * list Reply :=
  if ok then (Returned tt, out ++ [{| reply_to := message_id m; reply_text := text |}])
  else (Raised ReplyError, out).

(** Where [handle_media] stands when it gives control back: asleep in
    [asyncio.sleep(1)], holding its message and the group id, or finished. *)
Inductive progress :=
| Sleeping (message : Message) (gid : string)
| Finished (result : outcome unit).

(** [handle_media] from its start to its sleep, or to its end when it does
    not sleep.  [message] is [update.message]: [None] for an update that
    holds its message elsewhere (a channel post, an edited message), on
    which [message.media_group_id] raises.  A message of a media group is
    appended to its buffer entry and the handler goes to sleep; a single
    photo is archived on the spot, as a one-message group; anything else is
    ignored. *)
Definition handle_media_start (env : HandlerEnv) (message : option Message) (w : World)
    : progress * World :=
  match message with
  | None => (Finished (Raised AttributeError), w)
  | Some m =>
      if truthy (media_group_id m) then
        let gid := default EmptyString (media_group_id m) in
        let '(l, buf) := buffer_get gid (media_group_buffer w) in
        (Sleeping m gid,
         {| archiver := archiver w; media_group_buffer := <[gid := l ++ [m]]> buf;
            outbox := outbox w |})
      else
        match photo m with
        | [] => (Finished (Returned tt), w)
        | _ :: _ =>
            let single_id := "single_" +:+ str_int (message_id m) in
            match save_media_group (archive_env env) single_id [m] (archiver w) with
            | (Raised e, a) =>
                (Finished (Raised e),
                 {| archiver := a; media_group_buffer := media_group_buffer w;
                    outbox := outbox w |})
            | (Returned false, a) =>
                (Finished (Returned tt),
                 {| archiver := a; media_group_buffer := media_group_buffer w;
                    outbox := outbox w |})
            | (Returned true, a) =>
                let '(r, out) := send_reply (reply_ok env) m PhotoSaved (outbox w) in
                (Finished r,
                 {| archiver := a; media_group_buffer := media_group_buffer w; outbox := out |})
            end
        end
  end.

(** [handle_media] from the end of its sleep to its end: the check of the
    buffer entry and, when it is not empty, the flush (archive, reply on
    success, removal of the entry). *)
Definition handle_media_resume (env : HandlerEnv) (m : Message) (gid : string) (w : World)
    : outcome unit * World :=
  let '(messages, buf) := buffer_get gid (media_group_buffer w) in
  match messages with
  | [] => (Returned tt, {| archiver := archiver w; media_group_buffer := buf; outbox := outbox w |})
  | _ :: _ =>
      match save_media_group (archive_env env) gid messages (archiver w) with
      | (Raised e, a) =>
          (Raised e, {| archiver := a; media_group_buffer := buf; outbox := outbox w |})
      | (Returned success, a) =>
          let '(r, out) :=
            if success then send_reply (reply_ok env) m (AlbumSaved (length messages)) (outbox w)
            else (Returned tt, outbox w) in
          match r with
          | Raised e => (Raised e, {| archiver := a; media_group_buffer := buf; outbox := out |})
          | Returned _ =>
              match buffer_del gid buf with
              | Raised e =>
                  (Raised e, {| archiver := a; media_group_buffer := buf; outbox := out |})
              | Returned buf' =>
                  (Returned tt, {| archiver := a; media_group_buffer := buf'; outbox := out |})
              end
          end
      end
  end.

(** [handle_media] from its start to its end, the sleep included. *)
Definition handle_media (env : HandlerEnv) (message : option Message) (w : World)
    : outcome unit * World :=
  match handle_media_start env message w with
  | (Sleeping m gid, w') => handle_media_resume env m gid w'
  | (Finished r, w') => (r, w')
  end.

(** ** The dispatcher

    [main] builds the [Application] with its defaults and registers
    [handle_media] for the updates that carry a photo.  So built, the
    application takes the updates one at a time, in the order of their
    arrival, and awaits the handler of an update to its end, its sleep
    included, before it takes the next update; an exception that leaves a
    handler is logged and the next update is taken.  The sleep of a handler
    thus delays the updates behind it and changes nothing else: the instants
    of delivery play no part in what is archived.  They are kept in
    [Delivery] for the hypotheses of the claims that are about timing. *)

Definition quiet_period : Q := 1.

(** One update carrying a message, the instant of its delivery, and the
    environment its handler will meet. *)
Record Delivery := {
  at_time : Q;
  update : Message;
  env_of : HandlerEnv
}.

(** An update that the photo filter lets through: its message is in
    [update.message], or, for a channel post or an edited message, in
    another attribute of the update, [update.message] being [None]. *)
Inductive Incoming :=
| InMessage (d : Delivery)
| Elsewhere (d : Delivery).

Definition delivery_of (u : Incoming) : Delivery :=
  match u with
  | InMessage d => d
  | Elsewhere d => d
  end.

(** [update.message] *)
Definition message_of (u : Incoming) : option Message :=
  match u with
  | InMessage d => Some (update d)
  | Elsewhere _ => None
  end.

(** The run so far: the world and the exceptions that left a handler. *)
Record Loop := {
  world : World;
  escaped : list exn
}.

Definition note_result (r : outcome unit) (errs : list exn) : list exn :=
  match r with
  | Returned _ => errs
  | Raised e => errs ++ [e]
  end.

(** One update is taken and its handler awaited to its end. *)
Definition process_update (u : Incoming) (l : Loop) : Loop :=
  let '(r, w) := handle_media (env_of (delivery_of u)) (message_of u) (world l) in
  {| world := w; escaped := note_result r (escaped l) |}.

(** The same for an update whose message is in [update.message]. *)
Definition deliver (d : Delivery) (l : Loop) : Loop := process_update (InMessage d) l.

(** The updates are processed in the order of their arrival. *)
Definition run_updates (us : list Incoming) (l : Loop) : Loop :=
  fold_left (fun acc u => process_update u acc) us l.

Definition run_loop (ds : list Delivery) (l : Loop) : Loop :=
  fold_left (fun acc d => deliver d acc) ds l.

Definition start_loop (w : World) : Loop :=
  {| world := w; escaped := [] |}.

(** ** Notions used in the statements *)

(** The runs of the body of [save_media_group], by the step that ends
    them: the folder cannot be created; the loop raises; the descriptor
    cannot be written; or the index is updated in memory and its write ends
    the call, well or not. *)
Inductive body_run (env : ArchiveEnv) (gid : string) (messages : list Message) (a : Archiver)
  : outcome unit -> Archiver -> Prop :=
| run_mkdir_fails :
    mkdir_ok env = false ->
    body_run env gid messages a (Raised MkdirError) a
| run_loop_fails e d1 :
    mkdir_ok env = true ->
    process_messages env (group_dir_of (next_group_count a)) 1 messages
      (initial_group_info env gid messages)
      {| dirs := {[group_dir_of (next_group_count a)]} ∪ dirs (disk a); files := files (disk a) |}
      = (Raised e, d1) ->
    e <> MetadataWriteError -> e <> DescriptorWriteError -> e <> MkdirError ->
    body_run env gid messages a (Raised e) {| metadata := metadata a; disk := d1 |}
| run_descriptor_fails gi d1 d2 :
    mkdir_ok env = true ->
    process_messages env (group_dir_of (next_group_count a)) 1 messages
      (initial_group_info env gid messages)
      {| dirs := {[group_dir_of (next_group_count a)]} ∪ dirs (disk a); files := files (disk a) |}
      = (Returned gi, d1) ->
    write_text (path_join (group_dir_of (next_group_count a)) "info.json")
      (json_dumps (json_of_group_info gi)) (info_write env) d1 = (false, d2) ->
    body_run env gid messages a (Raised DescriptorWriteError) {| metadata := metadata a; disk := d2 |}
| run_reaches_index gi d1 d2 ok d3 :
    mkdir_ok env = true ->
    process_messages env (group_dir_of (next_group_count a)) 1 messages
      (initial_group_info env gid messages)
      {| dirs := {[group_dir_of (next_group_count a)]} ∪ dirs (disk a); files := files (disk a) |}
      = (Returned gi, d1) ->
    write_text (path_join (group_dir_of (next_group_count a)) "info.json")
      (json_dumps (json_of_group_info gi)) (info_write env) d1 = (true, d2) ->
    write_text metadata_file
      (json_dumps (json_of_index
         {| groups := groups (metadata a) ++ [summary_of (group_folder (next_group_count a)) gi];
            total_files := total_files (metadata a) + Z.of_nat (length (gi_files gi)) |}))
      (meta_write env) d2 = (ok, d3) ->
    body_run env gid messages a
      (if ok then Returned tt else Raised MetadataWriteError)
      {| metadata :=
           {| groups := groups (metadata a) ++ [summary_of (group_folder (next_group_count a)) gi];
              total_files := total_files (metadata a) + Z.of_nat (length (gi_files gi)) |};
         disk := d3 |}.

(** The invariant of the index: the counter is the sum of the file counts. *)
Definition index_consistent (ix : MetadataIndex) : Prop :=
  total_files ix = sum_files_count (groups ix).

(** The world [w] with its buffer replaced. *)
Definition with_buffer (w : World) (buf : gmap string (list Message)) : World :=
  {| archiver := archiver w; media_group_buffer := buf; outbox := outbox w |}.

(** The text starts with a character that is not white space. *)
Definition starts_value (s : string) : Prop :=
  match s with
  | String c _ => is_ws c = false
  | EmptyString => False
  end.

(** Every character is a decimal digit. *)
Fixpoint all_digits (s : string) : bool :=
  match s with
  | EmptyString => true
  | String c s' => is_digit c && all_digits s'
  end.

(** What may follow the digits of an integer: nothing, or a character that
    neither continues the number nor turns it into a float. *)
Definition ends_number (rest : string) : bool :=
  match rest with
  | EmptyString => true
  | String c _ => negb (is_digit c) && negb (starts_fraction_or_exponent rest)
  end.

(** The first character of the text of an integer. *)
Definition number_head (c : ascii) : bool := is_digit c || Ascii.eqb c "-".

(** The first character of the text of a value. *)
Definition value_head (c : ascii) : bool :=
  Ascii.eqb c dquote || Ascii.eqb c "[" || Ascii.eqb c "{" || Ascii.eqb c "n" ||
  Ascii.eqb c "t" || Ascii.eqb c "f" || number_head c.

(** The fuel a value asks of the decoder. *)
Fixpoint fuel_needed (v : json) : nat :=
  match v with
  | JList items => S (fold_right (fun x acc => S (fuel_needed x + acc)) 0%nat items)
  | JDict members => S (fold_right (fun kx acc => S (fuel_needed (snd kx) + acc)) 0%nat members)
  | _ => 1%nat
  end.

(** The decoder reads the text of [v] back, at any depth, before any text
    that may follow a value, given the fuel [v] asks. *)
Definition parses (v : json) : Prop :=
  forall level fuel rest,
    (fuel_needed v <= fuel)%nat -> ends_number rest = true ->
    parse_value fuel (encode level v +:+ rest) = Some (v, rest).

(** [info.json] of a group folder, read back: its [message_count]. *)
Definition descriptor_message_count (d : FS) (folder : string) : option Z :=
  match files d !! path_join (path_join media_groups_dir folder) "info.json" with
  | Some text =>
      match json_loads text with
      | Some (JDict m) => get_int "message_count" m
      | _ => None
      end
  | None => None
  end.

(** ** Sample inputs *)

(** The full-size variant of a photo and its thumbnail. *)
Definition sample_photo (id : string) : PhotoSize :=
  {| file_id := id; file_size := Some 2048; width := 1280; height := 960 |}.

Definition sample_thumb (id : string) : PhotoSize :=
  {| file_id := id; file_size := Some 512; width := 320; height := 240 |}.

(** A message of the album [g] carrying one photo in two sizes. *)
Definition album_message (i : Z) (g : string) (c : option string) : Message :=
  {| message_id := i; media_group_id := Some g; caption := c;
     from_user := Some {| username := Some "alice"; full_name := "Alice A." |};
     chat_id := 42;
     photo := [sample_thumb ("thumb-" +:+ str_int i); sample_photo ("photo-" +:+ str_int i)] |}.

(** Three messages of the album [album1]; the first two carry a caption. *)
(** A single photo, outside any album. *)
Definition single_message (i : Z) : Message :=
  {| message_id := i; media_group_id := None; caption := None;
     from_user := Some {| username := None; full_name := "Bob B." |};
     chat_id := 42; photo := [sample_photo ("photo-" +:+ str_int i)] |}.

Definition msg_a : Message := album_message 101 "album1" (Some "A").
Definition msg_b : Message := album_message 102 "album1" (Some "B").
Definition msg_c : Message := album_message 103 "album1" None.

(** The disk, the archiver and the world right after start-up on an empty
    download directory. *)
Definition fresh_disk : FS := {| dirs := {[ media_groups_dir ]}; files := ∅ |}.
Definition fresh_archiver : Archiver := {| metadata := empty_index; disk := fresh_disk |}.
Definition fresh_world : World :=
  {| archiver := fresh_archiver; media_group_buffer := ∅; outbox := [] |}.

(** Every call of the platform and of the disk succeeds. *)
Definition all_fine : ArchiveEnv :=
  {| now := "2024-05-01T10:00:00"; mkdir_ok := true;
     fetch := fun idx => GotFile (Some ("photos/file_" +:+ str_nat idx +:+ ".jpg"))
                                 (Some ("jpeg-" +:+ str_nat idx));
     info_write := WriteOk; meta_write := WriteOk |}.

(** The download of the second attachment raises. *)
Definition second_download_fails : ArchiveEnv :=
  {| now := "2024-05-01T10:00:00"; mkdir_ok := true;
     fetch := fun idx => if Nat.eqb idx 2 then GotFile (Some "photos/file_2.jpg") None
                         else fetch all_fine idx;
     info_write := WriteOk; meta_write := WriteOk |}.

(** The third attachment cannot be retrieved. *)
Definition third_get_file_fails : ArchiveEnv :=
  {| now := "2024-05-01T10:00:00"; mkdir_ok := true;
     fetch := fun idx => if Nat.eqb idx 3 then GetFileFails else fetch all_fine idx;
     info_write := WriteOk; meta_write := WriteOk |}.

(** The metadata file cannot be opened for writing. *)
Definition index_write_fails : ArchiveEnv :=
  {| now := "2024-05-01T10:00:00"; mkdir_ok := true; fetch := fetch all_fine;
     info_write := WriteOk; meta_write := OpenFails |}.

(** A handler whose acknowledgement goes through. *)
Definition handler_env (e : ArchiveEnv) : HandlerEnv := {| archive_env := e; reply_ok := true |}.

(** The delivery of [m] at time [t], everything succeeding afterwards. *)
Definition arrival (t : Q) (m : Message) : Delivery :=
  {| at_time := t; update := m; env_of := handler_env all_fine |}.

(** An index of one group of three files. *)
Definition one_group_index : MetadataIndex :=
  {| groups := [{| gs_group_id := "album1"; gs_folder := "group_0001";
                   gs_date := "2024-05-01T10:00:00"; gs_files_count := 3; gs_caption := "A" |}];
     total_files := 3 |}.

(** An archiver whose metadata file holds the empty index. *)
Definition archiver_with_saved_index : Archiver :=
  snd (_save_metadata WriteOk {| metadata := empty_index; disk := fresh_disk |}).

(** Three calls in a row from the empty index: two albums and a single
    photo archived as a one-message group. *)
Definition three_albums : list ArchiveCall :=
  [ {| call_env := all_fine; call_gid := "album1"; call_messages := [msg_a; msg_b] |};
    {| call_env := all_fine; call_gid := "album2";
       call_messages := [album_message 201 "album2" None] |};
    {| call_env := all_fine; call_gid := "single_301";
       call_messages := [single_message 301] |} ].

(** The buffer holding three messages of the album [album1]. *)
Definition world_with_album1_buffered : World :=
  {| archiver := fresh_archiver; media_group_buffer := {[ "album1" := [msg_a; msg_b; msg_c] ]};
     outbox := [] |}.

(** ** Notions and sample inputs of the further properties *)

(** [int(s)] for a text of decimal digits. *)
Definition read_decimal (s : string) : option nat :=
  option_map Nat.of_uint (NilEmpty.uint_of_string s).

(** The character [c] does not occur in [s]. *)
Fixpoint free_of (c : ascii) (s : string) : bool :=
  match s with
  | EmptyString => true
  | String c' s' => negb (Ascii.eqb c' c) && free_of c s'
  end.

(** The position a stored attachment's file name carries: the digits after
    [photo_]. *)
Definition photo_number (filename : string) : option nat :=
  match strip_literal "photo_" filename with
  | Some r => read_decimal (fst (span_digits r))
  | None => None
  end.

(** The sequence number a group folder's name carries: the digits after
    [group_]. *)
Definition folder_number (folder : string) : option nat :=
  match strip_literal "group_" folder with
  | Some r => read_decimal r
  | None => None
  end.

(** [enumerate(l, start)] *)
Fixpoint enumerate {A} (start : nat) (l : list A) : list (nat * A) :=
  match l with
  | [] => []
  | x :: rest => (start, x) :: enumerate (S start) rest
  end.

(** [if msg.photo] *)
Definition has_photo (msg : Message) : bool :=
  match photo msg with
  | [] => false
  | _ :: _ => true
  end.

(** The messages of a call that carry a photo, each with its position in
    the call (from 1). *)
Definition photo_messages (messages : list Message) : list (nat * Message) :=
  List.filter (fun im => has_photo (snd im)) (enumerate 1 messages).

(** The entry [f] of a descriptor's file list records the photo of the
    message [im.2] at position [im.1]: the platform gave a path and the
    bytes for it, the entry describes the last (largest) size of the photo
    under the name made of the position and of the path's extension, and the
    file of that name in [dir] holds the bytes. *)
Definition stored_as (env : ArchiveEnv) (dir : string) (d : FS)
    (im : nat * Message) (f : StoredFile) : Prop :=
  exists file_path bytes smallest larger,
    photo (snd im) = smallest :: larger /\
    fetch env (fst im) = GotFile (Some file_path) (Some bytes) /\
    f = {| sf_file_id := file_id (List.last larger smallest);
           sf_filename := photo_filename (fst im) file_path;
           sf_size := file_size (List.last larger smallest);
           sf_width := width (List.last larger smallest);
           sf_height := height (List.last larger smallest) |} /\
    files d !! path_join dir (sf_filename f) = Some bytes.

(** The caption an album is given: that of its first message, when it has
    one that is not empty. *)
Definition album_caption (messages : list Message) : string :=
  match messages with
  | m :: _ => if truthy (caption m) then default EmptyString (caption m) else EmptyString
  | [] => EmptyString
  end.

(** The senders of the messages that have one, in the order of the
    messages. *)
Definition senders (messages : list Message) : list string :=
  omap (fun m => option_map sender_of (from_user m)) messages.

(** The index in memory is the one the metadata file denotes. *)
Definition in_sync (a : Archiver) : Prop := load_index (disk a) = Some (metadata a).

(** The metadata file can be written during the call. *)
Definition index_writable (c : ArchiveCall) : Prop := meta_write (call_env c) = WriteOk.

(** [save_media_group] returned [True]. *)
Definition succeeded (r : outcome bool) : bool :=
  match r with
  | Returned true => true
  | _ => false
  end.

(** [info.json] of a group folder, read back as a document. *)
Definition read_descriptor (d : FS) (folder : string) : option json :=
  match files d !! path_join (path_join media_groups_dir folder) "info.json" with
  | Some text => json_loads text
  | None => None
  end.

(** [f"single_{message.message_id}"] *)
Definition single_id_of (m : Message) : string := "single_" +:+ str_int (message_id m).

(** The document is not a bare number. *)
Definition is_number (v : json) : bool :=
  match v with
  | JInt _ => true
  | _ => false
  end.

(** Each delivery comes a quiet period or more after the one before. *)
Fixpoint spaced (ds : list Delivery) : Prop :=
  match ds with
  | [] => True
  | d1 :: rest =>
      match rest with
      | [] => True
      | d2 :: _ => (at_time d1 + quiet_period <= at_time d2)%Q
      end /\ spaced rest
  end.

(** The call that archives the message of [d] alone, as the group [g]. *)
Definition alone (g : string) (d : Delivery) : ArchiveCall :=
  {| call_env := archive_env (env_of d); call_gid := g; call_messages := [update d] |}.

(** The acknowledgements of calls that archive one message each: one per
    call that returned [True]. *)
Fixpoint acknowledgements (ds : list Delivery) (results : list (outcome bool)) : list Reply :=
  match ds, results with
  | d :: ds', r :: results' =>
      (if succeeded r
       then [{| reply_to := message_id (update d); reply_text := AlbumSaved 1 |}] else [])
      ++ acknowledgements ds' results'
  | _, _ => []
  end.

(** The group identifier of a message that has one. *)
Definition gid_of (m : Message) : string := default EmptyString (media_group_id m).

(** ** [stats_command] *)

(** The escape [\n] of the source's literals. *)
Definition line_feed : string := String (ascii_of_nat 10) EmptyString.

(** The statistics message for [group_total] groups and [file_total]
    files, in a bot whose download directory is [download_dir]. *)
Definition stats_lines (download_dir : string) (group_total : nat) (file_total : Z) : string :=
  "📊 *Статистика архивации*" +:+ line_feed +:+ line_feed +:+
  "📁 Всего групп: " +:+ str_nat group_total +:+ line_feed +:+
  "🖼 Всего файлов: " +:+ str_int file_total +:+ line_feed +:+
  "💾 Папка: `" +:+ path_join download_dir media_groups_dir +:+ "`".

(** [stats_text] of the source: the figures are those of the index in
    memory. *)
Definition stats_text (download_dir : string) (a : Archiver) : string :=
  stats_lines download_dir (length (groups (metadata a))) (total_files (metadata a)).

(** [stats_command]: the text is sent as a reply, whose failure is the
    handler's; the world is only read. *)
Definition stats_command (reply_succeeds : bool) (download_dir : string) (w : World)
    : outcome string :=
  if reply_succeeds then Returned (stats_text download_dir (archiver w))
  else Raised ReplyError.

(** A message of the album [g] that carries no photo and names no sender. *)
Definition text_only_message (i : Z) (g : string) : Message :=
  {| message_id := i; media_group_id := Some g; caption := Some "ignored";
     from_user := None; chat_id := 43; photo := [] |}.

(** A handler whose acknowledgement raises. *)
Definition handler_env_reply_fails (e : ArchiveEnv) : HandlerEnv :=
  {| archive_env := e; reply_ok := false |}.

(** ** Notions for failed calls and for runs of the dispatcher *)

(** The number of messages the loop had dealt with in full when the body
    raised [e]: the messages before the one whose photo could not be
    fetched, or all of them when the loop had ended. *)
Definition completed_before (e : exn) (messages : list Message) : nat :=
  match e with
  | GetFileError idx | FilePathIsNone idx | DownloadError idx => idx - 1
  | DescriptorWriteError | MetadataWriteError => length messages
  | _ => 0
  end.

(** [len(s)]: the number of code points of a text held as UTF-8 bytes. *)
Fixpoint code_points (s : string) : nat :=
  match s with
  | EmptyString => 0
  | String c s' => if is_continuation c then code_points s' else S (code_points s')
  end.

(** [s * n] *)
Fixpoint repeated (n : nat) (s : string) : string :=
  match n with
  | O => EmptyString
  | S n' => s +:+ repeated n' s
  end.

(** A message of the album [g] whose caption is [n] times the Cyrillic
    letter [я], two bytes each. *)
Definition cyrillic_message (i : Z) (g : string) (n : nat) : Message :=
  album_message i g (Some (repeated n "я")).

(** Every entry of the buffer holds a message at least. *)
Definition no_empty_entry (buf : gmap string (list Message)) : Prop :=
  map_Forall (fun _ l => l <> []) buf.

(** The call that the handler of an update makes when the buffer holds
    nothing for the group of its message: a message of an album is archived
    alone under the album's identifier, a single photo under its own; an
    update without [update.message], or with neither album nor photo, makes
    no call. *)
Definition call_of (u : Incoming) : option ArchiveCall :=
  match message_of u with
  | None => None
  | Some m =>
      if truthy (media_group_id m) then
        Some {| call_env := archive_env (env_of (delivery_of u)); call_gid := gid_of m;
                call_messages := [m] |}
      else if has_photo m then
        Some {| call_env := archive_env (env_of (delivery_of u)); call_gid := single_id_of m;
                call_messages := [m] |}
      else None
  end.

(** The exception, if any, that leaves the handler of an update whose
    acknowledgement goes through. *)
Definition raised_by (u : Incoming) : option exn :=
  match message_of u with
  | None => Some AttributeError
  | Some _ => None
  end.

(** * Proofs *)

(** ** The helpers on small inputs *)

Example format_d_pads : format_d 4 7 = "0007" /\ format_d 2 12 = "12".
Proof. split; reflexivity. Qed.

Example format_d_does_not_truncate : format_d 2 123 = "123".
Proof. reflexivity. Qed.

Example split_keeps_empty_pieces : split "." "a..b." = ["a"; ""; "b"; ""].
Proof. reflexivity. Qed.

Example photo_filename_takes_last_extension :
  photo_filename 3 "photos/file_1.tar.jpg" = "photo_03.jpg".
Proof. reflexivity. Qed.

Example photo_filename_without_dot : photo_filename 1 "blob" = "photo_01.blob".
Proof. reflexivity. Qed.

Example json_dumps_empty_index :
  json_dumps (json_of_index empty_index) =
  "{" +:+ newline_indent 1 +:+ encode_string "groups" +:+ ": []," +:+
  newline_indent 1 +:+ encode_string "total_files" +:+ ": 0" +:+ newline_indent 0 +:+ "}".
Proof. reflexivity. Qed.

Example json_loads_compact_text :
  json_loads ("{" +:+ encode_string "total_files" +:+ ":12,  " +:+ encode_string "groups" +:+
              " : [ ] }")
  = Some (JDict [("total_files", JInt 12); ("groups", JList [])]).
Proof. reflexivity. Qed.

Example json_loads_rejects_empty_text : json_loads EmptyString = None.
Proof. reflexivity. Qed.

Example json_loads_rejects_leading_zero : json_loads "012" = None.
Proof. reflexivity. Qed.

Example escape_control_and_quote :
  escape (String (ascii_of_nat 10) (String (ascii_of_nat 1) (String dquote "\")))
  = "\n\u0001\" +:+ String dquote "\\".
Proof. reflexivity. Qed.

Example json_loads_rejects_trailing_comma : json_loads "[1,]" = None.
Proof. reflexivity. Qed.

Example json_loads_nested_empty : json_loads " [[ ], {}] " = Some (JList [JList []; JDict []]).
Proof. reflexivity. Qed.

Lemma append_cancel_l (s a b : string) : s +:+ a = s +:+ b -> a = b.
Proof. induction s as [|c s IH]; simpl; [done|]. intros H. injection H as H. auto. Qed.

Lemma photo_path_not_descriptor dir idx fp :
  path_join dir (photo_filename idx fp) <> path_join dir "info.json".
Proof.
  unfold path_join, photo_filename. intros H.
  apply append_cancel_l in H. simpl in H. discriminate H.
Qed.

Lemma group_path_not_metadata n name :
  path_join (group_dir_of n) name <> metadata_file.
Proof. unfold path_join, group_dir_of, path_join, media_groups_dir, metadata_file. simpl. discriminate. Qed.

Section Loop.
Variables (env : ArchiveEnv) (dir : string).

Lemma process_message_spec idx msg gi d r d' :
  process_message env dir idx msg gi d = (r, d') ->
  dirs d' = dirs d /\
  (forall p, (forall i fp, p <> path_join dir (photo_filename i fp)) ->
             files d' !! p = files d !! p) /\
  (forall p, is_Some (files d !! p) -> is_Some (files d' !! p)) /\
  (forall e, r = Raised e -> d' = d).
Proof.
  unfold process_message. intros H.
  destruct (photo msg) as [|p0 ps].
  { inversion H; subst. repeat split; auto. }
  destruct (fetch env idx) as [|[fp|] [bytes|]]; inversion H; subst; clear H;
    try (repeat split; auto; discriminate).
  simpl. split; [done|]. split; [|split].
  - intros p Hp. rewrite lookup_insert_ne; [done|]. intros Heq. eapply Hp. symmetry. exact Heq.
  - intros p Hs. destruct (decide (path_join dir (photo_filename idx fp) = p)) as [->|Hne].
    + rewrite lookup_insert_eq. eauto.
    + rewrite lookup_insert_ne; done.
  - discriminate.
Qed.

Lemma process_messages_spec msgs : forall idx gi d r d',
  process_messages env dir idx msgs gi d = (r, d') ->
  dirs d' = dirs d /\
  (forall p, (forall i fp, p <> path_join dir (photo_filename i fp)) ->
             files d' !! p = files d !! p) /\
  (forall p, is_Some (files d !! p) -> is_Some (files d' !! p)).
Proof.
  induction msgs as [|m msgs IH]; simpl; intros idx gi d r d' H.
  { inversion H; subst. auto. }
  destruct (process_message env dir idx m gi d) as [r1 d1] eqn:E1.
  apply process_message_spec in E1 as (Hd & Hf & Hs & _).
  destruct r1 as [gi1|e].
  - apply IH in H as (Hd' & Hf' & Hs'). split; [congruence|]. split.
    + intros p Hp. rewrite Hf', Hf; auto.
    + auto.
  - inversion H; subst. auto.
Qed.

Lemma note_message_fixed idx msg gi :
  gi_media_group_id (note_message idx msg gi) = gi_media_group_id gi /\
  gi_date (note_message idx msg gi) = gi_date gi /\
  gi_message_count (note_message idx msg gi) = gi_message_count gi /\
  gi_files (note_message idx msg gi) = gi_files gi.
Proof.
  unfold note_message.
  destruct (Nat.eqb idx 1 && truthy (caption msg))%bool, (from_user msg); simpl; auto.
Qed.

Lemma process_message_fixed idx msg gi d gi' d' :
  process_message env dir idx msg gi d = (Returned gi', d') ->
  gi_media_group_id gi' = gi_media_group_id gi /\
  gi_date gi' = gi_date gi /\
  gi_message_count gi' = gi_message_count gi.
Proof.
  unfold process_message. intros H.
  pose proof (note_message_fixed idx msg gi) as (H1 & H2 & H3 & _).
  destruct (photo msg) as [|p0 ps].
  { inversion H; subst. auto. }
  destruct (fetch env idx) as [|[fp|] [bytes|]]; inversion H; subst; clear H.
  simpl. auto.
Qed.

Lemma process_messages_fixed msgs : forall idx gi d gi' d',
  process_messages env dir idx msgs gi d = (Returned gi', d') ->
  gi_media_group_id gi' = gi_media_group_id gi /\
  gi_date gi' = gi_date gi /\
  gi_message_count gi' = gi_message_count gi.
Proof.
  induction msgs as [|m msgs IH]; simpl; intros idx gi d gi' d' H.
  { inversion H; subst. auto. }
  destruct (process_message env dir idx m gi d) as [[gi1|e] d1] eqn:E1; [|discriminate].
  apply process_message_fixed in E1 as (H1 & H2 & H3).
  apply IH in H as (H1' & H2' & H3'). repeat split; congruence.
Qed.
End Loop.

(** ** Facts about [save_media_group] *)

Lemma save_media_group_snd env gid messages a :
  snd (save_media_group env gid messages a) = snd (save_media_group_body env gid messages a).
Proof. unfold save_media_group. by destruct (save_media_group_body env gid messages a) as [[[]|e] a']. Qed.

Lemma save_media_group_fst env gid messages a :
  fst (save_media_group env gid messages a) =
  match fst (save_media_group_body env gid messages a) with
  | Returned _ => Returned true
  | Raised _ => Returned false
  end.
Proof. unfold save_media_group. by destruct (save_media_group_body env gid messages a) as [[[]|e] a']. Qed.

Lemma process_message_exn env dir idx msg gi d e d' :
  process_message env dir idx msg gi d = (Raised e, d') ->
  e <> MetadataWriteError /\ e <> DescriptorWriteError /\ e <> MkdirError.
Proof.
  unfold process_message. destruct (photo msg); [discriminate|].
  destruct (fetch env idx) as [|[fp|] [bytes|]]; intros H; inversion H; subst; done.
Qed.

Lemma process_messages_exn env dir msgs : forall idx gi d e d',
  process_messages env dir idx msgs gi d = (Raised e, d') ->
  e <> MetadataWriteError /\ e <> DescriptorWriteError /\ e <> MkdirError.
Proof.
  induction msgs as [|m msgs IH]; simpl; intros idx gi d e d' H; [discriminate|].
  destruct (process_message env dir idx m gi d) as [[gi1|e1] d1] eqn:E1.
  - eauto.
  - inversion H; subst. eapply process_message_exn; eauto.
Qed.

Lemma save_media_group_body_run env gid messages a :
  body_run env gid messages a
    (fst (save_media_group_body env gid messages a))
    (snd (save_media_group_body env gid messages a)).
Proof.
  unfold save_media_group_body, mkdir_exist_ok.
  destruct (mkdir_ok env) eqn:Hmk.
  2:{ simpl. destruct a. by constructor. }
  fold (initial_group_info env gid messages).
  destruct (process_messages _ _ _ _ _ _) as [[gi|e] d1] eqn:Hloop.
  2:{ simpl. pose proof (process_messages_exn _ _ _ _ _ _ _ _ Hloop) as (?&?&?).
      by eapply run_loop_fails. }
  destruct (write_text (path_join _ "info.json") _ (info_write env) d1) as [[] d2] eqn:Hinfo.
  2:{ simpl. by eapply run_descriptor_fails. }
  unfold _save_metadata. cbn [metadata disk].
  destruct (write_text metadata_file _ (meta_write env) d2) as [ok d3] eqn:Hmeta.
  pose proof (run_reaches_index env gid messages a gi d1 d2 ok d3 Hmk Hloop Hinfo Hmeta) as Hrun.
  by destruct ok.
Qed.

(** Case analysis on how a call ended. *)
Ltac run_cases env gid messages a :=
  destruct (save_media_group_body_run env gid messages a) as
    [Hmk|e' d1 Hmk Hloop _ _ _|gi d1 d2 Hmk Hloop Hinfo|gi d1 d2 ok d3 Hmk Hloop Hinfo Hmeta].

Lemma write_text_spec path text o d ok d' :
  write_text path text o d = (ok, d') ->
  dirs d' = dirs d /\
  (forall p, p <> path -> files d' !! p = files d !! p) /\
  (forall p, is_Some (files d !! p) -> is_Some (files d' !! p)) /\
  (ok = true -> files d' !! path = Some text).
Proof.
  unfold write_text. intros H.
  destruct o; inversion H; subst; clear H; simpl; (split; [done|]); (split; [|split]);
    try done; try (intros p Hp; by rewrite lookup_insert_ne);
    try (intros p Hs; destruct (decide (path = p)) as [->|];
         [rewrite lookup_insert_eq; eauto | by rewrite lookup_insert_ne]).
  intros _. by rewrite lookup_insert_eq.
Qed.

Lemma sum_files_count_app gs g :
  sum_files_count (gs ++ [g]) = sum_files_count gs + gs_files_count g.
Proof. unfold sum_files_count. induction gs as [|x gs IH]; simpl; lia. Qed.

(** The index after a call is the index before it, or that index with one
    summary more and the counter raised by that summary's file count. *)
Lemma save_media_group_index_step env gid messages a :
  let ix' := metadata (snd (save_media_group env gid messages a)) in
  ix' = metadata a \/
  exists s, groups ix' = groups (metadata a) ++ [s] /\
            total_files ix' = total_files (metadata a) + gs_files_count s /\
            gs_folder s = group_folder (next_group_count a) /\
            gs_group_id s = gid.
Proof.
  cbv zeta. rewrite save_media_group_snd.
  run_cases env gid messages a; simpl; auto.
  right. eexists. split; [reflexivity|]. simpl. split; [done|]. split; [done|].
  by apply process_messages_fixed in Hloop as (-> & _).
Qed.

Lemma save_media_group_consistent env gid messages a :
  index_consistent (metadata a) ->
  index_consistent (metadata (snd (save_media_group env gid messages a))).
Proof.
  intros Hc. destruct (save_media_group_index_step env gid messages a) as [->|(s & Hg & Ht & _)]; [done|].
  unfold index_consistent in *. rewrite Hg, Ht, sum_files_count_app. lia.
Qed.

Lemma archive_all_snoc calls c a :
  archive_all (calls ++ [c]) a = snd (archive_call c (archive_all calls a)).
Proof. unfold archive_all. by rewrite fold_left_app. Qed.

(** The invariant of the index: the counter equals the sum of the file
    counts after any sequence of calls, whatever their outcomes, and the list
    of summaries only grows at its end. *)
Lemma archive_all_consistent calls a :
  index_consistent (metadata a) ->
  index_consistent (metadata (archive_all calls a)) /\
  groups (metadata a) `prefix_of` groups (metadata (archive_all calls a)).
Proof.
  intros Hc. induction calls as [|c calls IH] using rev_ind.
  { split; [done|reflexivity]. }
  destruct IH as [IH1 IH2]. rewrite archive_all_snoc. unfold archive_call. split.
  - by apply save_media_group_consistent.
  - destruct (save_media_group_index_step (call_env c) (call_gid c) (call_messages c)
                (archive_all calls a)) as [->|(s & Hg & _)]; [done|].
    rewrite Hg. etrans; [exact IH2|]. by apply prefix_app_r.
Qed.

Lemma save_media_group_disk_grows env gid messages a :
  let a' := snd (save_media_group env gid messages a) in
  dirs (disk a) ⊆ dirs (disk a') /\
  (forall p, is_Some (files (disk a) !! p) -> is_Some (files (disk a') !! p)).
Proof.
  cbv zeta. rewrite save_media_group_snd.
  run_cases env gid messages a; simpl.
  - done.
  - apply process_messages_spec in Hloop as (Hd & _ & Hs). simpl in *.
    split; [rewrite Hd; clear; set_solver | auto].
  - apply process_messages_spec in Hloop as (Hd & _ & Hs).
    apply write_text_spec in Hinfo as (Hd2 & _ & Hs2 & _). simpl in *.
    split; [rewrite Hd2, Hd; clear; set_solver | auto].
  - apply process_messages_spec in Hloop as (Hd & _ & Hs).
    apply write_text_spec in Hinfo as (Hd2 & _ & Hs2 & _).
    apply write_text_spec in Hmeta as (Hd3 & _ & Hs3 & _). simpl in *.
    split; [rewrite Hd3, Hd2, Hd; clear; set_solver | auto].
Qed.

(** What a successful call leaves. *)
Lemma save_media_group_success env gid messages a :
  fst (save_media_group env gid messages a) = Returned true ->
  let a' := snd (save_media_group env gid messages a) in
  let dir := group_dir_of (next_group_count a) in
  exists gi,
    gi_media_group_id gi = gid /\
    gi_message_count gi = length messages /\
    groups (metadata a') = groups (metadata a) ++ [summary_of (group_folder (next_group_count a)) gi] /\
    total_files (metadata a') = total_files (metadata a) + Z.of_nat (length (gi_files gi)) /\
    dir ∈ dirs (disk a') /\
    files (disk a') !! path_join dir "info.json" = Some (json_dumps (json_of_group_info gi)) /\
    files (disk a') !! metadata_file = Some (json_dumps (json_of_index (metadata a'))).
Proof.
  cbv zeta. rewrite save_media_group_fst, save_media_group_snd.
  run_cases env gid messages a; simpl; try discriminate.
  destruct ok; [intros _|discriminate].
  pose proof (process_messages_fixed _ _ _ _ _ _ _ _ Hloop) as (Hid & _ & Hcount).
  apply process_messages_spec in Hloop as (Hd & _ & _).
  apply write_text_spec in Hinfo as (Hd2 & _ & _ & Hi).
  apply write_text_spec in Hmeta as (Hd3 & Hf3 & _ & Hm). simpl in *.
  exists gi. repeat split; try done.
  - rewrite Hd3, Hd2, Hd. clear. set_solver.
  - rewrite Hf3; [auto|]. apply group_path_not_metadata.
  - auto.
Qed.

Lemma save_media_group_failure_before_index_aux env gid messages a e :
  fst (save_media_group_body env gid messages a) = Raised e ->
  e <> MetadataWriteError ->
  metadata (snd (save_media_group env gid messages a)) = metadata a /\
  (e <> MkdirError -> group_dir_of (next_group_count a) ∈ dirs (disk (snd (save_media_group env gid messages a)))).
Proof.
  intros Hfail Hne. rewrite save_media_group_snd.
  run_cases env gid messages a; simpl in *.
  - inversion Hfail; subst. done.
  - inversion Hfail; subst.
    apply process_messages_spec in Hloop as (Hd & _ & _). simpl in *.
    split; [done|]. intros _. rewrite Hd. clear. set_solver.
  - inversion Hfail; subst.
    apply process_messages_spec in Hloop as (Hd & _ & _).
    apply write_text_spec in Hinfo as (Hd2 & _ & _). simpl in *.
    split; [done|]. intros _. rewrite Hd2, Hd. clear. set_solver.
  - destruct ok; [discriminate|]. inversion Hfail; subst. done.
Qed.

(** C10 (as amended): an attempt that fails after creating its folder and
    before the index update leaves the index as it was, so the next attempt
    computes the same sequence number and works in the same folder; every
    file the failed attempt left is still there after it. *)
Theorem failed_attempt_folder_reused env1 gid1 msgs1 env2 gid2 msgs2 a e :
  fst (save_media_group_body env1 gid1 msgs1 a) = Raised e ->
  e <> MkdirError -> e <> MetadataWriteError ->
  let a1 := snd (save_media_group env1 gid1 msgs1 a) in
  let a2 := snd (save_media_group env2 gid2 msgs2 a1) in
  let dir := group_dir_of (next_group_count a) in
  metadata a1 = metadata a /\
  next_group_count a1 = next_group_count a /\
  dir ∈ dirs (disk a1) /\
  (forall p, is_Some (files (disk a1) !! p) -> is_Some (files (disk a2) !! p)) /\
  (fst (save_media_group env2 gid2 msgs2 a1) = Returned true ->
   exists gi,
     groups (metadata a2) =
       groups (metadata a) ++ [summary_of (group_folder (next_group_count a)) gi] /\
     files (disk a2) !! path_join dir "info.json" = Some (json_dumps (json_of_group_info gi))).
Proof.
  intros Hfail Hmk Hmeta. cbv zeta.
  destruct (save_media_group_failure_before_index_aux env1 gid1 msgs1 a e Hfail Hmeta)
    as (Hix & Hdir).
  assert (Hn : next_group_count (snd (save_media_group env1 gid1 msgs1 a)) = next_group_count a).
  { unfold next_group_count. by rewrite Hix. }
  split; [done|]. split; [done|]. split; [auto|]. split.
  - apply save_media_group_disk_grows.
  - intros Hok. apply save_media_group_success in Hok as (gi & _ & _ & Hg & _ & _ & Hi & _).
    exists gi. rewrite Hn, Hix in Hg. rewrite Hn in Hi. done.
Qed.

Lemma archive_all_cons c calls a :
  archive_all (c :: calls) a = archive_all calls (snd (archive_call c a)).
Proof. reflexivity. Qed.

Lemma archive_all_grows calls : forall a,
  groups (metadata a) `prefix_of` groups (metadata (archive_all calls a)) /\
  dirs (disk a) ⊆ dirs (disk (archive_all calls a)) /\
  (forall p, is_Some (files (disk a) !! p) -> is_Some (files (disk (archive_all calls a)) !! p)).
Proof.
  induction calls as [|c calls IH]; intros a.
  { repeat split; [reflexivity|set_solver|auto]. }
  rewrite archive_all_cons. destruct (IH (snd (archive_call c a))) as (Hp & Hd & Hf).
  unfold archive_call in *.
  pose proof (save_media_group_disk_grows (call_env c) (call_gid c) (call_messages c) a) as [Hd1 Hf1].
  split; [|split].
  - etrans; [|exact Hp].
    destruct (save_media_group_index_step (call_env c) (call_gid c) (call_messages c) a)
      as [->|(s & -> & _)]; [reflexivity|]. by apply prefix_app_r.
  - etrans; [exact Hd1|exact Hd].
  - auto.
Qed.

Lemma archive_all_success calls : forall a,
  Forall (fun r => r = Returned true) (archive_results calls a) ->
  forall N c, calls !! N = Some c ->
    let b := length (groups (metadata a)) in
    next_group_count (archive_all (take N calls) a) = S (b + N) /\
    exists s, groups (metadata (archive_all calls a)) !! (b + N)%nat = Some s /\
      gs_group_id s = call_gid c /\
      gs_folder s = group_folder (S (b + N)) /\
      group_dir_of (S (b + N)) ∈ dirs (disk (archive_all calls a)) /\
      is_Some (files (disk (archive_all calls a)) !! path_join (group_dir_of (S (b + N))) "info.json").
Proof.
  induction calls as [|c0 calls IH]; intros a Hall N c Hc; [done|].
  simpl in Hall. apply Forall_cons in Hall as [H0 Hall].
  pose proof H0 as Hok. unfold archive_call in Hok.
  apply save_media_group_success in Hok as (gi & Hid & _ & Hg & _ & Hdir & Hinfo & _).
  fold (archive_call c0 a) in Hg, Hdir, Hinfo.
  destruct N as [|N]; simpl in Hc.
  - inversion Hc; subst c0. cbv zeta. rewrite Nat.add_0_r. split; [done|].
    rewrite archive_all_cons.
    destruct (archive_all_grows calls (snd (archive_call c a))) as (Hp & Hd & Hf).
    exists (summary_of (group_folder (next_group_count a)) gi).
    split; [|split; [done|split; [done|split]]].
    + eapply prefix_lookup_Some; [|exact Hp]. rewrite Hg.
      by rewrite lookup_app_r, Nat.sub_diag.
    + apply Hd, Hdir.
    + apply Hf. unfold next_group_count in Hinfo. rewrite Hinfo. eauto.
  - specialize (IH _ Hall N c Hc). cbv zeta in IH. rewrite Hg, length_app in IH. simpl in IH.
    cbv zeta. simpl take. rewrite !archive_all_cons.
    replace (length (groups (metadata a)) + S N)%nat
      with (length (groups (metadata a)) + 1 + N)%nat by lia.
    exact IH.
Qed.

(** C6: from the empty index, with every call succeeding, the call at
    position [N] (counted from 0, so the [N+1]-th group) finds
    [len(groups) + 1 = N + 1] and its summary, at the same position of the
    index, names the folder [group_%04d] of [N + 1], which exists on disk
    with its descriptor. *)
Theorem sequence_numbering calls a N c :
  metadata a = empty_index ->
  Forall (fun r => r = Returned true) (archive_results calls a) ->
  calls !! N = Some c ->
  next_group_count (archive_all (take N calls) a) = S N /\
  exists s, groups (metadata (archive_all calls a)) !! N = Some s /\
    gs_group_id s = call_gid c /\
    gs_folder s = "group_" +:+ format_d 4 (S N) /\
    path_join media_groups_dir ("group_" +:+ format_d 4 (S N)) ∈ dirs (disk (archive_all calls a)) /\
    is_Some (files (disk (archive_all calls a)) !!
               path_join (path_join media_groups_dir ("group_" +:+ format_d 4 (S N))) "info.json").
Proof.
  intros Hempty Hall Hc.
  pose proof (archive_all_success calls a Hall N c Hc) as H.
  cbv zeta in H. rewrite Hempty in H. simpl in H. exact H.
Qed.

(** Every call returns: [True] when the body ran to its end, [False] when
    it raised. *)
Lemma save_media_group_returns env gid messages a :
  exists b, fst (save_media_group env gid messages a) = Returned b /\
    (b = false <-> exists e, fst (save_media_group_body env gid messages a) = Raised e).
Proof.
  rewrite save_media_group_fst.
  destruct (fst (save_media_group_body env gid messages a)) as [[]|e].
  - exists true. split; [done|]. split; [done|]. by intros [e He].
  - exists false. split; [done|]. split; eauto.
Qed.

(** ** Facts about [handle_media] *)

Lemma truthy_Some g : g <> EmptyString -> truthy (Some g) = true.
Proof. by destruct g. Qed.

Lemma handle_media_resume_idle env m gid w :
  default [] (media_group_buffer w !! gid) = [] ->
  handle_media_resume env m gid w = (Returned tt, with_buffer w (<[gid := []]> (media_group_buffer w))).
Proof.
  unfold handle_media_resume, buffer_get, with_buffer. intros H.
  destruct (media_group_buffer w !! gid) as [l|] eqn:E; simpl in H; subst; [|done].
  by rewrite insert_id.
Qed.

(** The flush of a non-empty entry, step by step. *)
Lemma handle_media_resume_flush env m gid w messages :
  media_group_buffer w !! gid = Some messages -> messages <> [] ->
  handle_media_resume env m gid w =
    match fst (save_media_group (archive_env env) gid messages (archiver w)) with
    | Raised e =>
        (Raised e, {| archiver := snd (save_media_group (archive_env env) gid messages (archiver w));
                      media_group_buffer := media_group_buffer w; outbox := outbox w |})
    | Returned false =>
        (Returned tt, {| archiver := snd (save_media_group (archive_env env) gid messages (archiver w));
                         media_group_buffer := delete gid (media_group_buffer w);
                         outbox := outbox w |})
    | Returned true =>
        if reply_ok env then
          (Returned tt, {| archiver := snd (save_media_group (archive_env env) gid messages (archiver w));
                           media_group_buffer := delete gid (media_group_buffer w);
                           outbox := outbox w ++ [{| reply_to := message_id m;
                                                     reply_text := AlbumSaved (length messages) |}] |})
        else
          (Raised ReplyError,
           {| archiver := snd (save_media_group (archive_env env) gid messages (archiver w));
              media_group_buffer := media_group_buffer w; outbox := outbox w |})
    end.
Proof.
  unfold handle_media_resume, buffer_get, buffer_del, send_reply. intros E Hne. rewrite E.
  destruct messages as [|m0 ms]; [done|].
  destruct (save_media_group _ _ _ _) as [[[]|e] a']; simpl; [|by rewrite E|done].
  destruct (reply_ok env); [by rewrite E|done].
Qed.

(** C4 (as amended): a flush that runs to its end sends one
    acknowledgement, with the number of buffered messages, when the archive
    call returned [True], and none when it returned [False]. *)
Theorem flush_acknowledged_on_success_only env m gid w messages :
  media_group_buffer w !! gid = Some messages -> messages <> [] ->
  fst (handle_media_resume env m gid w) = Returned tt ->
  outbox (snd (handle_media_resume env m gid w)) =
    outbox w ++
    match fst (save_media_group (archive_env env) gid messages (archiver w)) with
    | Returned true => [{| reply_to := message_id m; reply_text := AlbumSaved (length messages) |}]
    | _ => []
    end.
Proof.
  intros E Hne. rewrite (handle_media_resume_flush env m gid w messages E Hne).
  destruct (fst (save_media_group _ _ _ _)) as [[]|e]; simpl.
  - destruct (reply_ok env); simpl; [done|discriminate].
  - by rewrite app_nil_r.
  - discriminate.
Qed.

(** C5: a failure inside the archive routine comes back as the return
    value [False], never as an exception; the handler then skips the
    acknowledgement, removes the buffer entry and ends normally. *)
Theorem archive_failure_caught_and_unbuffered env m gid w messages e :
  media_group_buffer w !! gid = Some messages -> messages <> [] ->
  fst (save_media_group_body (archive_env env) gid messages (archiver w)) = Raised e ->
  fst (save_media_group (archive_env env) gid messages (archiver w)) = Returned false /\
  fst (handle_media_resume env m gid w) = Returned tt /\
  media_group_buffer (snd (handle_media_resume env m gid w)) !! gid = None /\
  outbox (snd (handle_media_resume env m gid w)) = outbox w.
Proof.
  intros E Hne Hfail.
  assert (Hf : fst (save_media_group (archive_env env) gid messages (archiver w)) = Returned false).
  { by rewrite save_media_group_fst, Hfail. }
  split; [done|].
  rewrite (handle_media_resume_flush env m gid w messages E Hne), Hf. simpl.
  by rewrite lookup_delete_eq.
Qed.

(** ** Round trip of the JSON codec *)

Lemma json_ind (P : json -> Prop) :
  P JNull -> (forall b, P (JBool b)) -> (forall z, P (JInt z)) -> (forall s, P (JString s)) ->
  (forall items, Forall P items -> P (JList items)) ->
  (forall members, Forall (fun kv => P (snd kv)) members -> P (JDict members)) ->
  forall v, P v.
Proof.
  intros Hnull Hbool Hint Hstr Hlist Hdict.
  fix IH 1. intros [|b|z|s|items|members].
  - exact Hnull.
  - apply Hbool.
  - apply Hint.
  - apply Hstr.
  - apply Hlist. induction items as [|x xs IHxs]; constructor; [apply IH|exact IHxs].
  - apply Hdict. induction members as [|[k x] kxs IHkxs]; constructor; [apply IH|exact IHkxs].
Qed.

Lemma app_cons c s t : String c s +:+ t = String c (s +:+ t).
Proof. reflexivity. Qed.

Lemma app_nil_l' t : EmptyString +:+ t = t.
Proof. reflexivity. Qed.

Lemma app_assoc' s t u : (s +:+ t) +:+ u = s +:+ (t +:+ u).
Proof. induction s as [|c s IH]; [done|]. rewrite !app_cons. by rewrite IH. Qed.

Lemma app_nil_r' s : s +:+ EmptyString = s.
Proof. induction s as [|c s IH]; [done|]. rewrite app_cons. by rewrite IH. Qed.

Lemma app_length s t : String.length (s +:+ t) = (String.length s + String.length t)%nat.
Proof. induction s as [|c s IH]; [done|]. rewrite app_cons. simpl. by rewrite IH. Qed.

(** *** White space *)

Lemma skip_ws_value s : starts_value s -> skip_ws s = s.
Proof. destruct s as [|c s]; [done|]. simpl. by intros ->. Qed.

Lemma skip_ws_spaces n s : skip_ws (spaces n +:+ s) = skip_ws s.
Proof. induction n as [|n IH]; [done|]. simpl spaces. rewrite app_cons. simpl. exact IH. Qed.

Lemma skip_ws_newline_indent n s : skip_ws (newline_indent n +:+ s) = skip_ws s.
Proof. unfold newline_indent. rewrite app_cons. simpl. apply skip_ws_spaces. Qed.

(** *** Strings *)

Lemma parse_chars_escape_char c t :
  parse_chars (escape_char c +:+ t) =
  match parse_chars t with
  | Some (u, r) => Some (String c u, r)
  | None => None
  end.
Proof. destruct c as [[] [] [] [] [] [] [] []]; reflexivity. Qed.

Lemma parse_chars_escape s rest :
  parse_chars (escape s +:+ String dquote rest) = Some (s, rest).
Proof.
  induction s as [|c s IH]; [reflexivity|].
  simpl escape. rewrite app_assoc', parse_chars_escape_char. by rewrite IH.
Qed.

Lemma encode_string_app s rest :
  encode_string s +:+ rest = String dquote (escape s +:+ String dquote rest).
Proof. unfold encode_string. rewrite app_cons. f_equal. by rewrite app_assoc'. Qed.

(** *** Integers *)

Lemma ends_number_not_float rest :
  ends_number rest = true -> starts_fraction_or_exponent rest = false.
Proof.
  destruct rest as [|c r]; [done|]. unfold ends_number.
  intros [_ H]%andb_true_iff. by apply negb_true_iff in H.
Qed.

Lemma string_of_uint_digits d : all_digits (NilEmpty.string_of_uint d) = true.
Proof. induction d; simpl; auto. Qed.

Lemma span_digits_app ds rest :
  all_digits ds = true -> ends_number rest = true -> span_digits (ds +:+ rest) = (ds, rest).
Proof.
  induction ds as [|c ds IH]; intros Hd Hr.
  - rewrite app_nil_l'. destruct rest as [|c r]; [done|]. simpl.
    unfold ends_number in Hr. apply andb_true_iff in Hr as [Hr _].
    apply negb_true_iff in Hr. by rewrite Hr.
  - simpl in Hd. apply andb_true_iff in Hd as [Hc Hd]. rewrite app_cons. simpl.
    by rewrite Hc, IH.
Qed.

Lemma nzhead_not_D0 d d' : Decimal.nzhead d <> Decimal.D0 d'.
Proof. induction d; simpl; try discriminate; auto. Qed.

Lemma pos_to_uint_head p :
  match Pos.to_uint p with
  | Decimal.Nil | Decimal.D0 _ => False
  | _ => True
  end.
Proof.
  pose proof (DecimalPos.Unsigned.to_of (Pos.to_uint p)) as H.
  rewrite DecimalPos.Unsigned.of_to in H. simpl in H.
  pose proof (DecimalPos.Unsigned.to_uint_nonzero p) as Hnz.
  pose proof (nzhead_not_D0 (Pos.to_uint p)) as Hhead.
  unfold Decimal.unorm in H. destruct (Decimal.nzhead (Pos.to_uint p)) eqn:E;
    rewrite H in *; try done; try (by eapply Hhead).
Qed.

Lemma parse_int_part_pos p rest :
  ends_number rest = true ->
  let digits := NilEmpty.string_of_uint (Pos.to_uint p) in
  parse_int_part (digits +:+ rest) = Some (digits, rest) /\
  NilZero.uint_of_string digits = Some (Pos.to_uint p) /\
  NilZero.string_of_uint (Pos.to_uint p) = digits /\
  exists c s, digits = String c s /\ is_digit c = true.
Proof.
  intros Hr. cbv zeta.
  pose proof (pos_to_uint_head p) as Hhead.
  destruct (Pos.to_uint p) as [|d|d|d|d|d|d|d|d|d|d] eqn:E; try done;
    (split; [|split; [|split; [done|by eexists _, _]]]).
  all: try (simpl NilEmpty.string_of_uint; rewrite app_cons; unfold parse_int_part;
            cbn [Ascii.eqb Bool.eqb];
            rewrite (span_digits_app _ _ (string_of_uint_digits d) Hr);
            change (is_digit _) with true; reflexivity).
  all: match goal with
       | |- NilZero.uint_of_string (NilEmpty.string_of_uint ?u) = _ =>
           exact (NilZero.usu u ltac:(discriminate))
       end.
Qed.

Lemma digit_not_minus c : is_digit c = true -> Ascii.eqb c "-" = false.
Proof. destruct c as [[] [] [] [] [] [] [] []]; try reflexivity; discriminate. Qed.

Lemma parse_number_str_int z rest :
  ends_number rest = true ->
  parse_number (str_int z +:+ rest) = Some (z, rest) /\
  exists c s, str_int z = String c s /\ number_head c = true.
Proof.
  intros Hr. pose proof (ends_number_not_float rest Hr) as Hfloat.
  unfold str_int. destruct z as [|p|p]; simpl Z.to_int; unfold NilZero.string_of_int.
  - split; [|by eexists _, _].
    change (NilZero.string_of_uint Decimal.zero +:+ rest) with (String "0" rest).
    unfold parse_number, parse_int_part. cbn [Ascii.eqb Bool.eqb]. by rewrite Hfloat.
  - destruct (parse_int_part_pos p rest Hr) as (Hp & Hu & -> & c & s & Hs & Hc).
    split.
    + unfold parse_number. rewrite Hs, app_cons, (digit_not_minus c Hc), <- app_cons, <- Hs.
      rewrite Hp, Hfloat, Hu. unfold N.of_uint. by rewrite DecimalPos.Unsigned.of_to.
    + exists c, s. split; [done|]. unfold number_head. by rewrite Hc.
  - destruct (parse_int_part_pos p rest Hr) as (Hp & Hu & -> & c & s & Hs & Hc).
    split; [|by eexists _, _].
    rewrite app_cons. unfold parse_number. cbn [Ascii.eqb Bool.eqb].
    rewrite Hp, Hfloat, Hu. unfold N.of_uint. by rewrite DecimalPos.Unsigned.of_to.
Qed.

(** *** Values *)

Lemma value_head_facts c :
  value_head c = true ->
  is_ws c = false /\ Ascii.eqb c "]" = false /\ Ascii.eqb c "}" = false.
Proof. destruct c as [[] [] [] [] [] [] [] []]; try discriminate; done. Qed.

Lemma parse_value_unfold_string fuel s' :
  parse_value (S fuel) (String dquote s') =
  match parse_chars s' with
  | Some (t, r) => Some (JString t, r)
  | None => None
  end.
Proof. reflexivity. Qed.

Lemma parse_value_unfold_list fuel c s :
  Ascii.eqb c "]" = false -> is_ws c = false ->
  parse_value (S fuel) (String "[" (String c s)) =
  match parse_items fuel (String c s) with
  | Some (items, r) => Some (JList items, r)
  | None => None
  end.
Proof.
  intros H1 H2. change (parse_value (S fuel) (String "[" (String c s))) with
    (match skip_ws (String c s) with
     | EmptyString => None
     | String c1 r1 =>
         if Ascii.eqb c1 "]" then Some (JList [], r1)
         else match parse_items fuel (skip_ws (String c s)) with
              | Some (items, r) => Some (JList items, r)
              | None => None
              end
     end).
  simpl skip_ws. rewrite H2. by rewrite H1.
Qed.

Lemma parse_value_unfold_dict fuel c s :
  Ascii.eqb c "}" = false -> is_ws c = false ->
  parse_value (S fuel) (String "{" (String c s)) =
  match parse_members fuel (String c s) with
  | Some (members, r) => Some (JDict members, r)
  | None => None
  end.
Proof.
  intros H1 H2. change (parse_value (S fuel) (String "{" (String c s))) with
    (match skip_ws (String c s) with
     | EmptyString => None
     | String c1 r1 =>
         if Ascii.eqb c1 "}" then Some (JDict [], r1)
         else match parse_members fuel (skip_ws (String c s)) with
              | Some (members, r) => Some (JDict members, r)
              | None => None
              end
     end).
  simpl skip_ws. rewrite H2. by rewrite H1.
Qed.

Lemma parse_value_unfold_list_ws fuel n s :
  parse_value (S fuel) (String "[" s) =
  parse_value (S fuel) (String "[" (String (ascii_of_nat 10) (spaces n +:+ s))).
Proof.
  change (parse_value (S fuel) (String "[" ?t)) with
    (match skip_ws t with
     | EmptyString => None
     | String c1 r1 =>
         if Ascii.eqb c1 "]" then Some (JList [], r1)
         else match parse_items fuel (skip_ws t) with
              | Some (items, r) => Some (JList items, r)
              | None => None
              end
     end).
  change (skip_ws (String (ascii_of_nat 10) ?t)) with (skip_ws t).
  by rewrite skip_ws_spaces.
Qed.

Lemma parse_value_unfold_dict_ws fuel n s :
  parse_value (S fuel) (String "{" s) =
  parse_value (S fuel) (String "{" (String (ascii_of_nat 10) (spaces n +:+ s))).
Proof.
  change (parse_value (S fuel) (String "{" ?t)) with
    (match skip_ws t with
     | EmptyString => None
     | String c1 r1 =>
         if Ascii.eqb c1 "}" then Some (JDict [], r1)
         else match parse_members fuel (skip_ws t) with
              | Some (members, r) => Some (JDict members, r)
              | None => None
              end
     end).
  change (skip_ws (String (ascii_of_nat 10) ?t)) with (skip_ws t).
  by rewrite skip_ws_spaces.
Qed.

Lemma parse_value_unfold_number fuel c s :
  number_head c = true ->
  parse_value (S fuel) (String c s) =
  match parse_number (String c s) with
  | Some (z, r) => Some (JInt z, r)
  | None => None
  end.
Proof. destruct c as [[] [] [] [] [] [] [] []]; intros H; try discriminate H; reflexivity. Qed.

Lemma parse_items_unfold fuel s :
  parse_items (S fuel) s =
  match parse_value fuel s with
  | None => None
  | Some (v, r) =>
      match skip_ws r with
      | EmptyString => None
      | String c r1 =>
          if Ascii.eqb c "]" then Some ([v], r1)
          else if Ascii.eqb c "," then
            match parse_items fuel (skip_ws r1) with
            | Some (vs, r2) => Some (v :: vs, r2)
            | None => None
            end
          else None
      end
  end.
Proof. reflexivity. Qed.

Lemma parse_members_unfold fuel s' :
  parse_members (S fuel) (String dquote s') =
  match parse_chars s' with
  | None => None
  | Some (k, r) =>
      match skip_ws r with
      | EmptyString => None
      | String c r1 =>
          if Ascii.eqb c ":" then
            match parse_value fuel (skip_ws r1) with
            | None => None
            | Some (v, r2) =>
                match skip_ws r2 with
                | EmptyString => None
                | String c2 r3 =>
                    if Ascii.eqb c2 "}" then Some ([(k, v)], r3)
                    else if Ascii.eqb c2 "," then
                      match parse_members fuel (skip_ws r3) with
                      | Some (kvs, r4) => Some ((k, v) :: kvs, r4)
                      | None => None
                      end
                    else None
                end
            end
          else None
      end
  end.
Proof. reflexivity. Qed.

Lemma encode_head level v : exists c s, encode level v = String c s /\ value_head c = true.
Proof.
  destruct v as [|[]|z|s|[|x xs]|[|[k x] kxs]]; try (by eexists _, _).
  destruct (parse_number_str_int z EmptyString eq_refl) as (_ & c & s & Hs & Hc).
  exists c, s. split; [done|]. unfold value_head. rewrite Hc. by rewrite !orb_true_r.
Qed.

Lemma ends_number_newline level s : ends_number (newline_indent level +:+ s) = true.
Proof. reflexivity. Qed.

Lemma join_head (f : json -> string) sep x xs :
  (forall v, exists c s, f v = String c s /\ value_head c = true) ->
  exists c s, join sep (map f (x :: xs)) = String c s /\ value_head c = true.
Proof.
  intros Hf. destruct (Hf x) as (c & s & Hs & Hc). simpl. destruct (map f xs).
  - by exists c, s.
  - exists c, (s +:+ sep +:+ join sep (s0 :: l)). split; [|done]. by rewrite Hs, app_cons.
Qed.

Lemma parse_items_encode level closing rest items : forall fuel,
  Forall parses items -> items <> [] ->
  (fold_right (fun x acc => S (fuel_needed x + acc)) 0%nat items <= fuel)%nat ->
  parse_items fuel
    (join ("," +:+ newline_indent level) (map (encode level) items) +:+
     newline_indent closing +:+ "]" +:+ rest) = Some (items, rest).
Proof.
  induction items as [|x xs IH]; intros fuel Hall Hne Hfuel; [done|].
  apply Forall_cons in Hall as [Hx Hxs]. simpl in Hfuel.
  destruct fuel as [|fuel]; [lia|]. rewrite parse_items_unfold.
  destruct xs as [|y ys].
  - simpl join. rewrite Hx; [|lia|apply ends_number_newline].
    rewrite skip_ws_newline_indent. reflexivity.
  - set (sep := "," +:+ newline_indent level) in *.
    change (join sep (map ?f (x :: y :: ys)))
      with (f x +:+ ("," +:+ newline_indent level) +:+ join sep (map f (y :: ys))).
    rewrite !app_assoc'. rewrite Hx; [|lia|reflexivity].
    rewrite app_cons, app_nil_l'. rewrite (skip_ws_value (String "," _)) by reflexivity.
    cbn [Ascii.eqb Bool.eqb]. rewrite skip_ws_newline_indent.
    destruct (join_head (encode level) sep y ys (encode_head level)) as (c & s & Hs & Hc).
    rewrite skip_ws_value.
    2:{ rewrite Hs, app_cons. simpl. by apply value_head_facts. }
    rewrite IH; [done|done|done|lia].
Qed.

Lemma member_head (f : string * json -> string) sep kx kxs :
  (forall kv, exists s, f kv = String dquote s) ->
  exists s, join sep (map f (kx :: kxs)) = String dquote s.
Proof.
  intros Hf. destruct (Hf kx) as (s & Hs). simpl. destruct (map f kxs).
  - by exists s.
  - exists (s +:+ sep +:+ join sep (s0 :: l)). by rewrite Hs, app_cons.
Qed.

Lemma parse_members_encode level closing rest members : forall fuel,
  Forall (fun kx => parses (snd kx)) members -> members <> [] ->
  (fold_right (fun kx acc => S (fuel_needed (snd kx) + acc)) 0%nat members <= fuel)%nat ->
  parse_members fuel
    (join ("," +:+ newline_indent level)
       (map (fun '(k, x) => encode_string k +:+ ": " +:+ encode level x) members) +:+
     newline_indent closing +:+ "}" +:+ rest) = Some (members, rest).
Proof.
  set (text := fun '(k, x) => encode_string k +:+ ": " +:+ encode level x).
  assert (Htext : forall kv, exists s, text kv = String dquote s).
  { intros [k x]. unfold text, encode_string. rewrite app_cons. by eexists. }
  induction members as [|[k x] kxs IH]; intros fuel Hall Hne Hfuel; [done|].
  apply Forall_cons in Hall as [Hx Hxs]. simpl in Hx, Hfuel.
  destruct fuel as [|fuel]; [lia|].
  destruct (encode_head level x) as (cx & sx & Hsx & Hcx).
  set (sep := "," +:+ newline_indent level) in *.
  destruct kxs as [|ky kys].
  - change (join sep (map text [(k, x)])) with (encode_string k +:+ ": " +:+ encode level x).
    rewrite !app_assoc', encode_string_app.
    rewrite parse_members_unfold, parse_chars_escape.
    rewrite app_cons. rewrite (skip_ws_value (String ":" _)) by reflexivity.
    cbn [Ascii.eqb Bool.eqb]. rewrite app_cons, app_nil_l'.
    change (skip_ws (String " " ?t)) with (skip_ws t).
    rewrite skip_ws_value; [|rewrite Hsx, app_cons; simpl; by apply value_head_facts].
    rewrite Hx; [|lia|apply ends_number_newline].
    rewrite skip_ws_newline_indent. reflexivity.
  - change (join sep (map text ((k, x) :: ky :: kys)))
      with ((encode_string k +:+ ": " +:+ encode level x) +:+
            ("," +:+ newline_indent level) +:+ join sep (map text (ky :: kys))).
    rewrite !app_assoc', encode_string_app.
    rewrite parse_members_unfold, parse_chars_escape.
    rewrite app_cons. rewrite (skip_ws_value (String ":" _)) by reflexivity.
    cbn [Ascii.eqb Bool.eqb]. rewrite app_cons, app_nil_l'.
    change (skip_ws (String " " ?t)) with (skip_ws t).
    rewrite skip_ws_value; [|rewrite Hsx, app_cons; simpl; by apply value_head_facts].
    rewrite Hx; [|lia|reflexivity].
    rewrite app_cons, app_nil_l'. rewrite (skip_ws_value (String "," _)) by reflexivity.
    cbn [Ascii.eqb Bool.eqb]. rewrite skip_ws_newline_indent.
    destruct (member_head text sep ky kys Htext) as (s & Hs).
    rewrite skip_ws_value; [|by rewrite Hs, app_cons].
    rewrite IH; [done|done|done|lia].
Qed.

Lemma parse_value_encode v : parses v.
Proof.
  induction v as [|b|z|s|items IH|members IH] using json_ind;
    intros level fuel rest Hfuel Hrest; simpl in Hfuel;
    (destruct fuel as [|fuel]; [lia|]).
  - reflexivity.
  - by destruct b.
  - destruct (parse_number_str_int z rest Hrest) as (Hp & c & s & Hs & Hc).
    simpl encode. rewrite Hs, app_cons, (parse_value_unfold_number _ _ _ Hc).
    by rewrite <- app_cons, <- Hs, Hp.
  - simpl encode. by rewrite encode_string_app, parse_value_unfold_string, parse_chars_escape.
  - destruct items as [|x xs]; [reflexivity|].
    cbn [encode]. rewrite !app_assoc'. rewrite app_cons, app_nil_l'.
    pose proof (parse_items_encode (S level) level rest (x :: xs) fuel IH) as Hitems.
    destruct (join_head (encode (S level)) ("," +:+ newline_indent (S level)) x xs
                (encode_head (S level))) as (c & s & Hs & Hc).
    destruct (value_head_facts c Hc) as (Hws & Hclose & _).
    unfold newline_indent at 1. rewrite app_cons.
    rewrite <- (parse_value_unfold_list_ws fuel (2 * S level)).
    rewrite Hs, app_cons in *.
    rewrite (parse_value_unfold_list _ _ _ Hclose Hws), Hitems; [done|done|lia].
  - destruct members as [|[k x] kxs]; [reflexivity|].
    cbn [encode]. rewrite !app_assoc'. rewrite app_cons, app_nil_l'.
    pose proof (parse_members_encode (S level) level rest ((k, x) :: kxs) fuel IH) as Hmembers.
    destruct (member_head (fun '(k, x) => encode_string k +:+ ": " +:+ encode (S level) x)
                ("," +:+ newline_indent (S level)) (k, x) kxs) as (s & Hs).
    { intros [k' x']. unfold encode_string. rewrite app_cons. by eexists. }
    unfold newline_indent at 1. rewrite app_cons.
    rewrite <- (parse_value_unfold_dict_ws fuel (2 * S level)).
    rewrite Hs, app_cons in *.
    rewrite (parse_value_unfold_dict _ dquote _ eq_refl eq_refl), Hmembers; [done|done|lia].
Qed.

(** *** The fuel [json_loads] provides is enough *)

Lemma join_length_bound {A} (f : A -> string) (need : A -> nat) sep l :
  (1 <= String.length sep)%nat ->
  Forall (fun x => need x <= String.length (f x))%nat l ->
  (fold_right (fun x acc => S (need x + acc)) 0 l <= S (String.length (join sep (map f l))))%nat.
Proof.
  intros Hsep. induction l as [|x [|y ys] IH]; intros Hall; simpl; [lia| |].
  - apply Forall_cons in Hall as [Hx _]. lia.
  - apply Forall_cons in Hall as [Hx Hys]. specialize (IH Hys). simpl in IH.
    rewrite !app_length. lia.
Qed.

Lemma newline_indent_length level : String.length (newline_indent level) = S (2 * level).
Proof.
  unfold newline_indent. simpl. f_equal. generalize (level + (level + 0))%nat.
  intros n. induction n; simpl; auto.
Qed.

Lemma fuel_needed_le_length v : forall level, (fuel_needed v <= String.length (encode level v))%nat.
Proof.
  induction v as [|b|z|s|items IH|members IH] using json_ind; intros level.
  - simpl. lia.
  - destruct b; simpl; lia.
  - destruct (parse_number_str_int z EmptyString eq_refl) as (_ & c & s & Hs & _).
    simpl. rewrite Hs. simpl. lia.
  - simpl. lia.
  - destruct items as [|x xs]; [simpl; lia|].
    change (encode level (JList (x :: xs))) with
      ("[" +:+ newline_indent (S level) +:+
       join ("," +:+ newline_indent (S level)) (map (encode (S level)) (x :: xs)) +:+
       newline_indent level +:+ "]").
    cbn [fuel_needed]. rewrite !app_length, !newline_indent_length.
    pose proof (join_length_bound (encode (S level)) fuel_needed
                  ("," +:+ newline_indent (S level)) (x :: xs)) as H.
    rewrite app_length, newline_indent_length in H.
    specialize (H ltac:(simpl; lia)).
    assert (Hall : Forall (fun x => fuel_needed x <= String.length (encode (S level) x))%nat (x :: xs)).
    { eapply Forall_impl; [exact IH|]. intros v Hv. apply Hv. }
    specialize (H Hall). cbn [String.length]. lia.
  - destruct members as [|[k x] kxs]; [simpl; lia|].
    change (encode level (JDict ((k, x) :: kxs))) with
      ("{" +:+ newline_indent (S level) +:+
       join ("," +:+ newline_indent (S level))
         (map (fun '(k, x) => encode_string k +:+ ": " +:+ encode (S level) x) ((k, x) :: kxs)) +:+
       newline_indent level +:+ "}").
    cbn [fuel_needed]. rewrite !app_length, !newline_indent_length.
    pose proof (join_length_bound
                  (fun '(k, x) => encode_string k +:+ ": " +:+ encode (S level) x)
                  (fun kx => fuel_needed (snd kx))
                  ("," +:+ newline_indent (S level)) ((k, x) :: kxs)) as H.
    rewrite app_length, newline_indent_length in H.
    specialize (H ltac:(simpl; lia)).
    assert (Hall : Forall (fun kx : string * json => fuel_needed (snd kx) <=
                     String.length (let '(k, x) := kx in
                                    encode_string k +:+ ": " +:+ encode (S level) x))%nat
                     ((k, x) :: kxs)).
    { eapply Forall_impl; [exact IH|]. intros [k' x'] Hv. simpl in *.
      rewrite !app_length. specialize (Hv (S level)). lia. }
    specialize (H Hall). cbn [String.length]. lia.
Qed.

(** [json.loads(json.dumps(v, ensure_ascii=False, indent=2)) == v] *)
Lemma json_loads_dumps v : json_loads (json_dumps v) = Some v.
Proof.
  unfold json_loads, json_dumps.
  destruct (encode_head 0 v) as (c & s & Hs & Hc).
  rewrite skip_ws_value; [|rewrite Hs; simpl; by apply value_head_facts].
  rewrite <- (app_nil_r' (encode 0 v)) at 2.
  rewrite parse_value_encode; [done| |done].
  pose proof (fuel_needed_le_length v 0). lia.
Qed.

Lemma summary_of_json_of_summary g : summary_of_json (json_of_summary g) = Some g.
Proof. by destruct g. Qed.

Lemma index_of_json_of_index ix : index_of_json (json_of_index ix) = Some ix.
Proof.
  destruct ix as [gs n]. unfold index_of_json, json_of_index. simpl groups. simpl total_files.
  change (dict_get "groups" _) with (Some (JList (map json_of_summary gs))).
  change (get_int "total_files" _) with (Some n).
  cbv beta iota.
  assert (H : mapM summary_of_json (map json_of_summary gs) = Some gs).
  { induction gs as [|g gs IH]; [done|].
    change (mapM summary_of_json (map json_of_summary (g :: gs))) with
      (y ← summary_of_json (json_of_summary g);
       k ← mapM summary_of_json (map json_of_summary gs); mret (y :: k)).
    by rewrite summary_of_json_of_summary, IH. }
  by rewrite H.
Qed.

(** ** The metadata store *)

(** C7: saving an index and loading it back gives the same index, for
    every index and whatever the disk held before; and on a disk without a
    metadata file, loading gives the empty index
    [{'groups': [], 'total_files': 0}]. *)
Theorem metadata_store_round_trip :
  (forall ix d,
     let saved := _save_metadata WriteOk {| metadata := ix; disk := d |} in
     fst saved = true /\
     _load_metadata (disk (snd saved)) = Returned (json_of_index ix) /\
     load_index (disk (snd saved)) = Some ix) /\
  (forall d,
     files d !! metadata_file = None ->
     _load_metadata d = Returned (json_of_index empty_index) /\
     load_index d = Some empty_index).
Proof.
  split.
  - intros ix d. cbv zeta. unfold load_index, _load_metadata, _save_metadata. simpl.
    rewrite lookup_insert_eq, json_loads_dumps. split; [done|]. split; [done|].
    apply index_of_json_of_index.
  - intros d Hnone. unfold load_index, _load_metadata. rewrite Hnone. split; [done|].
    apply index_of_json_of_index.
Qed.

(** The round trip on an index of one group, and the load of a fresh disk. *)
Lemma metadata_store_round_trip_witness :
  load_index (disk (snd (_save_metadata WriteOk {| metadata := one_group_index; disk := fresh_disk |})))
    = Some one_group_index /\
  files fresh_disk !! metadata_file = None /\
  load_index fresh_disk = Some empty_index.
Proof.
  split; [|split].
  - apply (proj1 metadata_store_round_trip one_group_index fresh_disk).
  - reflexivity.
  - apply (proj2 metadata_store_round_trip fresh_disk). reflexivity.
Defined.

Lemma substring_all s : substring 0 (String.length s) s = s.
Proof. induction s as [|c s IH]; [done|]. simpl. by rewrite IH. Qed.

Lemma last_map_seq {A} (f : nat -> A) n : last (map f (seq 0 (S n))) = Some (f n).
Proof.
  rewrite seq_S, map_app. simpl. by rewrite last_snoc.
Qed.

(** C8 (as amended): [_save_metadata] rewrites the metadata file in place.
    A reader outside the process first finds the file emptied by
    [open(..., 'w')]; whatever it finds later is a prefix of the text, and
    the whole text once the save is over, which loads back as the index in
    memory.  No other file and no directory is touched on the way.  There is
    no write-then-replace step. *)
Theorem save_metadata_in_place a :
  let text := json_dumps (json_of_index (metadata a)) in
  let states := _save_metadata_states a in
  (exists emptied, head states = Some emptied /\
     files emptied !! metadata_file = Some EmptyString) /\
  last states = Some (disk (snd (_save_metadata WriteOk a))) /\
  files (disk (snd (_save_metadata WriteOk a))) !! metadata_file = Some text /\
  load_index (disk (snd (_save_metadata WriteOk a))) = Some (metadata a) /\
  forall d, d ∈ states ->
    (exists n, (n <= String.length text)%nat /\
               files d !! metadata_file = Some (substring 0 n text)) /\
    dirs d = dirs (disk a) /\
    forall p, p <> metadata_file -> files d !! p = files (disk a) !! p.
Proof.
  cbv zeta. unfold _save_metadata_states, write_text_states.
  split; [|split; [|split; [|split]]].
  - eexists. split; [reflexivity|]. simpl. by rewrite lookup_insert_eq.
  - rewrite last_map_seq, substring_all. reflexivity.
  - simpl. by rewrite lookup_insert_eq.
  - unfold load_index, _load_metadata. simpl.
    rewrite lookup_insert_eq, json_loads_dumps. apply index_of_json_of_index.
  - intros d Hd. apply list_elem_of_fmap in Hd as (n & -> & Hn).
    apply list_elem_of_In, in_seq in Hn. cbn [files dirs]. split; [|split; [done|]].
    + exists n. split; [lia|]. by rewrite lookup_insert_eq.
    + intros p Hp. by rewrite lookup_insert_ne.
Qed.

(** C8 fails as stated: while an index of one group is being saved over
    the file of the empty index, the first thing a reader outside the
    process can find is an empty file, which is neither the old index nor
    the new one and does not load. *)
Lemma save_metadata_exposes_empty_file :
  let before := archiver_with_saved_index in
  let during := {| metadata := one_group_index; disk := disk before |} in
  load_index (disk before) = Some empty_index /\
  exists d, head (_save_metadata_states during) = Some d /\
            files d !! metadata_file = Some EmptyString /\
            _load_metadata d = Raised JSONDecodeError.
Proof.
  split; [by vm_compute|]. eexists. split; [reflexivity|]. split; by vm_compute.
Qed.

(** ** Runs on concrete inputs *)

(** C1 fails as stated: the second of three downloads raises, the call
    returns [False], and the folder [group_0001] created at its start is on
    disk with the first attachment in it. *)
Lemma failed_group_leaves_folder_and_files :
  let r := save_media_group second_download_fails "album1" [msg_a; msg_b; msg_c] fresh_archiver in
  fst r = Returned false /\
  ("media_groups/group_0001" ∉ dirs (disk fresh_archiver)) /\
  "media_groups/group_0001" ∈ dirs (disk (snd r)) /\
  files (disk fresh_archiver) !! "media_groups/group_0001/photo_01.jpg" = None /\
  files (disk (snd r)) !! "media_groups/group_0001/photo_01.jpg" = Some "jpeg-1".
Proof.
  cbv zeta. split; [by vm_compute|]. split; [|split; [|split; [by vm_compute|by vm_compute]]].
  - apply (bool_decide_unpack _). by vm_compute.
  - apply (bool_decide_unpack _). by vm_compute.
Qed.

(** C3 at a failing input: one photo is downloaded, the descriptor is
    written, then the metadata file cannot be opened.  The call returns
    [False], yet the summary has been appended to the index in memory and the
    counter raised; nothing reached the metadata file. *)
Theorem failed_save_still_appends_summary :
  let r := save_media_group index_write_fails "album1" [msg_a] fresh_archiver in
  fst r = Returned false /\
  groups (metadata (snd r)) =
    [{| gs_group_id := "album1"; gs_folder := "group_0001"; gs_date := "2024-05-01T10:00:00";
        gs_files_count := 1; gs_caption := "A" |}] /\
  total_files (metadata (snd r)) = 1 /\
  files (disk (snd r)) !! metadata_file = None.
Proof. cbv zeta. repeat split; by vm_compute. Qed.

(** C10 fails as stated: an attempt that fails after creating its folder,
    at the write of the metadata file, has already appended its summary; the
    next attempt computes the next sequence number and works in
    [group_0002], not in the folder of the failed attempt. *)
Lemma failed_index_write_advances_numbering :
  let failed := save_media_group index_write_fails "album1" [msg_a] fresh_archiver in
  let next := save_media_group all_fine "album2" [album_message 201 "album2" None] (snd failed) in
  fst failed = Returned false /\
  "media_groups/group_0001" ∈ dirs (disk (snd failed)) /\
  next_group_count fresh_archiver = 1%nat /\
  next_group_count (snd failed) = 2%nat /\
  fst next = Returned true /\
  map gs_folder (groups (metadata (snd next))) = ["group_0001"; "group_0002"] /\
  descriptor_message_count (disk (snd next)) "group_0002" = Some 1.
Proof.
  cbv zeta. split; [by vm_compute|]. split; [apply (bool_decide_unpack _); by vm_compute|].
  repeat split; by vm_compute.
Qed.

(** A failed third retrieval leaves two attachments in [group_0001]; the
    next group, of one photo, is archived into the same folder, where the
    second attachment of the failed attempt is still present. *)
Lemma failed_attempt_folder_reused_witness :
  let failed := save_media_group third_get_file_fails "album1" [msg_a; msg_b; msg_c] fresh_archiver in
  let next := save_media_group all_fine "album2" [album_message 201 "album2" None] (snd failed) in
  fst (save_media_group_body third_get_file_fails "album1" [msg_a; msg_b; msg_c] fresh_archiver)
    = Raised (GetFileError 3) /\
  next_group_count (snd failed) = next_group_count fresh_archiver /\
  is_Some (files (disk (snd next)) !! "media_groups/group_0001/photo_02.jpg") /\
  fst next = Returned true /\
  map gs_folder (groups (metadata (snd next))) = ["group_0001"].
Proof.
  cbv zeta.
  assert (H1 : fst (save_media_group_body third_get_file_fails "album1" [msg_a; msg_b; msg_c]
                      fresh_archiver) = Raised (GetFileError 3)) by (vm_compute; reflexivity).
  pose proof (failed_attempt_folder_reused third_get_file_fails "album1" [msg_a; msg_b; msg_c]
                all_fine "album2" [album_message 201 "album2" None] fresh_archiver
                (GetFileError 3) H1 ltac:(discriminate) ltac:(discriminate))
    as (_ & Hn & _ & Hfiles & _).
  split; [exact H1|]. split; [exact Hn|]. split.
  - apply Hfiles. vm_compute. eauto.
  - split; by vm_compute.
Defined.

(** The third call of [three_albums] gets number 3 and folder [group_0003]. *)
Lemma sequence_numbering_witness :
  metadata fresh_archiver = empty_index /\
  archive_results three_albums fresh_archiver = [Returned true; Returned true; Returned true] /\
  next_group_count (archive_all (take 2 three_albums) fresh_archiver) = 3%nat /\
  exists s, groups (metadata (archive_all three_albums fresh_archiver)) !! 2%nat = Some s /\
            gs_folder s = "group_0003".
Proof.
  assert (Hres : archive_results three_albums fresh_archiver
                 = [Returned true; Returned true; Returned true]) by (vm_compute; reflexivity).
  assert (Hall : Forall (fun r => r = Returned true) (archive_results three_albums fresh_archiver)).
  { rewrite Hres. repeat constructor. }
  destruct (sequence_numbering three_albums fresh_archiver 2
              {| call_env := all_fine; call_gid := "single_301";
                 call_messages := [single_message 301] |}
              eq_refl Hall eq_refl) as (Hn & s & Hs & _ & Hf & _).
  split; [reflexivity|]. split; [exact Hres|]. split; [exact Hn|].
  exists s. split; [exact Hs|exact Hf].
Defined.

(** C4 fails as stated: the flush of the buffered album runs to its end
    with the archive call failing on the second download; the entry is
    removed and no acknowledgement is sent. *)
Lemma failed_flush_sends_no_acknowledgement :
  let r := handle_media_resume (handler_env second_download_fails) msg_a "album1"
             world_with_album1_buffered in
  fst r = Returned tt /\
  media_group_buffer (snd r) !! "album1" = None /\
  outbox (snd r) = [].
Proof. cbv zeta. repeat split; by vm_compute. Qed.

(** The same flush with every download succeeding: one acknowledgement,
    for three photos. *)
Lemma flush_acknowledged_on_success_only_witness :
  media_group_buffer world_with_album1_buffered !! "album1" = Some [msg_a; msg_b; msg_c] /\
  fst (handle_media_resume (handler_env all_fine) msg_a "album1" world_with_album1_buffered)
    = Returned tt /\
  outbox (snd (handle_media_resume (handler_env all_fine) msg_a "album1" world_with_album1_buffered))
    = [{| reply_to := 101; reply_text := AlbumSaved 3 |}].
Proof.
  assert (Hb : media_group_buffer world_with_album1_buffered !! "album1" = Some [msg_a; msg_b; msg_c])
    by reflexivity.
  assert (Hr : fst (handle_media_resume (handler_env all_fine) msg_a "album1"
                      world_with_album1_buffered) = Returned tt) by (vm_compute; reflexivity).
  pose proof (flush_acknowledged_on_success_only (handler_env all_fine) msg_a "album1"
                world_with_album1_buffered [msg_a; msg_b; msg_c] Hb ltac:(discriminate) Hr) as H.
  split; [exact Hb|]. split; [exact Hr|].
  rewrite H. vm_compute. reflexivity.
Defined.

(** The failed flush of [album1]: [False] comes back and the entry is gone. *)
Lemma archive_failure_caught_and_unbuffered_witness :
  media_group_buffer world_with_album1_buffered !! "album1" = Some [msg_a; msg_b; msg_c] /\
  fst (save_media_group_body second_download_fails "album1" [msg_a; msg_b; msg_c] fresh_archiver)
    = Raised (DownloadError 2) /\
  fst (save_media_group second_download_fails "album1" [msg_a; msg_b; msg_c] fresh_archiver)
    = Returned false /\
  media_group_buffer
    (snd (handle_media_resume (handler_env second_download_fails) msg_a "album1"
            world_with_album1_buffered)) !! "album1" = None.
Proof.
  assert (Hb : media_group_buffer world_with_album1_buffered !! "album1" = Some [msg_a; msg_b; msg_c])
    by reflexivity.
  assert (Hf : fst (save_media_group_body second_download_fails "album1" [msg_a; msg_b; msg_c]
                      fresh_archiver) = Raised (DownloadError 2)) by (vm_compute; reflexivity).
  destruct (archive_failure_caught_and_unbuffered (handler_env second_download_fails) msg_a
              "album1" world_with_album1_buffered [msg_a; msg_b; msg_c] (DownloadError 2)
              Hb ltac:(discriminate) Hf) as (Hfalse & _ & Hgone & _).
  split; [exact Hb|]. split; [exact Hf|]. split; [exact Hfalse|exact Hgone].
Defined.

(** * Further properties *)

(** ** More on the helpers *)

Lemma nat_to_uint_nonnil n : Nat.to_uint n <> Decimal.Nil.
Proof.
  pose proof (DecimalNat.Unsigned.to_of (Nat.to_uint n)) as H.
  rewrite DecimalNat.Unsigned.of_to in H. rewrite H. unfold Decimal.unorm.
  by destruct (Decimal.nzhead (Nat.to_uint n)).
Qed.

Lemma str_nat_digits n : str_nat n = NilEmpty.string_of_uint (Nat.to_uint n).
Proof.
  unfold str_nat, NilZero.string_of_uint. pose proof (nat_to_uint_nonnil n).
  by destruct (Nat.to_uint n).
Qed.

Lemma read_decimal_str_nat n : read_decimal (str_nat n) = Some n.
Proof.
  unfold read_decimal. rewrite str_nat_digits, NilEmpty.usu. simpl.
  by rewrite DecimalNat.Unsigned.of_to.
Qed.

Lemma read_decimal_zero s : read_decimal (String "0" s) = read_decimal s.
Proof.
  unfold read_decimal. simpl. by destruct (NilEmpty.uint_of_string s).
Qed.

Lemma read_decimal_zeros k s : read_decimal (zeros k +:+ s) = read_decimal s.
Proof.
  induction k as [|k IH]; [done|]. simpl zeros. rewrite app_cons, read_decimal_zero. exact IH.
Qed.

Lemma format_d_reads_back width n : read_decimal (format_d width n) = Some n.
Proof. unfold format_d. by rewrite read_decimal_zeros, read_decimal_str_nat. Qed.

Lemma format_d_inj w n m : format_d w n = format_d w m -> n = m.
Proof.
  intros H. pose proof (format_d_reads_back w n) as Hn. rewrite H, format_d_reads_back in Hn.
  by injection Hn.
Qed.

Lemma group_dir_of_inj n m :
  group_dir_of n = group_dir_of m -> n = m.
Proof.
  unfold group_dir_of, path_join, group_folder. intros H.
  apply append_cancel_l in H. apply (append_cancel_l "/") in H.
  apply (append_cancel_l "group_") in H. by apply format_d_inj in H.
Qed.

Lemma split_nonempty sep s : split sep s <> [].
Proof.
  induction s as [|c s IH]; simpl; [done|].
  destruct (Ascii.eqb c sep); [done|]. by destruct (split sep s).
Qed.

Lemma join_cons sep piece pieces :
  pieces <> [] -> join sep (piece :: pieces) = piece +:+ sep +:+ join sep pieces.
Proof. by destruct pieces. Qed.

(** [sep.join(s.split(sep)) == s], no piece holds the separator, and
    there is always at least one piece. *)
Lemma split_join_round_trip sep s :
  join (String sep EmptyString) (split sep s) = s /\
  Forall (fun piece => free_of sep piece = true) (split sep s) /\
  split sep s <> [].
Proof.
  split; [|split; [|apply split_nonempty]].
  - induction s as [|c s IH]; [done|]. simpl.
    pose proof (split_nonempty sep s) as Hne.
    destruct (Ascii.eqb_spec c sep) as [->|Hc].
    + rewrite join_cons by done. by rewrite IH.
    + destruct (split sep s) as [|piece pieces]; [done|].
      destruct pieces as [|p2 ps].
      * simpl in *. by rewrite IH.
      * rewrite join_cons in IH by done. rewrite join_cons by done.
        rewrite app_cons. by rewrite IH.
  - induction s as [|c s IH]; simpl; [by repeat constructor|].
    destruct (Ascii.eqb c sep) eqn:Hc.
    + by constructor.
    + pose proof (split_nonempty sep s) as Hne.
      destruct (split sep s) as [|piece pieces]; [done|].
      apply Forall_cons in IH as [Hp Hps]. constructor; [|done]. simpl. by rewrite Hc, Hp.
Qed.

Lemma last_piece_spec sep s :
  free_of sep (last_piece (split sep s)) = true /\
  (s = last_piece (split sep s) \/
   exists before, s = before +:+ String sep (last_piece (split sep s))).
Proof.
  induction s as [|c s [IH1 IH2]]; [by split; [|left]|]. simpl.
  pose proof (split_nonempty sep s) as Hne.
  destruct (Ascii.eqb_spec c sep) as [->|Hc].
  - unfold last_piece in *. destruct (split sep s) as [|p ps] eqn:E; [done|].
    change (List.last (EmptyString :: p :: ps) EmptyString) with (List.last (p :: ps) EmptyString).
    split; [done|]. right. destruct IH2 as [->|[before ->]].
    + by exists EmptyString.
    + exists (String sep before). by rewrite app_cons.
  - unfold last_piece in *. destruct (split sep s) as [|p ps] eqn:E; [done|].
    destruct ps as [|p2 ps].
    + simpl in *. split.
      * by rewrite (proj2 (Ascii.eqb_neq c sep) Hc), IH1.
      * left. destruct IH2 as [->|[before Hs]]; [done|]. exfalso.
        assert (Hj := proj1 (split_join_round_trip sep s)). rewrite E in Hj. simpl in Hj.
        rewrite <- Hj in Hs. apply (f_equal String.length) in Hs.
        rewrite app_length in Hs. simpl in Hs. lia.
    + change (List.last (String c p :: p2 :: ps) EmptyString)
        with (List.last (p :: p2 :: ps) EmptyString).
      split; [done|]. right. destruct IH2 as [Heq|[before ->]].
      * exfalso. clear -Heq E IH1.
        assert (Hj := proj1 (split_join_round_trip sep s)). rewrite E in Hj.
        assert (Hfree : free_of sep s = true) by (rewrite Heq; exact IH1).
        rewrite join_cons in Hj by done. rewrite <- Hj in Hfree. clear -Hfree.
        induction p as [|a p IHp]; simpl in Hfree.
        -- by rewrite Ascii.eqb_refl in Hfree.
        -- rewrite app_cons in Hfree. simpl in Hfree.
           apply andb_true_iff in Hfree as [_ Hfree]. auto.
      * exists (String c before). by rewrite app_cons.
Qed.

Lemma all_digits_app s t : all_digits (s +:+ t) = all_digits s && all_digits t.
Proof. induction s as [|c s IH]; [done|]. rewrite app_cons. simpl. by rewrite IH, andb_assoc. Qed.

Lemma zeros_digits k : all_digits (zeros k) = true.
Proof. induction k; [done|]. simpl. done. Qed.

Lemma format_d_digits w n : all_digits (format_d w n) = true.
Proof.
  unfold format_d. by rewrite all_digits_app, zeros_digits, str_nat_digits, string_of_uint_digits.
Qed.

Lemma span_digits_until ds c rest :
  all_digits ds = true -> is_digit c = false ->
  span_digits (ds +:+ String c rest) = (ds, String c rest).
Proof.
  intros Hd Hc. induction ds as [|a ds IH].
  - rewrite app_nil_l'. simpl. by rewrite Hc.
  - simpl in Hd. apply andb_true_iff in Hd as [Ha Hd]. rewrite app_cons. simpl.
    by rewrite Ha, IH.
Qed.

Lemma photo_number_filename idx file_path :
  photo_number (photo_filename idx file_path) = Some idx.
Proof.
  unfold photo_number, photo_filename.
  change (strip_literal "photo_" ("photo_" +:+ ?r)) with (Some r).
  cbn beta iota.
  change (format_d 2 idx +:+ "." +:+ ?e) with (format_d 2 idx +:+ String "." e).
  rewrite span_digits_until; [|apply format_d_digits|done].
  apply format_d_reads_back.
Qed.

(** X1: the name under which an attachment is stored is [photo_], the
    position of its message in two digits or more, a dot, and the tail of the
    remote path after its last dot (the whole path when it has none).  The
    position reads back from the name, and the extension holds no dot. *)
Theorem photo_filename_shape idx file_path :
  let ext := last_piece (split "." file_path) in
  photo_filename idx file_path = "photo_" +:+ format_d 2 idx +:+ "." +:+ ext /\
  photo_number (photo_filename idx file_path) = Some idx /\
  free_of "." ext = true /\
  (file_path = ext \/ exists before, file_path = before +:+ "." +:+ ext).
Proof.
  cbv zeta. split; [reflexivity|]. split; [apply photo_number_filename|].
  destruct (last_piece_spec "." file_path) as [Hfree Htail].
  split; [exact Hfree|]. destruct Htail as [Hwhole|[before Hcut]].
  - by left.
  - right. exists before. exact Hcut.
Qed.

Lemma path_join_inj dir a b : path_join dir a = path_join dir b -> a = b.
Proof. unfold path_join. intros H. apply append_cancel_l in H. by apply (append_cancel_l "/") in H. Qed.

(** X2: the folder name carries the sequence number: the number reads back
    from the name, whatever its size (the padding to four digits never
    truncates), so two sequence numbers never share a folder. *)
Theorem group_folder_reads_back n :
  folder_number (group_folder n) = Some n /\
  (String.length "group_" + 4 <= String.length (group_folder n))%nat /\
  forall m, group_dir_of n = group_dir_of m -> n = m.
Proof.
  split; [|split].
  - unfold folder_number, group_folder.
    change (strip_literal "group_" ("group_" +:+ ?r)) with (Some r).
    apply format_d_reads_back.
  - unfold group_folder. rewrite app_length. simpl String.length.
    unfold format_d. rewrite app_length.
    assert (Hz : forall k, String.length (zeros k) = k).
    { induction k; simpl; [done|]. by rewrite IHk. }
    rewrite Hz. lia.
  - apply group_dir_of_inj.
Qed.

Lemma photo_filename_inj i fp j fp' :
  photo_filename i fp = photo_filename j fp' -> i = j.
Proof.
  intros H. apply (f_equal photo_number) in H.
  rewrite !photo_number_filename in H. congruence.
Qed.

Section LoopFiles.
Variables (env : ArchiveEnv) (dir : string).

Lemma process_message_below idx msg gi d r d' j fp :
  process_message env dir idx msg gi d = (r, d') -> j <> idx ->
  files d' !! path_join dir (photo_filename j fp) = files d !! path_join dir (photo_filename j fp).
Proof.
  unfold process_message. intros H Hj.
  destruct (photo msg); [by inversion H|].
  destruct (fetch env idx) as [|[fp'|] [bytes|]]; inversion H; subst; try done.
  simpl. rewrite lookup_insert_ne; [done|].
  intros E. apply path_join_inj, photo_filename_inj in E. congruence.
Qed.

Lemma process_messages_below msgs : forall idx gi d r d' j fp,
  process_messages env dir idx msgs gi d = (r, d') -> (j < idx)%nat ->
  files d' !! path_join dir (photo_filename j fp) = files d !! path_join dir (photo_filename j fp).
Proof.
  induction msgs as [|msg rest IH]; intros idx gi d r d' j fp H Hj; simpl in H.
  - by inversion H.
  - destruct (process_message env dir idx msg gi d) as [[gi1|e] d1] eqn:E.
    + rewrite (IH _ _ _ _ _ j fp H) by lia.
      eapply process_message_below; [exact E|lia].
    + inversion H; subst. eapply process_message_below; [exact E|lia].
Qed.

Lemma stored_as_frame d d' im f :
  stored_as env dir d im f ->
  files d' !! path_join dir (sf_filename f) = files d !! path_join dir (sf_filename f) ->
  stored_as env dir d' im f.
Proof.
  intros (fp & bytes & sm & lg & Hp & Hf & -> & Hd) Hsame.
  exists fp, bytes, sm, lg. repeat split; try done. by rewrite Hsame.
Qed.

Lemma process_message_files idx msg gi d gi' d' :
  process_message env dir idx msg gi d = (Returned gi', d') ->
  if has_photo msg
  then exists f, gi_files gi' = gi_files gi ++ [f] /\ stored_as env dir d' (idx, msg) f
  else gi_files gi' = gi_files gi /\ d' = d.
Proof.
  unfold process_message, has_photo. intros H.
  pose proof (note_message_fixed idx msg gi) as (_ & _ & _ & Hfiles).
  destruct (photo msg) as [|sm lg] eqn:Hp.
  - inversion H; subst. done.
  - destruct (fetch env idx) as [|[fp|] [bytes|]] eqn:Hf; inversion H; subst; clear H.
    eexists. split; [unfold append_file; cbn [gi_files]; by rewrite Hfiles|].
    exists fp, bytes, sm, lg. simpl. repeat split; try done.
    by rewrite lookup_insert_eq.
Qed.

Lemma process_messages_files msgs : forall idx gi d gi' d',
  process_messages env dir idx msgs gi d = (Returned gi', d') ->
  exists new,
    gi_files gi' = gi_files gi ++ new /\
    Forall2 (stored_as env dir d')
      (List.filter (fun im => has_photo (snd im)) (enumerate idx msgs)) new.
Proof.
  induction msgs as [|msg rest IH]; intros idx gi d gi' d' H; simpl in H.
  - inversion H; subst. exists []. split; [by rewrite app_nil_r|constructor].
  - destruct (process_message env dir idx msg gi d) as [[gi1|e] d1] eqn:E; [|discriminate].
    destruct (IH _ _ _ _ _ H) as (new & Hnew & Hall).
    apply process_message_files in E. simpl.
    destruct (has_photo msg).
    + destruct E as (f & Hf & Hst). exists (f :: new).
      split; [by rewrite Hnew, Hf, <- app_assoc|].
      constructor; [|done].
      eapply stored_as_frame; [exact Hst|].
      destruct Hst as (fp & bytes & sm & lg & _ & _ & -> & _). simpl.
      eapply process_messages_below; [exact H|lia].
    + destruct E as [Hf ->]. exists new. by rewrite Hnew, Hf.
Qed.

End LoopFiles.

(** A successful call, step by step: the loop ran to its end, the
    descriptor and the index were written, and nothing else was. *)
Lemma save_media_group_success_run env gid messages a :
  fst (save_media_group env gid messages a) = Returned true ->
  let a' := snd (save_media_group env gid messages a) in
  let dir := group_dir_of (next_group_count a) in
  exists gi d1,
    process_messages env dir 1 messages (initial_group_info env gid messages)
      {| dirs := {[dir]} ∪ dirs (disk a); files := files (disk a) |} = (Returned gi, d1) /\
    metadata a' =
      {| groups := groups (metadata a) ++ [summary_of (group_folder (next_group_count a)) gi];
         total_files := total_files (metadata a) + Z.of_nat (length (gi_files gi)) |} /\
    files (disk a') !! path_join dir "info.json" = Some (json_dumps (json_of_group_info gi)) /\
    files (disk a') !! metadata_file = Some (json_dumps (json_of_index (metadata a'))) /\
    dirs (disk a') = dirs d1 /\
    (forall p, p <> path_join dir "info.json" -> p <> metadata_file ->
               files (disk a') !! p = files d1 !! p).
Proof.
  cbv zeta. rewrite save_media_group_fst, save_media_group_snd.
  run_cases env gid messages a; simpl; try discriminate.
  destruct ok; [intros _|discriminate].
  apply write_text_spec in Hinfo as (Hd2 & Hf2 & _ & Hi).
  apply write_text_spec in Hmeta as (Hd3 & Hf3 & _ & Hm). simpl in *.
  exists gi, d1. repeat split; try done.
  - rewrite Hf3; [auto|]. apply group_path_not_metadata.
  - auto.
  - congruence.
  - intros p H1 H2. rewrite Hf3, Hf2; done.
Qed.

Lemma enumerate_length {A} (l : list A) : forall start, length (enumerate start l) = length l.
Proof. induction l; intros; simpl; [done|]. by rewrite IHl. Qed.

(** X3: after a successful call every message that carries a photo has its
    entry in the descriptor, in the order of the messages and no other
    entry: the entry describes the largest size of the photo, its file name
    is made of the position of the message in the call, and the file of
    that name in the group folder holds the bytes the platform delivered.
    No attachment of the call overwrites another. *)
Theorem save_media_group_stores_every_photo env gid messages a :
  fst (save_media_group env gid messages a) = Returned true ->
  let a' := snd (save_media_group env gid messages a) in
  let dir := group_dir_of (next_group_count a) in
  exists gi,
    files (disk a') !! path_join dir "info.json" = Some (json_dumps (json_of_group_info gi)) /\
    last (groups (metadata a')) = Some (summary_of (group_folder (next_group_count a)) gi) /\
    Forall2 (stored_as env dir (disk a')) (photo_messages messages) (gi_files gi) /\
    (length (gi_files gi) <= length messages)%nat.
Proof.
  intros Hok. destruct (save_media_group_success_run _ _ _ _ Hok)
    as (gi & d1 & Hloop & Hmeta & Hinfo & _ & _ & Hframe).
  cbv zeta. exists gi. split; [done|]. split; [by rewrite Hmeta; simpl; rewrite last_snoc|].
  destruct (process_messages_files _ _ _ _ _ _ _ _ Hloop) as (new & Hnew & Hall).
  simpl in Hnew. subst new.
  assert (Hall' : Forall2 (stored_as env (group_dir_of (next_group_count a))
                     (disk (snd (save_media_group env gid messages a))))
                    (photo_messages messages) (gi_files gi)).
  { eapply Forall2_impl; [exact Hall|]. intros im f Hst.
    eapply stored_as_frame; [exact Hst|].
    destruct Hst as (fp & bytes & sm & lg & _ & _ & -> & _). simpl.
    apply Hframe; [apply photo_path_not_descriptor|apply group_path_not_metadata]. }
  split; [done|].
  apply Forall2_length in Hall'. rewrite <- Hall'. unfold photo_messages.
  etransitivity; [apply filter_length_le|]. by rewrite enumerate_length.
Qed.

Section LoopHeader.
Variables (env : ArchiveEnv) (dir : string).

Lemma note_message_header idx msg gi :
  gi_caption (note_message idx msg gi) =
    (if Nat.eqb idx 1 && truthy (caption msg) then default EmptyString (caption msg)
     else gi_caption gi) /\
  gi_sender (note_message idx msg gi) =
    default (gi_sender gi) (option_map sender_of (from_user msg)) /\
  gi_chat_id (note_message idx msg gi) = Some (chat_id msg).
Proof.
  unfold note_message.
  destruct (Nat.eqb idx 1 && truthy (caption msg)); destruct (from_user msg); done.
Qed.

Lemma process_message_header idx msg gi d gi' d' :
  process_message env dir idx msg gi d = (Returned gi', d') ->
  gi_caption gi' =
    (if Nat.eqb idx 1 && truthy (caption msg) then default EmptyString (caption msg)
     else gi_caption gi) /\
  gi_sender gi' = default (gi_sender gi) (option_map sender_of (from_user msg)) /\
  gi_chat_id gi' = Some (chat_id msg).
Proof.
  unfold process_message. intros H.
  pose proof (note_message_header idx msg gi) as Hn.
  destruct (photo msg); [by inversion H; subst|].
  destruct (fetch env idx) as [|[fp|] [bytes|]]; inversion H; subst; done.
Qed.

Lemma process_messages_header msgs : forall idx gi d gi' d',
  (1 <= idx)%nat ->
  process_messages env dir idx msgs gi d = (Returned gi', d') ->
  gi_caption gi' =
    (match msgs with
     | m :: _ => if Nat.eqb idx 1 && truthy (caption m) then default EmptyString (caption m)
                 else gi_caption gi
     | [] => gi_caption gi
     end) /\
  gi_sender gi' = default (gi_sender gi) (last (senders msgs)) /\
  gi_chat_id gi' = default (gi_chat_id gi) (option_map (fun m => Some (chat_id m)) (last msgs)).
Proof.
  induction msgs as [|msg rest IH]; intros idx gi d gi' d' Hidx H; simpl in H.
  - by inversion H; subst.
  - destruct (process_message env dir idx msg gi d) as [[gi1|e] d1] eqn:E; [|discriminate].
    apply process_message_header in E as (Hc & Hs & Hi).
    destruct (IH (S idx) _ _ _ _ ltac:(lia) H) as (Hc' & Hs' & Hi'). split; [|split].
    + rewrite Hc'. destruct rest as [|m2 rest']; [done|].
      replace (Nat.eqb (S idx) 1) with false; [done|].
      symmetry. apply Nat.eqb_neq. lia.
    + rewrite Hs', Hs. unfold senders. simpl.
      destruct (from_user msg) as [u|]; simpl; [|done].
      rewrite last_cons. by destruct (last _).
    + rewrite Hi', Hi. rewrite last_cons. by destruct (last rest).
Qed.

End LoopHeader.

Lemma load_index_written d ix :
  files d !! metadata_file = Some (json_dumps (json_of_index ix)) -> load_index d = Some ix.
Proof.
  intros H. unfold load_index, _load_metadata. rewrite H, json_loads_dumps.
  apply index_of_json_of_index.
Qed.

Lemma load_index_same_file d d' :
  files d' !! metadata_file = files d !! metadata_file -> load_index d' = load_index d.
Proof. intros H. unfold load_index, _load_metadata. by rewrite H. Qed.

Lemma process_messages_keeps_metadata_file env n msgs idx gi d r d' :
  process_messages env (group_dir_of n) idx msgs gi d = (r, d') ->
  files d' !! metadata_file = files d !! metadata_file.
Proof.
  intros H. apply process_messages_spec in H as (_ & H & _). apply H.
  intros i fp E. by apply (group_path_not_metadata n (photo_filename i fp)).
Qed.

Lemma save_media_group_in_sync env gid messages a :
  meta_write env = WriteOk -> in_sync a -> in_sync (snd (save_media_group env gid messages a)).
Proof.
  unfold in_sync. intros Hw Hs. rewrite save_media_group_snd.
  run_cases env gid messages a; simpl.
  - done.
  - rewrite <- Hs. apply load_index_same_file.
    by rewrite (process_messages_keeps_metadata_file _ _ _ _ _ _ _ _ Hloop).
  - rewrite <- Hs. apply load_index_same_file.
    apply write_text_spec in Hinfo as (_ & Hf & _).
    rewrite Hf by (intros E; by apply (group_path_not_metadata (next_group_count a) "info.json")).
    by rewrite (process_messages_keeps_metadata_file _ _ _ _ _ _ _ _ Hloop).
  - rewrite Hw in Hmeta. simpl in Hmeta. inversion Hmeta; subst. simpl.
    apply load_index_written. simpl. by rewrite lookup_insert_eq.
Qed.

Lemma MediaArchiver_init_in_sync a :
  in_sync a ->
  MediaArchiver_init true (disk a) =
    Some (Returned {| metadata := metadata a;
                      disk := {| dirs := {[media_groups_dir]} ∪ dirs (disk a);
                                 files := files (disk a) |} |}).
Proof.
  unfold in_sync, load_index, MediaArchiver_init, mkdir_exist_ok, _load_metadata. simpl.
  destruct (files (disk a) !! metadata_file) as [text|].
  - destruct (json_loads text); [|done]. by intros ->.
  - by intros ->.
Qed.

Lemma archive_all_in_sync calls a :
  in_sync a -> Forall index_writable calls -> in_sync (archive_all calls a).
Proof.
  intros Hs Hw. revert a Hs. induction Hw as [|c calls Hc _ IH]; intros a Hs; [done|].
  rewrite archive_all_cons. apply IH. by apply save_media_group_in_sync.
Qed.

(** X5: as long as the metadata file can be written, the file follows the
    index in memory: after any sequence of calls, succeeded or failed, the
    file denotes the index the archiver holds, and an archiver started
    anew on that disk loads this very index, so that numbering goes on
    where it stopped. *)
Theorem index_file_follows_memory calls a :
  in_sync a -> Forall index_writable calls ->
  in_sync (archive_all calls a) /\
  MediaArchiver_init true (disk (archive_all calls a)) =
    Some (Returned {| metadata := metadata (archive_all calls a);
                      disk := {| dirs := {[media_groups_dir]} ∪ dirs (disk (archive_all calls a));
                                 files := files (disk (archive_all calls a)) |} |}).
Proof.
  intros Hs Hw. pose proof (archive_all_in_sync calls a Hs Hw) as H.
  split; [done|]. by apply MediaArchiver_init_in_sync.
Qed.

Lemma group_path_inj n name m name' :
  path_join (group_dir_of n) name = path_join (group_dir_of m) name' -> n = m.
Proof.
  unfold path_join, group_dir_of, path_join, group_folder. rewrite !app_assoc'. intros H.
  apply (append_cancel_l media_groups_dir) in H. apply (append_cancel_l "/") in H.
  apply (append_cancel_l "group_") in H.
  change ("/" +:+ ?x) with (String "/" x) in H.
  apply (f_equal span_digits) in H.
  rewrite !span_digits_until in H by (apply format_d_digits || done).
  injection H as H _. by apply format_d_inj in H.
Qed.

(** What a call may write: the metadata file and paths of its own folder. *)
Lemma save_media_group_frame env gid messages a p :
  p <> metadata_file ->
  (forall name, p <> path_join (group_dir_of (next_group_count a)) name) ->
  files (disk (snd (save_media_group env gid messages a))) !! p = files (disk a) !! p.
Proof.
  intros Hm Hp. rewrite save_media_group_snd.
  run_cases env gid messages a; simpl; [done|..].
  - apply process_messages_spec in Hloop as (_ & H & _). rewrite H; [done|]. intros; apply Hp.
  - apply process_messages_spec in Hloop as (_ & H & _).
    apply write_text_spec in Hinfo as (_ & Hf & _).
    rewrite Hf by apply Hp. rewrite H; [done|]. intros; apply Hp.
  - apply process_messages_spec in Hloop as (_ & H & _).
    apply write_text_spec in Hinfo as (_ & Hf & _).
    apply write_text_spec in Hmeta as (_ & Hf' & _).
    rewrite Hf' by done. rewrite Hf by apply Hp. rewrite H; [done|]. intros; apply Hp.
Qed.

(** X6: nothing archived is ever removed or rewritten.  Through any sequence
    of calls every directory and every file present stays present, and a
    file in the folder of a group the index already counts keeps its
    content: later calls write to folders of higher numbers only. *)
Theorem archived_folders_are_left_alone calls a :
  dirs (disk a) ⊆ dirs (disk (archive_all calls a)) /\
  (forall p, is_Some (files (disk a) !! p) -> is_Some (files (disk (archive_all calls a)) !! p)) /\
  forall n name, (n <= length (groups (metadata a)))%nat ->
    files (disk (archive_all calls a)) !! path_join (group_dir_of n) name =
    files (disk a) !! path_join (group_dir_of n) name.
Proof.
  split; [apply archive_all_grows|]. split; [apply archive_all_grows|].
  revert a. induction calls as [|c calls IH]; intros a n name Hn; [done|].
  rewrite archive_all_cons. rewrite IH.
  - apply save_media_group_frame; [apply group_path_not_metadata|].
    intros name' E. apply group_path_inj in E. unfold next_group_count in E. lia.
  - destruct (archive_all_grows [c] (a)) as (Hpre & _). simpl in Hpre.
    apply prefix_length in Hpre. unfold archive_all in Hpre. simpl in Hpre. lia.
Qed.

Lemma save_media_group_index_length env gid messages a :
  let r := save_media_group env gid messages a in
  (length (groups (metadata a)) + (if succeeded (fst r) then 1 else 0)
     <= length (groups (metadata (snd r)))
     <= length (groups (metadata a)) + 1)%nat.
Proof.
  cbv zeta. destruct (succeeded _) eqn:Hs.
  - destruct (fst (save_media_group env gid messages a)) as [[]|] eqn:Hr; try discriminate.
    destruct (save_media_group_success _ _ _ _ Hr) as (gi & _ & _ & Hg & _).
    rewrite Hg, length_app. simpl. lia.
  - destruct (save_media_group_index_step env gid messages a) as [->|(s & -> & _)].
    + lia.
    + rewrite length_app. simpl. lia.
Qed.

(** X7: the counter of the index is the sum of the file counts of its
    entries after any sequence of calls, succeeded or failed; the list of
    entries only grows at its end, by one entry at most per call and by one
    entry at least per call that returned [True]. *)
Theorem index_counter_invariant calls a :
  index_consistent (metadata a) ->
  index_consistent (metadata (archive_all calls a)) /\
  groups (metadata a) `prefix_of` groups (metadata (archive_all calls a)) /\
  (length (groups (metadata a)) + length (List.filter succeeded (archive_results calls a))
     <= length (groups (metadata (archive_all calls a)))
     <= length (groups (metadata a)) + length calls)%nat.
Proof.
  intros Hc. destruct (archive_all_consistent calls a Hc) as [H1 H2].
  split; [done|]. split; [done|]. clear.
  revert a. induction calls as [|c calls IH]; intros a; [simpl; lia|].
  rewrite archive_all_cons. cbn [archive_results List.filter length].
  specialize (IH (snd (archive_call c a))).
  pose proof (save_media_group_index_length (call_env c) (call_gid c) (call_messages c) a) as Hl.
  cbv zeta in Hl. fold (archive_call c a) in Hl.
  destruct (succeeded (fst (archive_call c a))); simpl; lia.
Qed.

(** X8: the descriptor of a successful call is a document that reads back.
    It is an object with the seven keys of [group_info] in the order the
    source gives them; its [message_count] is the number of messages of the
    call, and its [files] list has one entry per message carrying a photo,
    as many as the index entry of the group counts. *)
Theorem descriptor_reads_back env gid messages a :
  fst (save_media_group env gid messages a) = Returned true ->
  let a' := snd (save_media_group env gid messages a) in
  exists members items s,
    read_descriptor (disk a') (group_folder (next_group_count a)) = Some (JDict members) /\
    map fst members =
      ["media_group_id"; "date"; "caption"; "files"; "sender"; "chat_id"; "message_count"] /\
    get_string "media_group_id" members = Some gid /\
    get_int "message_count" members = Some (Z.of_nat (length messages)) /\
    dict_get "files" members = Some (JList items) /\
    length items = length (photo_messages messages) /\
    last (groups (metadata a')) = Some s /\
    gs_folder s = group_folder (next_group_count a) /\
    gs_files_count s = Z.of_nat (length items).
Proof.
  intros Hok. cbv zeta.
  destruct (save_media_group_success_run _ _ _ _ Hok) as (gi & d1 & Hloop & Hmeta & Hinfo & _).
  destruct (process_messages_files _ _ _ _ _ _ _ _ Hloop) as (new & Hnew & Hall).
  simpl in Hnew. subst new.
  pose proof (process_messages_fixed _ _ _ _ _ _ _ _ Hloop) as (Hid & _ & Hcount).
  simpl in Hid, Hcount.
  exists [("media_group_id", JString (gi_media_group_id gi)); ("date", JString (gi_date gi));
          ("caption", JString (gi_caption gi));
          ("files", JList (map json_of_stored_file (gi_files gi)));
          ("sender", JString (gi_sender gi)); ("chat_id", json_of_option_int (gi_chat_id gi));
          ("message_count", JInt (Z.of_nat (gi_message_count gi)))],
         (map json_of_stored_file (gi_files gi)),
         (summary_of (group_folder (next_group_count a)) gi).
  split.
  { unfold read_descriptor. fold (group_dir_of (next_group_count a)).
    rewrite Hinfo. apply json_loads_dumps. }
  split; [done|]. split; [by rewrite <- Hid|]. split; [by rewrite <- Hcount|].
  split; [done|]. split; [rewrite length_map; symmetry; by apply Forall2_length in Hall|].
  split; [by rewrite Hmeta; simpl; rewrite last_snoc|].
  split; [done|]. simpl. by rewrite length_map.
Qed.

(** ** A text cut short is not a document *)

Lemma skip_ws_app s t : skip_ws s <> EmptyString -> skip_ws (s +:+ t) = skip_ws s +:+ t.
Proof.
  induction s as [|c s IH]; [done|]. rewrite app_cons. simpl.
  destruct (is_ws c); [auto|]. intros _. by rewrite app_cons.
Qed.

Lemma strip_literal_app lit : forall s r t,
  strip_literal lit s = Some r -> strip_literal lit (s +:+ t) = Some (r +:+ t).
Proof.
  induction lit as [|a lit IH]; intros s r t H.
  - destruct s; simpl in *; by inversion H.
  - destruct s as [|b s]; [done|]. rewrite app_cons. simpl in *.
    destruct (Ascii.eqb a b); [auto|done].
Qed.

Lemma strip_literal_head a lit c s t :
  Ascii.eqb a c = false -> strip_literal (String a lit) (String c s +:+ t) = None.
Proof. intros H. rewrite app_cons. simpl. by rewrite H. Qed.

Lemma parse_chars_app_len n : forall s u r t,
  (String.length s <= n)%nat ->
  parse_chars s = Some (u, r) -> parse_chars (s +:+ t) = Some (u, r +:+ t).
Proof.
  induction n as [|n IH]; intros s u r t Hn H.
  - destruct s; [done|simpl in Hn; lia].
  - destruct s as [|c s]; [done|]. rewrite app_cons. simpl in *.
    destruct (Ascii.eqb c dquote); [by inversion H|].
    destruct (Ascii.eqb c "\").
    + destruct s as [|e s]; [done|]. rewrite app_cons.
      destruct (Ascii.eqb e "u").
      * destruct s as [|h1 [|h2 [|h3 [|h4 rest]]]]; try done.
        rewrite !app_cons. destruct (hex4 h1 h2 h3 h4) as [k|]; [|done].
        destruct (Nat.ltb k 256); [|done].
        destruct (parse_chars rest) as [[u' r']|] eqn:E; [|done].
        inversion H; subst. simpl in Hn.
        by rewrite (IH rest u' r t ltac:(lia) E).
      * destruct (unescape_simple e); [|done].
        destruct (parse_chars s) as [[u' r']|] eqn:E; [|done].
        inversion H; subst. simpl in Hn.
        by rewrite (IH s u' r t ltac:(lia) E).
    + destruct (Nat.ltb (nat_of_ascii c) 32); [done|].
      destruct (parse_chars s) as [[u' r']|] eqn:E; [|done].
      inversion H; subst.
      by rewrite (IH s u' r t ltac:(lia) E).
Qed.

Lemma parse_chars_app s u r t :
  parse_chars s = Some (u, r) -> parse_chars (s +:+ t) = Some (u, r +:+ t).
Proof. by apply (parse_chars_app_len (String.length s)). Qed.

Lemma span_digits_ext s : forall ds r t,
  span_digits s = (ds, r) -> r <> EmptyString -> span_digits (s +:+ t) = (ds, r +:+ t).
Proof.
  induction s as [|c s IH]; intros ds r t H Hr; simpl in H.
  - inversion H; subst. done.
  - rewrite app_cons. simpl. destruct (is_digit c).
    + destruct (span_digits s) as [ds' r'] eqn:E. inversion H; subst.
      by rewrite (IH ds' r t eq_refl Hr).
    + inversion H; subst. by rewrite app_cons.
Qed.

Lemma parse_int_part_ext s ds r t :
  parse_int_part s = Some (ds, r) -> r <> EmptyString ->
  parse_int_part (s +:+ t) = Some (ds, r +:+ t).
Proof.
  destruct s as [|c s]; [done|]. rewrite app_cons. simpl.
  destruct (Ascii.eqb c "0"); [intros H; by inversion H|].
  destruct (is_digit c); [|done].
  destruct (span_digits s) as [ds' r'] eqn:E. intros H Hr. inversion H; subst.
  by rewrite (span_digits_ext _ _ _ t E Hr).
Qed.

Lemma starts_fraction_or_exponent_ext r t :
  r <> EmptyString -> starts_fraction_or_exponent (r +:+ t) = starts_fraction_or_exponent r.
Proof. destruct r; [done|]. by rewrite app_cons. Qed.

Lemma parse_number_ext s z r t :
  parse_number s = Some (z, r) -> r <> EmptyString ->
  parse_number (s +:+ t) = Some (z, r +:+ t).
Proof.
  unfold parse_number. intros H Hr.
  destruct s as [|c s]; [done|]. rewrite app_cons. cbn beta iota in *.
  destruct (Ascii.eqb c "-").
  - destruct (parse_int_part s) as [[ds r']|] eqn:E; [|done].
    destruct (starts_fraction_or_exponent r') eqn:Ef; [done|].
    destruct (NilZero.uint_of_string ds) eqn:Eu; [|done]. inversion H; subst.
    rewrite (parse_int_part_ext _ _ _ t E Hr).
    by rewrite starts_fraction_or_exponent_ext, Ef, Eu.
  - destruct (parse_int_part (String c s)) as [[ds r']|] eqn:E; [|done].
    destruct (starts_fraction_or_exponent r') eqn:Ef; [done|].
    destruct (NilZero.uint_of_string ds) eqn:Eu; [|done]. inversion H; subst.
    rewrite <- app_cons. rewrite (parse_int_part_ext _ _ _ t E Hr).
    by rewrite starts_fraction_or_exponent_ext, Ef, Eu.
Qed.

Lemma parse_value_empty fuel : parse_value fuel EmptyString = None.
Proof. by destruct fuel. Qed.

Lemma parse_items_empty fuel : parse_items fuel EmptyString = None.
Proof. destruct fuel; [done|]. cbn [parse_items]. by rewrite parse_value_empty. Qed.

Lemma parse_members_empty fuel : parse_members fuel EmptyString = None.
Proof. by destruct fuel. Qed.

(** The three parsers go on as before when text is added after what they
    left; a bare number at the very end of the text is the one exception,
    as more digits would continue it. *)
Lemma parse_ext fuel :
  (forall s v r t, parse_value fuel s = Some (v, r) ->
     is_number v = false \/ r <> EmptyString ->
     parse_value fuel (s +:+ t) = Some (v, r +:+ t)) /\
  (forall s vs r t, parse_items fuel s = Some (vs, r) ->
     parse_items fuel (s +:+ t) = Some (vs, r +:+ t)) /\
  (forall s kvs r t, parse_members fuel s = Some (kvs, r) ->
     parse_members fuel (s +:+ t) = Some (kvs, r +:+ t)).
Proof.
  induction fuel as [|fuel (IHv & IHi & IHm)]; [done|].
  assert (Hnext : forall r t c r1, skip_ws r = String c r1 ->
            r <> EmptyString /\ skip_ws (r +:+ t) = String c (r1 +:+ t)).
  { intros r t c r1 Hr. split; [by intros ->|].
    rewrite skip_ws_app by (by rewrite Hr). by rewrite Hr, app_cons. }
  split; [|split].
  - intros s v r t H Hv. destruct s as [|c s]; [done|]. rewrite app_cons.
    cbn [parse_value] in *.
    destruct (Ascii.eqb c dquote).
    { destruct (parse_chars s) as [[u r']|] eqn:E; [|done]. inversion H; subst.
      by rewrite (parse_chars_app _ _ _ t E). }
    destruct (Ascii.eqb c "[").
    { destruct (skip_ws s) as [|c1 r1] eqn:Es; [done|].
      destruct (Hnext _ t _ _ Es) as [_ Es']. rewrite Es'.
      destruct (Ascii.eqb c1 "]"); [by inversion H|].
      rewrite <- Es in H. rewrite <- Es'.
      destruct (parse_items fuel (skip_ws s)) as [[items r']|] eqn:E; [|done].
      inversion H; subst. rewrite skip_ws_app by (by rewrite Es).
      by rewrite (IHi _ _ _ t E). }
    destruct (Ascii.eqb c "{").
    { destruct (skip_ws s) as [|c1 r1] eqn:Es; [done|].
      destruct (Hnext _ t _ _ Es) as [_ Es']. rewrite Es'.
      destruct (Ascii.eqb c1 "}"); [by inversion H|].
      rewrite <- Es in H. rewrite <- Es'.
      destruct (parse_members fuel (skip_ws s)) as [[members r']|] eqn:E; [|done].
      inversion H; subst. rewrite skip_ws_app by (by rewrite Es).
      by rewrite (IHm _ _ _ t E). }
    rewrite <- app_cons.
    destruct (strip_literal "null" (String c s)) as [r0|] eqn:E0.
    { inversion H; subst. by rewrite (strip_literal_app _ _ _ t E0). }
    destruct (Ascii.eqb "n" c) eqn:Hn.
    { apply Ascii.eqb_eq in Hn. subst c. simpl in H. done. }
    rewrite (strip_literal_head "n" "ull" c s t Hn).
    destruct (strip_literal "true" (String c s)) as [r1|] eqn:E1.
    { inversion H; subst. by rewrite (strip_literal_app _ _ _ t E1). }
    destruct (Ascii.eqb "t" c) eqn:Ht.
    { apply Ascii.eqb_eq in Ht. subst c. simpl in H. done. }
    rewrite (strip_literal_head "t" "rue" c s t Ht).
    destruct (strip_literal "false" (String c s)) as [r2|] eqn:E2.
    { inversion H; subst. by rewrite (strip_literal_app _ _ _ t E2). }
    destruct (Ascii.eqb "f" c) eqn:Hf.
    { apply Ascii.eqb_eq in Hf. subst c. simpl in H. done. }
    rewrite (strip_literal_head "f" "alse" c s t Hf).
    destruct (parse_number (String c s)) as [[z r']|] eqn:E; [|done].
    inversion H; subst. destruct Hv as [Hv|Hv]; [done|].
    by rewrite (parse_number_ext _ _ _ t E Hv).
  - intros s vs r t H. cbn [parse_items] in *.
    destruct (parse_value fuel s) as [[v r0]|] eqn:E; [|done].
    destruct (skip_ws r0) as [|c r1] eqn:Es; [done|].
    destruct (Hnext _ t _ _ Es) as [Hr0 Es'].
    rewrite (IHv _ _ _ t E (or_intror Hr0)), Es'.
    destruct (Ascii.eqb c "]"); [by inversion H|].
    destruct (Ascii.eqb c ","); [|done].
    destruct (parse_items fuel (skip_ws r1)) as [[vs' r2]|] eqn:E'; [|done].
    inversion H; subst.
    assert (Hne : skip_ws r1 <> EmptyString).
    { intros Hz. by rewrite Hz, parse_items_empty in E'. }
    rewrite skip_ws_app by done. by rewrite (IHi _ _ _ t E').
  - intros s kvs r t H. destruct s as [|q s]; [done|]. rewrite app_cons.
    cbn [parse_members] in *.
    destruct (Ascii.eqb q dquote); [|done].
    destruct (parse_chars s) as [[k r0]|] eqn:Ek; [|done].
    rewrite (parse_chars_app _ _ _ t Ek).
    destruct (skip_ws r0) as [|c r1] eqn:Es; [done|].
    destruct (Hnext _ t _ _ Es) as [_ Es']. rewrite Es'.
    destruct (Ascii.eqb c ":"); [|done].
    destruct (parse_value fuel (skip_ws r1)) as [[v r2]|] eqn:Ev; [|done].
    assert (Hne : skip_ws r1 <> EmptyString).
    { intros Hz. by rewrite Hz, parse_value_empty in Ev. }
    destruct (skip_ws r2) as [|c2 r3] eqn:Es2; [done|].
    destruct (Hnext _ t _ _ Es2) as [Hr2 Es2'].
    rewrite skip_ws_app by done.
    rewrite (IHv _ _ _ t Ev (or_intror Hr2)), Es2'.
    destruct (Ascii.eqb c2 "}"); [by inversion H|].
    destruct (Ascii.eqb c2 ","); [|done].
    destruct (parse_members fuel (skip_ws r3)) as [[kvs' r4]|] eqn:Em; [|done].
    inversion H; subst.
    assert (Hne3 : skip_ws r3 <> EmptyString).
    { intros Hz. by rewrite Hz, parse_members_empty in Em. }
    rewrite skip_ws_app by done. by rewrite (IHm _ _ _ t Em).
Qed.

(** More fuel does not change a result. *)
Lemma parse_mono fuel : forall fuel', (fuel <= fuel')%nat ->
  (forall s x, parse_value fuel s = Some x -> parse_value fuel' s = Some x) /\
  (forall s x, parse_items fuel s = Some x -> parse_items fuel' s = Some x) /\
  (forall s x, parse_members fuel s = Some x -> parse_members fuel' s = Some x).
Proof.
  induction fuel as [|fuel IH]; intros fuel' Hle; [done|].
  destruct fuel' as [|fuel']; [lia|].
  destruct (IH fuel' ltac:(lia)) as (IHv & IHi & IHm). clear IH.
  split; [|split]; intros s x H.
  - destruct s as [|c s]; [done|]. cbn [parse_value] in *.
    destruct (Ascii.eqb c dquote); [done|].
    destruct (Ascii.eqb c "[").
    { destruct (skip_ws s) as [|c1 r1]; [done|].
      destruct (Ascii.eqb c1 "]"); [done|].
      destruct (parse_items fuel _) as [[items r]|] eqn:E; [|done].
      by rewrite (IHi _ _ E). }
    destruct (Ascii.eqb c "{"); [|done].
    destruct (skip_ws s) as [|c1 r1]; [done|].
    destruct (Ascii.eqb c1 "}"); [done|].
    destruct (parse_members fuel _) as [[members r]|] eqn:E; [|done].
    by rewrite (IHm _ _ E).
  - cbn [parse_items] in *.
    destruct (parse_value fuel s) as [[v r]|] eqn:E; [|done].
    rewrite (IHv _ _ E).
    destruct (skip_ws r) as [|c r1]; [done|].
    destruct (Ascii.eqb c "]"); [done|].
    destruct (Ascii.eqb c ","); [|done].
    destruct (parse_items fuel _) as [[vs r2]|] eqn:E'; [|done].
    by rewrite (IHi _ _ E').
  - destruct s as [|q s]; [done|]. cbn [parse_members] in *.
    destruct (Ascii.eqb q dquote); [|done].
    destruct (parse_chars s) as [[k r0]|]; [|done].
    destruct (skip_ws r0) as [|c r1]; [done|].
    destruct (Ascii.eqb c ":"); [|done].
    destruct (parse_value fuel _) as [[v r2]|] eqn:Ev; [|done].
    rewrite (IHv _ _ Ev).
    destruct (skip_ws r2) as [|c2 r3]; [done|].
    destruct (Ascii.eqb c2 "}"); [done|].
    destruct (Ascii.eqb c2 ","); [|done].
    destruct (parse_members fuel _) as [[kvs r4]|] eqn:Em; [|done].
    by rewrite (IHm _ _ Em).
Qed.

Lemma substring_cut s : forall n,
  (n < String.length s)%nat ->
  exists t, t <> EmptyString /\ s = substring 0 n s +:+ t.
Proof.
  induction s as [|c s IH]; intros n Hn; simpl in Hn; [lia|].
  destruct n as [|n].
  - exists (String c s). split; [done|]. by destruct s.
  - destruct (IH n ltac:(lia)) as (t & Ht & Hs). exists t. split; [done|].
    simpl. rewrite app_cons. by rewrite <- Hs.
Qed.

Lemma app_empty s t : s +:+ t = EmptyString -> t = EmptyString.
Proof. destruct s; [by rewrite app_nil_l'|by rewrite app_cons]. Qed.

Lemma parse_value_int_head fuel c s z r :
  parse_value fuel (String c s) = Some (JInt z, r) -> number_head c = true.
Proof.
  destruct fuel as [|fuel]; [done|]. cbn [parse_value].
  destruct (Ascii.eqb c dquote); [by destruct (parse_chars s) as [[]|]|].
  destruct (Ascii.eqb c "[").
  { destruct (skip_ws s); [done|]. destruct (Ascii.eqb _ "]"); [done|].
    by destruct (parse_items _ _) as [[]|]. }
  destruct (Ascii.eqb c "{").
  { destruct (skip_ws s); [done|]. destruct (Ascii.eqb _ "}"); [done|].
    by destruct (parse_members _ _) as [[]|]. }
  destruct (strip_literal "null" _); [done|].
  destruct (strip_literal "true" _); [done|].
  destruct (strip_literal "false" _); [done|].
  destruct (parse_number (String c s)) as [[z' r']|] eqn:E; [|done].
  intros _. unfold number_head.
  unfold parse_number in E. destruct (Ascii.eqb c "-") eqn:Hm; [by rewrite orb_true_r|].
  unfold parse_int_part in E. destruct (Ascii.eqb c "0") eqn:H0.
  - apply Ascii.eqb_eq in H0. by subst c.
  - destruct (is_digit c); [done|]. done.
Qed.

Lemma encode_head_not_number level v :
  is_number v = false ->
  exists c s, encode level v = String c s /\ number_head c = false /\ is_ws c = false.
Proof.
  intros Hv. destruct v as [|[]|z|s|[|x items]|[|kx members]]; try done;
    (eexists _, _; split; [reflexivity|split; reflexivity]).
Qed.

(** A document other than a bare number, cut anywhere before its end, is
    rejected by the decoder. *)
Lemma json_loads_truncated v n :
  is_number v = false ->
  (n < String.length (json_dumps v))%nat ->
  json_loads (substring 0 n (json_dumps v)) = None.
Proof.
  intros Hv Hn. destruct (substring_cut _ _ Hn) as (t & Ht & Hs).
  set (p := substring 0 n (json_dumps v)) in *.
  unfold json_loads.
  destruct (parse_value _ (skip_ws p)) as [[v' r]|] eqn:E; [|done].
  destruct (skip_ws r) as [|c r'] eqn:Er; [|done]. exfalso.
  assert (Hp : skip_ws p = p).
  { destruct (encode_head_not_number 0 v Hv) as (c & s' & Hc & _ & Hh).
    unfold json_dumps in Hs. rewrite Hc in Hs. destruct p as [|a p']; [done|].
    rewrite app_cons in Hs. injection Hs as -> _. by apply skip_ws_value. }
  rewrite Hp in E.
  pose proof (parse_value_encode v 0%nat (String.length (json_dumps v)) EmptyString
                (fuel_needed_le_length v 0%nat) eq_refl) as Hfull.
  rewrite app_nil_r' in Hfull. fold (json_dumps v) in Hfull.
  set (F := (2 * String.length p + 1 + String.length (json_dumps v))%nat).
  apply (proj1 (parse_mono (String.length (json_dumps v)) F ltac:(lia))) in Hfull.
  apply (proj1 (parse_mono (2 * String.length p + 1) F ltac:(lia))) in E.
  assert (Hv' : is_number v' = false).
  { destruct v' as [| |z| | |]; try done.
    destruct p as [|a p']; [done|]. apply parse_value_int_head in E.
    destruct (encode_head_not_number 0 v Hv) as (c & s' & Hc & Hh & _).
    unfold json_dumps in Hs. rewrite Hc, app_cons in Hs. injection Hs as -> _. congruence. }
  apply (proj1 (parse_ext F) _ _ _ t) in E; [|by left].
  rewrite <- Hs in E. rewrite Hfull in E. injection E as _ E.
  symmetry in E. by apply app_empty in E.
Qed.

(** X10: an index write that stops before its end leaves a metadata file
    that is not a document: whatever the index and wherever the write
    stops, [_load_metadata] raises on the file left, and so does the
    construction of the archiver at the next start.  The same holds of every
    state of the file a reader can meet while a complete write is under
    way, the last one apart. *)
Theorem interrupted_index_write_stops_startup a n :
  (n < String.length (json_dumps (json_of_index (metadata a))))%nat ->
  let left := disk (snd (_save_metadata (WriteFailsAfter n) a)) in
  fst (_save_metadata (WriteFailsAfter n) a) = false /\
  _load_metadata left = Raised JSONDecodeError /\
  MediaArchiver_init true left = Some (Raised JSONDecodeError) /\
  forall d, _save_metadata_states a !! n = Some d -> _load_metadata d = Raised JSONDecodeError.
Proof.
  intros Hn. cbv zeta.
  assert (Hload : forall d,
            files d !! metadata_file =
              Some (substring 0 n (json_dumps (json_of_index (metadata a)))) ->
            _load_metadata d = Raised JSONDecodeError).
  { intros d Hd. unfold _load_metadata. rewrite Hd.
    by rewrite (json_loads_truncated (json_of_index (metadata a)) n eq_refl Hn). }
  unfold _save_metadata. cbn [write_text fst snd disk].
  split; [done|]. split; [|split].
  - apply Hload. cbn [files]. by rewrite lookup_insert_eq.
  - unfold MediaArchiver_init, mkdir_exist_ok.
    rewrite Hload; [done|]. cbn [files]. by rewrite lookup_insert_eq.
  - intros d Hd. apply Hload. unfold _save_metadata_states, write_text_states in Hd.
    rewrite list_lookup_fmap in Hd.
    destruct (seq 0 (S (String.length (json_dumps (json_of_index (metadata a))))) !! n)
      as [k|] eqn:Ek; [|done].
    apply lookup_seq in Ek as [-> _]. simpl in Hd. injection Hd as <-.
    cbn [files]. by rewrite lookup_insert_eq.
Qed.

(** X11: the text the program writes for a document reads back as that
    document, whatever its strings hold (quotes, backslashes, control
    characters) and however deep it nests; and a text cut anywhere before
    its end is not a document, unless the document is a bare number. *)
Theorem json_text_reads_back v :
  json_loads (json_dumps v) = Some v /\
  (is_number v = false ->
   forall n, (n < String.length (json_dumps v))%nat ->
             json_loads (substring 0 n (json_dumps v)) = None).
Proof.
  split.
  - apply json_loads_dumps.
  - intros Hv n Hn. by apply json_loads_truncated.
Qed.

Lemma flush_alone env m g w :
  media_group_buffer w !! g = Some [m] -> reply_ok env = true ->
  handle_media_resume env m g w =
    (Returned tt,
     {| archiver := snd (save_media_group (archive_env env) g [m] (archiver w));
        media_group_buffer := delete g (media_group_buffer w);
        outbox := outbox w ++
          (if succeeded (fst (save_media_group (archive_env env) g [m] (archiver w)))
           then [{| reply_to := message_id m; reply_text := AlbumSaved 1 |}] else []) |}).
Proof.
  intros Hb Hr. rewrite (handle_media_resume_flush _ _ _ _ [m] Hb) by done.
  destruct (save_media_group_returns (archive_env env) g [m] (archiver w)) as (b & -> & _).
  rewrite Hr. destruct b; simpl; [done|by rewrite app_nil_r].
Qed.

Lemma truthy_gid m :
  truthy (media_group_id m) = true ->
  gid_of m <> EmptyString /\ media_group_id m = Some (gid_of m).
Proof. unfold gid_of. by destruct (media_group_id m) as [[|c s]|]. Qed.

Lemma str_nat_inj n m : str_nat n = str_nat m -> n = m.
Proof.
  intros H. apply (f_equal read_decimal) in H. rewrite !read_decimal_str_nat in H. congruence.
Qed.

Lemma str_nat_then_line_feed n m s t :
  str_nat n +:+ line_feed +:+ s = str_nat m +:+ line_feed +:+ t -> n = m /\ s = t.
Proof.
  intros H. pose proof H as H'. apply (f_equal span_digits) in H.
  unfold line_feed in H. rewrite !app_cons, !app_nil_l' in H.
  rewrite !span_digits_until in H
    by (done || (rewrite str_nat_digits; apply string_of_uint_digits)).
  injection H as H _. apply str_nat_inj in H. subst m. split; [done|].
  apply append_cancel_l in H'. by apply append_cancel_l in H'.
Qed.

Lemma str_int_then_line_feed z y s t :
  str_int z +:+ line_feed +:+ s = str_int y +:+ line_feed +:+ t -> z = y.
Proof.
  intros H. apply (f_equal parse_number) in H.
  destruct (parse_number_str_int z (line_feed +:+ s) eq_refl) as [Hz _].
  destruct (parse_number_str_int y (line_feed +:+ t) eq_refl) as [Hy _].
  rewrite Hz, Hy in H. congruence.
Qed.

(** X15: the statistics message gives the figures of the index in memory,
    and gives them without ambiguity: two messages are the same only when
    both figures are.  The file figure is the sum of the file counts of the
    index entries after any sequence of calls, and as long as the metadata
    file can be written an archiver started anew reports the same
    statistics. *)
Theorem stats_report_the_index download_dir calls a buf out :
  index_consistent (metadata a) -> in_sync a -> Forall index_writable calls ->
  let w := {| archiver := archive_all calls a; media_group_buffer := buf; outbox := out |} in
  stats_command true download_dir w =
    Returned (stats_lines download_dir (length (groups (metadata (archive_all calls a))))
                (sum_files_count (groups (metadata (archive_all calls a))))) /\
  (forall n files n' files',
     stats_lines download_dir n files = stats_lines download_dir n' files' ->
     n = n' /\ files = files') /\
  exists restarted,
    MediaArchiver_init true (disk (archive_all calls a)) = Some (Returned restarted) /\
    stats_command true download_dir
      {| archiver := restarted; media_group_buffer := ∅; outbox := [] |} =
    stats_command true download_dir w.
Proof.
  intros Hc Hs Hw. cbv zeta. split; [|split].
  - unfold stats_command, stats_text. cbn [archiver].
    destruct (archive_all_consistent calls a Hc) as [-> _]. done.
  - intros n files n' files' H. unfold stats_lines in H.
    apply append_cancel_l in H. apply (append_cancel_l line_feed) in H.
    apply (append_cancel_l line_feed) in H. apply append_cancel_l in H.
    apply str_nat_then_line_feed in H as [-> H]. split; [done|].
    apply append_cancel_l in H. by apply str_int_then_line_feed in H.
  - eexists. split; [apply MediaArchiver_init_in_sync; by apply archive_all_in_sync|done].
Qed.

(** An album of three messages whose second carries no photo: the photos
    of the first and of the third are stored as numbers 1 and 3. *)
Lemma save_media_group_stores_every_photo_witness :
  let messages := [msg_a; text_only_message 150 "album1"; msg_b] in
  let r := save_media_group all_fine "album1" messages fresh_archiver in
  fst r = Returned true /\
  map fst (photo_messages messages) = [1%nat; 3%nat] /\
  files (disk (snd r)) !! "media_groups/group_0001/photo_03.jpg" = Some "jpeg-3" /\
  exists gi,
    Forall2 (stored_as all_fine (group_dir_of 1) (disk (snd r))) (photo_messages messages)
      (gi_files gi) /\
    length (gi_files gi) = 2%nat.
Proof.
  cbv zeta.
  assert (Hok : fst (save_media_group all_fine "album1"
                       [msg_a; text_only_message 150 "album1"; msg_b] fresh_archiver)
                = Returned true) by (vm_compute; reflexivity).
  destruct (save_media_group_stores_every_photo all_fine "album1"
              [msg_a; text_only_message 150 "album1"; msg_b] fresh_archiver Hok)
    as (gi & _ & _ & Hall & _).
  split; [exact Hok|]. split; [reflexivity|]. split; [vm_compute; reflexivity|].
  exists gi. split; [exact Hall|].
  apply Forall2_length in Hall. rewrite <- Hall. reflexivity.
Defined.

(** The descriptor of an album of three messages, two of them with a photo. *)
Lemma descriptor_reads_back_witness :
  let messages := [msg_a; text_only_message 150 "album1"; msg_b] in
  let r := save_media_group all_fine "album1" messages fresh_archiver in
  fst r = Returned true /\
  exists members items,
    read_descriptor (disk (snd r)) "group_0001" = Some (JDict members) /\
    get_int "message_count" members = Some 3 /\
    dict_get "files" members = Some (JList items) /\
    length items = 2%nat.
Proof.
  cbv zeta.
  assert (Hok : fst (save_media_group all_fine "album1"
                       [msg_a; text_only_message 150 "album1"; msg_b] fresh_archiver)
                = Returned true) by (vm_compute; reflexivity).
  destruct (descriptor_reads_back all_fine "album1"
              [msg_a; text_only_message 150 "album1"; msg_b] fresh_archiver Hok)
    as (members & items & s & Hread & _ & _ & Hcount & Hfiles & Hlen & _).
  split; [exact Hok|]. exists members, items.
  split; [exact Hread|]. split; [exact Hcount|]. split; [exact Hfiles|exact Hlen].
Defined.

(** After the three calls of [three_albums] a new archiver numbers its next
    group 4. *)
Lemma index_file_follows_memory_witness :
  in_sync fresh_archiver /\
  Forall index_writable three_albums /\
  in_sync (archive_all three_albums fresh_archiver) /\
  exists restarted,
    MediaArchiver_init true (disk (archive_all three_albums fresh_archiver))
      = Some (Returned restarted) /\
    next_group_count restarted = 4%nat.
Proof.
  assert (Hs : in_sync fresh_archiver) by reflexivity.
  assert (Hw : Forall index_writable three_albums) by (repeat constructor).
  destruct (index_file_follows_memory three_albums fresh_archiver Hs Hw) as [Hsync Hinit].
  split; [exact Hs|]. split; [exact Hw|]. split; [exact Hsync|].
  eexists. split; [exact Hinit|]. vm_compute. reflexivity.
Defined.

(** The rewrite of a metadata file that held the empty index stops after
    five characters. *)
Lemma interrupted_index_write_stops_startup_witness :
  (5 < String.length (json_dumps (json_of_index (metadata archiver_with_saved_index))))%nat /\
  load_index (disk archiver_with_saved_index) = Some empty_index /\
  MediaArchiver_init true
    (disk (snd (_save_metadata (WriteFailsAfter 5) archiver_with_saved_index)))
    = Some (Raised JSONDecodeError).
Proof.
  assert (Hn : (5 < String.length
                      (json_dumps (json_of_index (metadata archiver_with_saved_index))))%nat)
    by (vm_compute; lia).
  destruct (interrupted_index_write_stops_startup archiver_with_saved_index 5 Hn)
    as (_ & _ & Hinit & _).
  split; [exact Hn|]. split; [vm_compute; reflexivity|exact Hinit].
Defined.

(** The index after the three calls of [three_albums]. *)
Lemma index_counter_invariant_witness :
  index_consistent (metadata fresh_archiver) /\
  index_consistent (metadata (archive_all three_albums fresh_archiver)) /\
  length (groups (metadata (archive_all three_albums fresh_archiver))) = 3%nat.
Proof.
  assert (Hc : index_consistent (metadata fresh_archiver)) by reflexivity.
  destruct (index_counter_invariant three_albums fresh_archiver Hc) as (Hc' & _ & _ & Hle).
  split; [exact Hc|]. split; [exact Hc'|]. vm_compute. reflexivity.
Defined.

(** The statistics after the three calls of [three_albums]: three groups,
    four files. *)
Lemma stats_report_the_index_witness :
  index_consistent (metadata fresh_archiver) /\
  in_sync fresh_archiver /\
  Forall index_writable three_albums /\
  stats_command true "downloads"
    {| archiver := archive_all three_albums fresh_archiver; media_group_buffer := ∅;
       outbox := [] |}
  = Returned (stats_lines "downloads" 3 4).
Proof.
  assert (Hc : index_consistent (metadata fresh_archiver)) by reflexivity.
  assert (Hs : in_sync fresh_archiver) by reflexivity.
  assert (Hw : Forall index_writable three_albums) by (repeat constructor).
  destruct (stats_report_the_index "downloads" three_albums fresh_archiver ∅ [] Hc Hs Hw)
    as (Hstats & _ & _).
  split; [exact Hc|]. split; [exact Hs|]. split; [exact Hw|].
  rewrite Hstats. vm_compute. reflexivity.
Defined.

(** * Failed calls, the handler and the dispatcher *)

(** ** What a failed call keeps *)

Section LoopFailure.
Variables (env : ArchiveEnv) (dir : string).

Lemma process_message_raised idx msg gi d e d' :
  process_message env dir idx msg gi d = (Raised e, d') ->
  d' = d /\ (e = GetFileError idx \/ e = FilePathIsNone idx \/ e = DownloadError idx).
Proof.
  unfold process_message. intros H.
  destruct (photo msg); [by inversion H|].
  destruct (fetch env idx) as [|[fp|] [bytes|]]; inversion H; subst; auto.
Qed.

Lemma process_messages_raised msgs : forall idx gi d e d',
  process_messages env dir idx msgs gi d = (Raised e, d') ->
  exists k stored,
    (e = GetFileError (idx + k) \/ e = FilePathIsNone (idx + k) \/ e = DownloadError (idx + k)) /\
    Forall2 (stored_as env dir d')
      (List.filter (fun im => has_photo (snd im)) (enumerate idx (take k msgs))) stored.
Proof.
  induction msgs as [|msg rest IH]; intros idx gi d e d' H; simpl in H; [done|].
  destruct (process_message env dir idx msg gi d) as [[gi1|e1] d1] eqn:E.
  - destruct (IH _ _ _ _ _ H) as (k & stored & He & Hall).
    pose proof (process_message_files _ _ _ _ _ _ _ _ E) as Hmsg.
    exists (S k). replace (idx + S k)%nat with (S idx + k)%nat by lia.
    cbn [take enumerate List.filter snd].
    destruct (has_photo msg).
    + destruct Hmsg as (f & _ & Hst). exists (f :: stored). split; [done|].
      constructor; [|done].
      eapply stored_as_frame; [exact Hst|].
      destruct Hst as (fp & bytes & sm & lg & _ & _ & -> & _). simpl.
      eapply process_messages_below; [exact H|lia].
    + exists stored. done.
  - inversion H; subst. apply process_message_raised in E as [-> He].
    exists 0%nat, []. rewrite Nat.add_0_r. split; [done|]. simpl. constructor.
Qed.

End LoopFailure.

(** C1 (as amended): a call that fails before the index update returns
    [False] and leaves the index alone, in memory and on disk; when the
    failure is not in the descriptor write, the group's descriptor is not
    written either.  The folder created at the start and every file already
    on disk stay, and so does every attachment downloaded before the
    failure: the photo of each message the loop had dealt with is in the
    folder, under the name of its position, with the bytes received. *)
Theorem save_media_group_failure_before_index env gid messages a e :
  fst (save_media_group_body env gid messages a) = Raised e ->
  e <> MetadataWriteError ->
  let a' := snd (save_media_group env gid messages a) in
  let dir := group_dir_of (next_group_count a) in
  fst (save_media_group env gid messages a) = Returned false /\
  metadata a' = metadata a /\
  files (disk a') !! metadata_file = files (disk a) !! metadata_file /\
  (e <> DescriptorWriteError ->
   files (disk a') !! path_join dir "info.json" = files (disk a) !! path_join dir "info.json") /\
  (e <> MkdirError -> dir ∈ dirs (disk a')) /\
  (forall p, is_Some (files (disk a) !! p) -> is_Some (files (disk a') !! p)) /\
  exists stored,
    Forall2 (stored_as env dir (disk a'))
      (photo_messages (take (completed_before e messages) messages)) stored.
Proof.
  intros Hfail Hne. cbv zeta.
  rewrite save_media_group_fst, Hfail. split; [done|].
  pose proof (save_media_group_disk_grows env gid messages a) as [_ Hgrow].
  rewrite save_media_group_snd in *.
  run_cases env gid messages a; simpl in *.
  - inversion Hfail; subst. repeat split; try done.
    exists []. simpl. rewrite take_0. constructor.
  - inversion Hfail; subst.
    destruct (process_messages_raised _ _ _ _ _ _ _ _ Hloop) as (k & stored & He & Hall).
    apply process_messages_spec in Hloop as (Hd & Hf & _). simpl in *.
    repeat split; try done.
    + apply Hf. intros i fp. apply not_eq_sym, group_path_not_metadata.
    + intros _. apply Hf. intros i fp. apply not_eq_sym, photo_path_not_descriptor.
    + intros _. rewrite Hd. clear. set_solver.
    + exists stored. unfold photo_messages.
      replace (completed_before e messages) with k; [done|].
      destruct He as [-> | [-> | ->]]; simpl; lia.
  - inversion Hfail; subst.
    destruct (process_messages_files _ _ _ _ _ _ _ _ Hloop) as (new & _ & Hall).
    apply process_messages_spec in Hloop as (Hd & Hf & _).
    apply write_text_spec in Hinfo as (Hd2 & Hf2 & _). simpl in *.
    repeat split; try done.
    + rewrite Hf2; [|apply not_eq_sym, group_path_not_metadata].
      apply Hf. intros i fp. apply not_eq_sym, group_path_not_metadata.
    + intros _. rewrite Hd2, Hd. clear. set_solver.
    + exists new. rewrite firstn_all. unfold photo_messages.
      eapply Forall2_impl; [exact Hall|]. intros im f Hst.
      eapply stored_as_frame; [exact Hst|].
      destruct Hst as (fp & bytes & sm & lg & _ & _ & -> & _). simpl.
      apply Hf2, photo_path_not_descriptor.
  - destruct ok; [discriminate|]. inversion Hfail; subst. done.
Qed.

(** The failed second download, seen through the amended statement: the
    first photo, downloaded before the failure, is in the folder. *)
Lemma save_media_group_failure_before_index_witness :
  let r := save_media_group second_download_fails "album1" [msg_a; msg_b; msg_c] fresh_archiver in
  fst (save_media_group_body second_download_fails "album1" [msg_a; msg_b; msg_c] fresh_archiver)
    = Raised (DownloadError 2) /\
  DownloadError 2 <> MetadataWriteError /\
  fst r = Returned false /\
  metadata (snd r) = empty_index /\
  files (disk (snd r)) !! "media_groups/group_0001/photo_01.jpg" = Some "jpeg-1".
Proof.
  cbv zeta.
  assert (H1 : fst (save_media_group_body second_download_fails "album1" [msg_a; msg_b; msg_c]
                      fresh_archiver) = Raised (DownloadError 2)) by (vm_compute; reflexivity).
  assert (H2 : DownloadError 2 <> MetadataWriteError) by discriminate.
  pose proof (save_media_group_failure_before_index second_download_fails "album1"
                [msg_a; msg_b; msg_c] fresh_archiver (DownloadError 2) H1 H2)
    as (Hr & Hm & _ & _ & _ & _ & stored & Hall).
  split; [exact H1|]. split; [exact H2|]. split; [exact Hr|]. split; [exact Hm|].
  change (photo_messages (take (completed_before (DownloadError 2) [msg_a; msg_b; msg_c])
                            [msg_a; msg_b; msg_c])) with [(1%nat, msg_a)] in Hall.
  inversion Hall as [|im f ims fs Hst _]; subst.
  destruct Hst as (fp & bytes & sm & lg & _ & Hfetch & Hf & Hfile).
  change (fetch second_download_fails (fst (1%nat, msg_a)))
    with (GotFile (Some "photos/file_1.jpg") (Some "jpeg-1")) in Hfetch.
  injection Hfetch as <- <-. rewrite Hf in Hfile. exact Hfile.
Defined.

(** ** The slice of the caption *)

Example slice_to_counts_code_points :
  String.length (repeated 60 "я") = 120%nat /\
  slice_to 100 (repeated 60 "я") = repeated 60 "я" /\
  slice_to 100 (repeated 101 "я") = repeated 100 "я" /\
  slice_to 2 "abc" = "ab".
Proof. repeat split; vm_compute; reflexivity. Qed.

Lemma code_points_slice_to s : forall n, (code_points (slice_to n s) <= n)%nat.
Proof.
  induction s as [|c s IH]; intros n; simpl; [lia|].
  destruct (is_continuation c) eqn:E; simpl; rewrite ?E; [apply IH|].
  destruct n as [|n]; simpl; rewrite ?E; [lia|]. specialize (IH n). lia.
Qed.

Lemma slice_to_whole s : forall n, (code_points s <= n)%nat -> slice_to n s = s.
Proof.
  induction s as [|c s IH]; intros n Hn; simpl in *; [done|].
  destruct (is_continuation c); [by rewrite IH|].
  destruct n as [|n]; [lia|]. rewrite IH; [done|lia].
Qed.

Lemma slice_to_prefix s : forall n, exists rest, s = slice_to n s +:+ rest.
Proof.
  induction s as [|c s IH]; intros n; simpl; [by exists EmptyString|].
  destruct (is_continuation c).
  - destruct (IH n) as [rest Hr]. exists rest. rewrite app_cons. by rewrite <- Hr.
  - destruct n as [|n]; [by exists (String c s)|].
    destruct (IH n) as [rest Hr]. exists rest. rewrite app_cons. by rewrite <- Hr.
Qed.

(** X4: the header of the descriptor of a successful call.  The caption is
    the first message's (a caption carried by a later message only is
    lost); the sender is that of the last message that has one, by user
    name, or by full name when the user name is missing or empty; the chat
    is the last message's; identifier, time and message count are those of
    the call.  The index entry holds the first hundred code points of the
    caption: a caption of a hundred code points or fewer is kept whole,
    however many bytes it takes, and a longer one is cut after the
    hundredth. *)
Theorem save_media_group_descriptor_header env gid messages a :
  fst (save_media_group env gid messages a) = Returned true ->
  let a' := snd (save_media_group env gid messages a) in
  let dir := group_dir_of (next_group_count a) in
  exists gi,
    files (disk a') !! path_join dir "info.json" = Some (json_dumps (json_of_group_info gi)) /\
    gi_media_group_id gi = gid /\
    gi_date gi = now env /\
    gi_message_count gi = length messages /\
    gi_caption gi = album_caption messages /\
    gi_sender gi = default EmptyString (last (senders messages)) /\
    gi_chat_id gi = option_map chat_id (last messages) /\
    exists s, last (groups (metadata a')) = Some s /\
      gs_group_id s = gid /\ gs_date s = now env /\
      gs_caption s = slice_to 100 (album_caption messages) /\
      (code_points (gs_caption s) <= 100)%nat /\
      (exists rest, album_caption messages = gs_caption s +:+ rest) /\
      ((code_points (album_caption messages) <= 100)%nat ->
       gs_caption s = album_caption messages).
Proof.
  intros Hok. destruct (save_media_group_success_run _ _ _ _ Hok)
    as (gi & d1 & Hloop & Hmeta & Hinfo & _ & _ & _).
  cbv zeta. exists gi. split; [done|].
  pose proof (process_messages_fixed _ _ _ _ _ _ _ _ Hloop) as (Hid & Hdate & Hcount).
  pose proof (process_messages_header _ _ _ _ _ _ _ _ (le_n 1) Hloop) as (Hc & Hs & Hi).
  cbn [initial_group_info gi_media_group_id gi_date gi_message_count gi_caption gi_sender
         gi_chat_id] in *.
  assert (Hcap : gi_caption gi = album_caption messages).
  { rewrite Hc. unfold album_caption. by destruct messages. }
  split; [done|]. split; [done|]. split; [done|]. split; [done|]. split; [done|].
  split; [rewrite Hi; by destruct (last messages)|].
  exists (summary_of (group_folder (next_group_count a)) gi).
  split; [by rewrite Hmeta; cbn [groups]; rewrite last_snoc|].
  unfold summary_of. cbn [gs_group_id gs_date gs_caption]. rewrite Hcap.
  split; [done|]. split; [done|]. split; [done|].
  split; [apply code_points_slice_to|]. split; [apply slice_to_prefix|].
  apply slice_to_whole.
Qed.

(** An album whose first message has a caption of sixty Cyrillic letters
    and whose last has no sender: the caption, 120 bytes long, is kept whole
    in the index, the sender is the second message's and the chat the
    third's. *)
Lemma save_media_group_descriptor_header_witness :
  let messages := [cyrillic_message 160 "album1" 60; msg_b; text_only_message 150 "album1"] in
  let r := save_media_group all_fine "album1" messages fresh_archiver in
  fst r = Returned true /\
  String.length (album_caption messages) = 120%nat /\
  exists gi s,
    files (disk (snd r)) !! "media_groups/group_0001/info.json"
      = Some (json_dumps (json_of_group_info gi)) /\
    gi_caption gi = repeated 60 "я" /\ gi_sender gi = "alice" /\ gi_chat_id gi = Some 43 /\
    gi_message_count gi = 3%nat /\
    last (groups (metadata (snd r))) = Some s /\
    gs_caption s = repeated 60 "я".
Proof.
  cbv zeta.
  assert (Hok : fst (save_media_group all_fine "album1"
                       [cyrillic_message 160 "album1" 60; msg_b; text_only_message 150 "album1"]
                       fresh_archiver)
                = Returned true) by (vm_compute; reflexivity).
  destruct (save_media_group_descriptor_header all_fine "album1"
              [cyrillic_message 160 "album1" 60; msg_b; text_only_message 150 "album1"]
              fresh_archiver Hok)
    as (gi & Hinfo & _ & _ & Hcount & Hcap & Hsender & Hchat & s & Hlast & _ & _ & _ & _ & _ & Hwhole).
  split; [exact Hok|]. split; [vm_compute; reflexivity|].
  exists gi, s. split; [exact Hinfo|]. split; [exact Hcap|]. split; [exact Hsender|].
  split; [exact Hchat|]. split; [exact Hcount|]. split; [exact Hlast|].
  apply Hwhole. vm_compute. lia.
Defined.

(** ** The handler, from its start to its end *)

Lemma handle_media_start_group env m g w :
  g <> EmptyString -> media_group_id m = Some g ->
  handle_media_start env (Some m) w =
    (Sleeping m g,
     with_buffer w (<[g := default [] (media_group_buffer w !! g) ++ [m]]> (media_group_buffer w))).
Proof.
  intros Hg Hm. unfold handle_media_start, buffer_get, with_buffer.
  rewrite Hm, (truthy_Some g Hg). simpl.
  destruct (media_group_buffer w !! g) as [l|] eqn:E; simpl; [done|].
  by rewrite insert_insert_eq.
Qed.

(** The handler of a message of an album: the message joins the entry of
    its group, and after the sleep the whole entry is flushed. *)
Lemma handle_media_album env m g w :
  g <> EmptyString -> media_group_id m = Some g ->
  handle_media env (Some m) w =
    handle_media_resume env m g
      (with_buffer w (<[g := default [] (media_group_buffer w !! g) ++ [m]]> (media_group_buffer w))).
Proof. intros Hg Hm. unfold handle_media. by rewrite (handle_media_start_group _ _ g). Qed.

Lemma handle_media_album_alone env m g w :
  g <> EmptyString -> media_group_id m = Some g ->
  default [] (media_group_buffer w !! g) = [] -> reply_ok env = true ->
  handle_media env (Some m) w =
    (Returned tt,
     {| archiver := snd (save_media_group (archive_env env) g [m] (archiver w));
        media_group_buffer := delete g (media_group_buffer w);
        outbox := outbox w ++
          (if succeeded (fst (save_media_group (archive_env env) g [m] (archiver w)))
           then [{| reply_to := message_id m; reply_text := AlbumSaved 1 |}] else []) |}).
Proof.
  intros Hg Hm Hbuf Hr. rewrite (handle_media_album _ _ g) by done. rewrite Hbuf.
  rewrite flush_alone; [|by simpl; rewrite lookup_insert_eq|done].
  cbn [with_buffer archiver media_group_buffer outbox app]. by rewrite delete_insert_eq.
Qed.

Lemma run_loop_cons d ds l : run_loop (d :: ds) l = run_loop ds (deliver d l).
Proof. reflexivity. Qed.

Lemma run_updates_cons u us l : run_updates (u :: us) l = run_updates us (process_update u l).
Proof. reflexivity. Qed.

Lemma run_loop_updates ds : forall l, run_loop ds l = run_updates (map InMessage ds) l.
Proof. induction ds as [|d ds IH]; intros l; [done|]. simpl. apply IH. Qed.

(** The messages of one album, handled one after the other. *)
Lemma run_loop_album g : forall ds w errs,
  g <> EmptyString ->
  Forall (fun d => media_group_id (update d) = Some g) ds ->
  Forall (fun d => reply_ok (env_of d) = true) ds ->
  default [] (media_group_buffer w !! g) = [] ->
  let final := run_loop ds {| world := w; escaped := errs |} in
  let calls := map (alone g) ds in
  archiver (world final) = archive_all calls (archiver w) /\
  escaped final = errs /\
  default [] (media_group_buffer (world final) !! g) = [] /\
  (ds <> [] -> media_group_buffer (world final) !! g = None) /\
  outbox (world final) = outbox w ++ acknowledgements ds (archive_results calls (archiver w)).
Proof.
  induction ds as [|d ds IH]; intros w errs Hg Hgid Hreply Hbuf; cbv zeta.
  { simpl. by rewrite app_nil_r. }
  apply Forall_cons in Hgid as [Hd Hgid]. apply Forall_cons in Hreply as [Hr Hreply].
  rewrite run_loop_cons. unfold deliver, process_update.
  cbn [delivery_of message_of world escaped].
  rewrite (handle_media_album_alone _ _ g) by done. cbn [note_result].
  match goal with
  | |- context [run_loop ds {| world := ?w1; escaped := _ |}] =>
      destruct (IH w1 errs Hg Hgid Hreply) as (Ha & He & Hb & Hn & Ho);
        [by cbn [media_group_buffer]; rewrite lookup_delete_eq|]
  end.
  cbn [archiver outbox media_group_buffer] in Ha, Ho.
  split; [|split; [done|split; [done|split]]].
  - rewrite Ha. cbn [map]. by rewrite (archive_all_cons (alone g d)).
  - intros _. destruct ds as [|d' ds']; [|by apply Hn].
    simpl. by rewrite lookup_delete_eq.
  - rewrite Ho. cbn [map archive_results acknowledgements]. by rewrite <- app_assoc.
Qed.

(** X13: an album whose messages come a quiet period or more apart is
    archived message by message.  Every handler has ended before the next
    message is taken: it finds its own message alone in the buffer and
    archives it as a group of one.  The archiver ends as after one call per
    message, each message has its own index entry under the album's
    identifier, and one acknowledgement of one photo is sent per call that
    returned [True]. *)
Theorem slow_album_archived_message_by_message g d1 rest w0 :
  g <> EmptyString ->
  Forall (fun d => media_group_id (update d) = Some g) (d1 :: rest) ->
  Forall (fun d => reply_ok (env_of d) = true) (d1 :: rest) ->
  spaced (d1 :: rest) ->
  default [] (media_group_buffer w0 !! g) = [] ->
  let final := run_loop (d1 :: rest) (start_loop w0) in
  let calls := map (alone g) (d1 :: rest) in
  archiver (world final) = archive_all calls (archiver w0) /\
  escaped final = [] /\
  media_group_buffer (world final) !! g = None /\
  outbox (world final) =
    outbox w0 ++ acknowledgements (d1 :: rest) (archive_results calls (archiver w0)).
Proof.
  intros Hg Hgid Hreply _ Hbuf. cbv zeta.
  destruct (run_loop_album g (d1 :: rest) w0 [] Hg Hgid Hreply Hbuf) as (Ha & He & _ & Hn & Ho).
  split; [exact Ha|]. split; [exact He|]. split; [by apply Hn|exact Ho].
Qed.

(** Three messages of one album arriving at 0 s, 1 s and 2.5 s. *)
Lemma slow_album_archived_message_by_message_witness :
  let final := run_loop [arrival 0 msg_a; arrival 1 msg_b; arrival (25 # 10) msg_c]
                 (start_loop fresh_world) in
  spaced [arrival 0 msg_a; arrival 1 msg_b; arrival (25 # 10) msg_c] /\
  escaped final = [] /\
  outbox (world final) =
    [{| reply_to := 101; reply_text := AlbumSaved 1 |};
     {| reply_to := 102; reply_text := AlbumSaved 1 |};
     {| reply_to := 103; reply_text := AlbumSaved 1 |}] /\
  map gs_folder (groups (metadata (archiver (world final))))
    = ["group_0001"; "group_0002"; "group_0003"].
Proof.
  cbv zeta.
  assert (Hsp : spaced [arrival 0 msg_a; arrival 1 msg_b; arrival (25 # 10) msg_c]).
  { simpl. repeat split; discriminate. }
  destruct (slow_album_archived_message_by_message "album1" (arrival 0 msg_a)
              [arrival 1 msg_b; arrival (25 # 10) msg_c] fresh_world)
    as (Ha & He & _ & Ho).
  - discriminate.
  - repeat constructor.
  - repeat constructor.
  - exact Hsp.
  - reflexivity.
  - split; [exact Hsp|]. split; [exact He|].
    split; [rewrite Ho; vm_compute; reflexivity|].
    rewrite Ha. vm_compute. reflexivity.
Defined.

(** ** What a run of successful calls leaves *)

Lemma archive_all_frame calls : forall a n name,
  (n <= length (groups (metadata a)))%nat ->
  files (disk (archive_all calls a)) !! path_join (group_dir_of n) name =
  files (disk a) !! path_join (group_dir_of n) name.
Proof.
  induction calls as [|c calls IH]; intros a n name Hn; [done|].
  rewrite archive_all_cons. rewrite IH.
  - apply save_media_group_frame; [apply group_path_not_metadata|].
    intros name' E. apply group_path_inj in E. unfold next_group_count in E. lia.
  - destruct (archive_all_grows [c] a) as (Hpre & _). simpl in Hpre.
    apply prefix_length in Hpre. unfold archive_all in Hpre. simpl in Hpre. lia.
Qed.

Lemma descriptor_message_count_written d n gi :
  files d !! path_join (group_dir_of n) "info.json" = Some (json_dumps (json_of_group_info gi)) ->
  descriptor_message_count d (group_folder n) = Some (Z.of_nat (gi_message_count gi)).
Proof.
  intros H. unfold descriptor_message_count. fold (group_dir_of n).
  by rewrite H, json_loads_dumps.
Qed.

Lemma archive_all_descriptors calls : forall a,
  Forall (fun r => r = Returned true) (archive_results calls a) ->
  length (groups (metadata (archive_all calls a))) =
    (length (groups (metadata a)) + length calls)%nat /\
  forall N c, calls !! N = Some c ->
    descriptor_message_count (disk (archive_all calls a))
      (group_folder (S (length (groups (metadata a)) + N)))
    = Some (Z.of_nat (length (call_messages c))).
Proof.
  induction calls as [|c0 calls IH]; intros a Hall.
  { split; [simpl; lia|done]. }
  simpl in Hall. apply Forall_cons in Hall as [H0 Hall].
  pose proof H0 as Hok. unfold archive_call in Hok.
  apply save_media_group_success in Hok as (gi & _ & Hcount & Hg & _ & _ & Hinfo & _).
  fold (archive_call c0 a) in Hg, Hinfo.
  destruct (IH _ Hall) as [Hlen Hdesc]. rewrite Hg, length_app in Hlen, Hdesc.
  rewrite archive_all_cons. split; [simpl in *; lia|].
  intros [|N] c Hc; simpl in Hc.
  - inversion Hc; subst c0. rewrite Nat.add_0_r.
    unfold descriptor_message_count. fold (group_dir_of (S (length (groups (metadata a))))).
    rewrite archive_all_frame by (rewrite Hg, length_app; simpl; lia).
    fold (next_group_count a). rewrite Hinfo, json_loads_dumps. simpl. by rewrite Hcount.
  - specialize (Hdesc N c Hc). simpl in Hdesc.
    replace (length (groups (metadata a)) + S N)%nat
      with (length (groups (metadata a)) + 1 + N)%nat by lia.
    exact Hdesc.
Qed.

Lemma acknowledgements_all_sent ds : forall results,
  length results = length ds -> Forall (fun r => r = Returned true) results ->
  acknowledgements ds results =
    map (fun d => {| reply_to := message_id (update d); reply_text := AlbumSaved 1 |}) ds.
Proof.
  induction ds as [|d ds IH]; intros [|r results] Hlen Hall; try done.
  apply Forall_cons in Hall as [-> Hall]. simpl. f_equal. apply IH; [|done].
  simpl in Hlen. lia.
Qed.

Lemma archive_results_length calls : forall a, length (archive_results calls a) = length calls.
Proof. induction calls as [|c calls IH]; intros a; simpl; [done|]. by rewrite IH. Qed.

(** C2 fails on the code.  The messages of a burst are handled one at a
    time: each handler appends its message, sleeps and flushes before the
    next message is taken, so the check of a message always runs before the
    next arrival is appended, however close the arrivals.  With every call
    succeeding, a burst of N messages leaves N groups, each with its own
    folder and a descriptor of one message, and N acknowledgements of one
    photo; no group of N messages is made. *)
Theorem burst_is_archived_message_by_message g d1 rest w0 :
  g <> EmptyString ->
  Forall (fun d => media_group_id (update d) = Some g) (d1 :: rest) ->
  Forall (fun d => (at_time d < at_time d1 + quiet_period)%Q) rest ->
  Forall (fun d => reply_ok (env_of d) = true) (d1 :: rest) ->
  default [] (media_group_buffer w0 !! g) = [] ->
  Forall (fun r => r = Returned true)
    (archive_results (map (alone g) (d1 :: rest)) (archiver w0)) ->
  let final := run_loop (d1 :: rest) (start_loop w0) in
  let b := length (groups (metadata (archiver w0))) in
  archiver (world final) = archive_all (map (alone g) (d1 :: rest)) (archiver w0) /\
  length (groups (metadata (archiver (world final)))) = (b + length (d1 :: rest))%nat /\
  (forall k, (k < length (d1 :: rest))%nat ->
     exists s, groups (metadata (archiver (world final))) !! (b + k)%nat = Some s /\
       gs_group_id s = g /\
       gs_folder s = group_folder (S (b + k)) /\
       descriptor_message_count (disk (archiver (world final))) (group_folder (S (b + k)))
         = Some 1) /\
  outbox (world final) =
    outbox w0 ++ map (fun d => {| reply_to := message_id (update d);
                                  reply_text := AlbumSaved 1 |}) (d1 :: rest).
Proof.
  intros Hg Hgid _ Hreply Hbuf Hall. cbv zeta.
  destruct (run_loop_album g (d1 :: rest) w0 [] Hg Hgid Hreply Hbuf) as (Ha & _ & _ & _ & Ho).
  fold (start_loop w0) in Ha, Ho. rewrite Ha, Ho.
  destruct (archive_all_descriptors _ _ Hall) as [Hlen Hdesc].
  split; [done|]. split; [by rewrite Hlen, length_map|]. split.
  - intros k Hk.
    destruct (lookup_lt_is_Some_2 (map (alone g) (d1 :: rest)) k) as [c Hc];
      [by rewrite length_map|].
    destruct (archive_all_success _ _ Hall k c Hc) as (_ & s & Hs & Hid & Hfolder & _).
    exists s. split; [exact Hs|].
    rewrite list_lookup_fmap in Hc.
    destruct ((d1 :: rest) !! k) as [d|] eqn:Ed; [|done]. simpl in Hc. injection Hc as <-.
    split; [exact Hid|]. split; [exact Hfolder|].
    by rewrite (Hdesc k (alone g d)) by (by rewrite list_lookup_fmap, Ed).
  - f_equal. apply acknowledgements_all_sent; [|done].
    by rewrite archive_results_length, length_map.
Qed.

(** C2 at a failing input: three messages of one album 0.3 s apart, every
    call of the platform and of the disk succeeding.  Three groups are
    archived, of one message each. *)
Lemma burst_is_archived_message_by_message_witness :
  let final := run_loop [arrival 0 msg_a; arrival (3 # 10) msg_b; arrival (6 # 10) msg_c]
                 (start_loop fresh_world) in
  ((3 # 10) < 0 + quiet_period)%Q /\ ((6 # 10) < 0 + quiet_period)%Q /\
  map gs_folder (groups (metadata (archiver (world final))))
    = ["group_0001"; "group_0002"; "group_0003"] /\
  map gs_files_count (groups (metadata (archiver (world final)))) = [1; 1; 1] /\
  descriptor_message_count (disk (archiver (world final))) "group_0001" = Some 1 /\
  descriptor_message_count (disk (archiver (world final))) "group_0002" = Some 1 /\
  descriptor_message_count (disk (archiver (world final))) "group_0003" = Some 1 /\
  outbox (world final) =
    [{| reply_to := 101; reply_text := AlbumSaved 1 |};
     {| reply_to := 102; reply_text := AlbumSaved 1 |};
     {| reply_to := 103; reply_text := AlbumSaved 1 |}].
Proof.
  cbv zeta.
  assert (Ht2 : ((3 # 10) < 0 + quiet_period)%Q) by reflexivity.
  assert (Ht3 : ((6 # 10) < 0 + quiet_period)%Q) by reflexivity.
  destruct (burst_is_archived_message_by_message "album1" (arrival 0 msg_a)
              [arrival (3 # 10) msg_b; arrival (6 # 10) msg_c] fresh_world)
    as (Ha & _ & Hgroups & Ho).
  - discriminate.
  - repeat constructor.
  - repeat constructor; assumption.
  - repeat constructor.
  - reflexivity.
  - vm_compute. repeat constructor.
  - split; [exact Ht2|]. split; [exact Ht3|].
    destruct (Hgroups 0%nat ltac:(simpl; lia)) as (_ & _ & _ & _ & H1).
    destruct (Hgroups 1%nat ltac:(simpl; lia)) as (_ & _ & _ & _ & H2).
    destruct (Hgroups 2%nat ltac:(simpl; lia)) as (_ & _ & _ & _ & H3).
    split; [rewrite Ha; vm_compute; reflexivity|].
    split; [rewrite Ha; vm_compute; reflexivity|].
    split; [exact H1|]. split; [exact H2|]. split; [exact H3|exact Ho].
Defined.

(** ** The buffer through a run *)

Lemma handle_media_resume_keeps_no_empty_entry env m g w l :
  media_group_buffer w !! g = Some l -> l <> [] ->
  no_empty_entry (media_group_buffer w) ->
  no_empty_entry (media_group_buffer (snd (handle_media_resume env m g w))).
Proof.
  intros Hl Hne Hall. rewrite (handle_media_resume_flush _ _ _ _ l Hl Hne).
  destruct (fst (save_media_group _ _ _ _)) as [[]|e]; [destruct (reply_ok env)|..];
    simpl; try done; by apply map_Forall_delete.
Qed.

Lemma handle_media_keeps_no_empty_entry env message w :
  no_empty_entry (media_group_buffer w) ->
  no_empty_entry (media_group_buffer (snd (handle_media env message w))).
Proof.
  intros Hall. destruct message as [m|]; [|done].
  destruct (truthy (media_group_id m)) eqn:Hg.
  - destruct (truthy_gid _ Hg) as [Hne Hsome].
    rewrite (handle_media_album _ _ _ _ Hne Hsome).
    eapply handle_media_resume_keeps_no_empty_entry.
    + simpl. by rewrite lookup_insert_eq.
    + by destruct (default [] _).
    + simpl. apply map_Forall_insert_2; [by destruct (default [] _)|done].
  - unfold handle_media, handle_media_start. rewrite Hg.
    destruct (photo m); [done|].
    destruct (save_media_group _ _ _ _) as [[[]|e] a]; try done.
    unfold send_reply. by destruct (reply_ok env).
Qed.

Lemma run_updates_keeps_no_empty_entry us : forall l,
  no_empty_entry (media_group_buffer (world l)) ->
  no_empty_entry (media_group_buffer (world (run_updates us l))).
Proof.
  induction us as [|u us IH]; intros l Hall; [done|].
  rewrite run_updates_cons. apply IH. unfold process_update.
  pose proof (handle_media_keeps_no_empty_entry (env_of (delivery_of u)) (message_of u)
                (world l) Hall) as H.
  by destruct (handle_media _ _ _).
Qed.

(** C9 (as amended): the check of the buffer entry is a lookup that would
    create a missing entry, empty, and leave it there; but the handler that
    makes the check has appended its own message just before, and no other
    handler runs in between.  So what every handler of an album message
    flushes ends with its own message, no run of updates ever leaves an
    empty entry in the buffer, and after the messages of a group whose
    acknowledgements went through no entry of the group is left at all. *)
Theorem flush_check_always_finds_its_message :
  (forall env m g w,
     default [] (media_group_buffer w !! g) = [] ->
     handle_media_resume env m g w =
       (Returned tt, with_buffer w (<[g := []]> (media_group_buffer w)))) /\
  (forall env m w,
     truthy (media_group_id m) = true ->
     archiver (snd (handle_media env (Some m) w)) =
       snd (save_media_group (archive_env env) (gid_of m)
              (default [] (media_group_buffer w !! gid_of m) ++ [m]) (archiver w))) /\
  (forall us w0,
     no_empty_entry (media_group_buffer w0) ->
     no_empty_entry (media_group_buffer (world (run_updates us (start_loop w0))))) /\
  (forall g d1 rest w0,
     g <> EmptyString ->
     Forall (fun d => media_group_id (update d) = Some g) (d1 :: rest) ->
     Forall (fun d => reply_ok (env_of d) = true) (d1 :: rest) ->
     default [] (media_group_buffer w0 !! g) = [] ->
     media_group_buffer (world (run_loop (d1 :: rest) (start_loop w0))) !! g = None).
Proof.
  split; [intros env m g w; apply handle_media_resume_idle|].
  split; [|split].
  - intros env m w Hg. destruct (truthy_gid _ Hg) as [Hne Hsome].
    rewrite (handle_media_album _ _ _ _ Hne Hsome).
    rewrite (handle_media_resume_flush _ _ _ _
               (default [] (media_group_buffer w !! gid_of m) ++ [m]));
      [|by simpl; rewrite lookup_insert_eq|by destruct (default [] _)].
    cbn [with_buffer archiver].
    destruct (fst (save_media_group _ _ _ _)) as [[]|e]; [destruct (reply_ok env)|..]; done.
  - intros us w0 Hall. by apply run_updates_keeps_no_empty_entry.
  - intros g d1 rest w0 Hg Hgid Hreply Hbuf.
    destruct (run_loop_album g (d1 :: rest) w0 [] Hg Hgid Hreply Hbuf) as (_ & _ & _ & Hn & _).
    by apply Hn.
Qed.

(** C9 fails as stated: after a burst of three messages of one album, all
    three checks run, the buffer holds no entry for the album, empty or
    not. *)
Lemma burst_leaves_no_entry :
  let final := run_loop [arrival 0 msg_a; arrival (3 # 10) msg_b; arrival (6 # 10) msg_c]
                 (start_loop fresh_world) in
  ((3 # 10) - 0 < quiet_period)%Q /\ ((6 # 10) - (3 # 10) < quiet_period)%Q /\
  media_group_buffer (world final) !! "album1" = None /\
  media_group_buffer (world final) !! "album1" <> Some [] /\
  length (outbox (world final)) = 3%nat.
Proof. cbv zeta. repeat split; try done; by vm_compute. Qed.

(** C9 (as amended) on two runs from a fresh start: after two messages of
    an album whose acknowledgements go through the album has no entry; after
    a message whose acknowledgement raised, the entry that stays holds the
    message. *)
Lemma flush_check_always_finds_its_message_witness :
  let failed := {| at_time := 0; update := msg_a; env_of := handler_env_reply_fails all_fine |} in
  no_empty_entry (media_group_buffer fresh_world) /\
  media_group_buffer
    (world (run_loop [arrival 0 msg_a; arrival (3 # 10) msg_b] (start_loop fresh_world)))
    !! "album1" = None /\
  no_empty_entry
    (media_group_buffer (world (run_updates [InMessage failed] (start_loop fresh_world)))) /\
  media_group_buffer (world (run_updates [InMessage failed] (start_loop fresh_world)))
    !! "album1" = Some [msg_a].
Proof.
  cbv zeta.
  assert (H0 : no_empty_entry (media_group_buffer fresh_world)) by apply map_Forall_empty.
  destruct flush_check_always_finds_its_message as (_ & _ & Hinv & Hgone).
  split; [exact H0|]. split; [|split].
  - apply Hgone; [discriminate|repeat constructor|repeat constructor|reflexivity].
  - apply Hinv, H0.
  - vm_compute. reflexivity.
Defined.

(** ** A failed acknowledgement *)

(** X12: an acknowledgement that fails makes the message be archived
    again.  When the handler of the first message of an album archives it
    and the reply raises, the exception leaves the handler before the buffer
    entry is removed; the handler of the next message of the album appends
    to the entry left behind and archives both messages, the first one for
    the second time, into the next folder. *)
Theorem failed_acknowledgement_archives_twice g d1 d2 w0 :
  g <> EmptyString ->
  media_group_id (update d1) = Some g -> media_group_id (update d2) = Some g ->
  default [] (media_group_buffer w0 !! g) = [] ->
  let first := save_media_group (archive_env (env_of d1)) g [update d1] (archiver w0) in
  let second :=
    save_media_group (archive_env (env_of d2)) g [update d1; update d2] (snd first) in
  fst first = Returned true -> reply_ok (env_of d1) = false ->
  fst second = Returned true -> reply_ok (env_of d2) = true ->
  let after_first := deliver d1 (start_loop w0) in
  let final := run_loop [d1; d2] (start_loop w0) in
  let n := next_group_count (archiver w0) in
  escaped after_first = [ReplyError] /\
  media_group_buffer (world after_first) !! g = Some [update d1] /\
  outbox (world after_first) = outbox w0 /\
  archiver (world final) = snd second /\
  escaped final = [ReplyError] /\
  media_group_buffer (world final) !! g = None /\
  outbox (world final) =
    outbox w0 ++ [{| reply_to := message_id (update d2); reply_text := AlbumSaved 2 |}] /\
  exists gi1 gi2,
    groups (metadata (archiver (world final))) =
      groups (metadata (archiver w0)) ++
      [summary_of (group_folder n) gi1; summary_of (group_folder (S n)) gi2] /\
    gi_media_group_id gi1 = g /\ gi_media_group_id gi2 = g /\
    gi_message_count gi1 = 1%nat /\ gi_message_count gi2 = 2%nat.
Proof.
  intros Hg Hg1 Hg2 Hbuf. cbv zeta. intros Hok1 Hr1 Hok2 Hr2.
  assert (Hfirst :
    deliver d1 (start_loop w0) =
    {| world := {| archiver := snd (save_media_group (archive_env (env_of d1)) g [update d1]
                                      (archiver w0));
                   media_group_buffer := <[g := [update d1]]> (media_group_buffer w0);
                   outbox := outbox w0 |};
       escaped := [ReplyError] |}).
  { unfold deliver, process_update, start_loop. cbn [delivery_of message_of world escaped].
    rewrite (handle_media_album _ _ g) by done. rewrite Hbuf. cbn [app].
    rewrite (handle_media_resume_flush _ _ _ _ [update d1]);
      [|by simpl; rewrite lookup_insert_eq|done].
    cbn [with_buffer archiver media_group_buffer outbox]. by rewrite Hok1, Hr1. }
  assert (Hsecond :
    run_loop [d1; d2] (start_loop w0) =
    {| world := {| archiver :=
                     snd (save_media_group (archive_env (env_of d2)) g [update d1; update d2]
                            (snd (save_media_group (archive_env (env_of d1)) g [update d1]
                                    (archiver w0))));
                   media_group_buffer := delete g (media_group_buffer w0);
                   outbox := outbox w0 ++ [{| reply_to := message_id (update d2);
                                              reply_text := AlbumSaved 2 |}] |};
       escaped := [ReplyError] |}).
  { rewrite run_loop_cons, Hfirst. unfold run_loop. cbn [fold_left].
    unfold deliver, process_update. cbn [delivery_of message_of world escaped].
    rewrite (handle_media_album _ _ g) by done.
    cbn [with_buffer archiver media_group_buffer outbox].
    rewrite lookup_insert_eq. cbn [default app].
    rewrite (handle_media_resume_flush _ _ _ _ [update d1; update d2]);
      [|by simpl; rewrite lookup_insert_eq|done].
    cbn [with_buffer archiver media_group_buffer outbox id app]. rewrite Hok2, Hr2.
    cbn [length note_result app].
    by rewrite insert_insert_eq, delete_insert_eq. }
  rewrite Hfirst, Hsecond. cbn [world escaped archiver media_group_buffer outbox].
  split; [done|]. split; [by rewrite lookup_insert_eq|]. split; [done|].
  split; [done|]. split; [done|]. split; [by rewrite lookup_delete_eq|]. split; [done|].
  apply save_media_group_success in Hok1 as (gi1 & Hid1 & Hc1 & Hgr1 & _).
  apply save_media_group_success in Hok2 as (gi2 & Hid2 & Hc2 & Hgr2 & _).
  exists gi1, gi2. repeat split; try done.
  rewrite Hgr2. unfold next_group_count. rewrite Hgr1, <- app_assoc, length_app. simpl.
  by rewrite Nat.add_1_r.
Qed.

(** Two messages of an album; the acknowledgement of the first handler
    raises.  The first message is archived alone, then again with the
    second. *)
Lemma failed_acknowledgement_archives_twice_witness :
  let d1 := {| at_time := 0; update := msg_a; env_of := handler_env_reply_fails all_fine |} in
  let final := run_loop [d1; arrival (3 # 10) msg_b] (start_loop fresh_world) in
  escaped final = [ReplyError] /\
  outbox (world final) = [{| reply_to := 102; reply_text := AlbumSaved 2 |}] /\
  map gs_group_id (groups (metadata (archiver (world final)))) = ["album1"; "album1"] /\
  map gs_folder (groups (metadata (archiver (world final)))) = ["group_0001"; "group_0002"] /\
  descriptor_message_count (disk (archiver (world final))) "group_0001" = Some 1 /\
  descriptor_message_count (disk (archiver (world final))) "group_0002" = Some 2.
Proof.
  cbv zeta.
  destruct (failed_acknowledgement_archives_twice "album1"
              {| at_time := 0; update := msg_a; env_of := handler_env_reply_fails all_fine |}
              (arrival (3 # 10) msg_b) fresh_world)
    as (_ & _ & _ & Ha & He & _ & Ho & _).
  - discriminate.
  - reflexivity.
  - reflexivity.
  - reflexivity.
  - vm_compute. reflexivity.
  - reflexivity.
  - vm_compute. reflexivity.
  - reflexivity.
  - split; [exact He|]. split; [exact Ho|].
    rewrite Ha. repeat split; vm_compute; reflexivity.
Defined.

(** ** Every update, one by one *)

Lemma handle_media_single env m w :
  truthy (media_group_id m) = false -> has_photo m = true -> reply_ok env = true ->
  handle_media env (Some m) w =
    (Returned tt,
     {| archiver := snd (save_media_group (archive_env env) (single_id_of m) [m] (archiver w));
        media_group_buffer := media_group_buffer w;
        outbox := outbox w ++
          (if succeeded (fst (save_media_group (archive_env env) (single_id_of m) [m]
                                (archiver w)))
           then [{| reply_to := message_id m; reply_text := PhotoSaved |}] else []) |}).
Proof.
  intros Hg Hp Hr. unfold handle_media, handle_media_start, has_photo in *. rewrite Hg.
  destruct (photo m) as [|sm lg]; [done|]. fold (single_id_of m).
  destruct (save_media_group_returns (archive_env env) (single_id_of m) [m] (archiver w))
    as (b & Hb & _).
  destruct (save_media_group (archive_env env) (single_id_of m) [m] (archiver w)) as [r a].
  simpl in Hb. subst r. unfold send_reply. rewrite Hr.
  destruct b; simpl; [done|by rewrite app_nil_r].
Qed.

Lemma handle_media_other env m w :
  truthy (media_group_id m) = false -> has_photo m = false ->
  handle_media env (Some m) w = (Returned tt, w).
Proof.
  intros Hg Hp. unfold handle_media, handle_media_start, has_photo in *. rewrite Hg.
  by destruct (photo m).
Qed.

(** What the handler of one update does when its acknowledgement goes
    through and the buffer holds nothing for the group of its message. *)
Lemma process_update_alone u w errs :
  reply_ok (env_of (delivery_of u)) = true ->
  (forall m, message_of u = Some m -> truthy (media_group_id m) = true ->
             media_group_buffer w !! gid_of m = None) ->
  let next := process_update u {| world := w; escaped := errs |} in
  archiver (world next) = archive_all (option_list (call_of u)) (archiver w) /\
  escaped next = errs ++ option_list (raised_by u) /\
  media_group_buffer (world next) = media_group_buffer w /\
  exists new,
    outbox (world next) = outbox w ++ new /\
    length new =
      length (List.filter succeeded (archive_results (option_list (call_of u)) (archiver w))) /\
    Forall (fun r => reply_text r = AlbumSaved 1 \/ reply_text r = PhotoSaved) new.
Proof.
  intros Hr Hbuf. cbv zeta. unfold process_update, call_of, raised_by.
  cbn [world escaped].
  destruct (message_of u) as [m|] eqn:Hm.
  2:{ cbn. repeat split; try done. exists []. by rewrite app_nil_r. }
  destruct (truthy (media_group_id m)) eqn:Hg.
  - destruct (truthy_gid _ Hg) as [Hne Hsome]. specialize (Hbuf m eq_refl Hg).
    rewrite (handle_media_album_alone _ _ (gid_of m)) by (done || by rewrite Hbuf).
    change (option_list (Some ?c)) with [c]. change (option_list None) with (@nil exn).
    cbn [world escaped archiver media_group_buffer outbox note_result archive_results
           List.filter archive_all fold_left].
    unfold archive_call. cbn [call_env call_gid call_messages fst snd].
    rewrite app_nil_r. split; [done|]. split; [done|]. split; [by apply delete_id|].
    eexists. split; [done|].
    destruct (succeeded _); (split; [done|]); [constructor; [by left|constructor]|constructor].
  - destruct (has_photo m) eqn:Hp.
    + rewrite handle_media_single by done.
      change (option_list (Some ?c)) with [c]. change (option_list None) with (@nil exn).
      cbn [world escaped archiver media_group_buffer outbox note_result archive_results
             List.filter archive_all fold_left].
      unfold archive_call. cbn [call_env call_gid call_messages fst snd].
      rewrite app_nil_r. split; [done|]. split; [done|]. split; [done|].
      eexists. split; [done|].
      destruct (succeeded _); (split; [done|]); [constructor; [by right|constructor]|constructor].
    + rewrite handle_media_other by done. cbn. rewrite app_nil_r.
      repeat split; try done. exists []. by rewrite app_nil_r.
Qed.

Lemma archive_all_app calls1 calls2 a :
  archive_all (calls1 ++ calls2) a = archive_all calls2 (archive_all calls1 a).
Proof. unfold archive_all. by rewrite fold_left_app. Qed.

Lemma archive_results_app calls1 : forall calls2 a,
  archive_results (calls1 ++ calls2) a =
  archive_results calls1 a ++ archive_results calls2 (archive_all calls1 a).
Proof.
  induction calls1 as [|c calls1 IH]; intros calls2 a; [done|].
  cbn [archive_results app]. by rewrite IH, archive_all_cons.
Qed.

(** X14: every message is archived on its own.  Whatever the updates, of
    whatever albums, interleaved or not and however close in time, when the
    buffer starts empty and the acknowledgements go through, the archiver
    ends as after one call per message that has an album or a photo, in the
    order of arrival, each call on that message alone; messages of
    different albums never meet in a group, nor do two messages of one
    album.  An update that holds its message elsewhere than in
    [update.message] makes the handler raise and archives nothing.  The
    buffer ends empty, and one acknowledgement is sent per call that
    returned [True]. *)
Theorem every_message_is_archived_on_its_own us w0 :
  Forall (fun u => reply_ok (env_of (delivery_of u)) = true) us ->
  media_group_buffer w0 = ∅ ->
  let final := run_updates us (start_loop w0) in
  let calls := omap call_of us in
  archiver (world final) = archive_all calls (archiver w0) /\
  Forall (fun c => length (call_messages c) = 1%nat) calls /\
  escaped final = omap raised_by us /\
  media_group_buffer (world final) = ∅ /\
  exists new,
    outbox (world final) = outbox w0 ++ new /\
    length new = length (List.filter succeeded (archive_results calls (archiver w0))) /\
    Forall (fun r => reply_text r = AlbumSaved 1 \/ reply_text r = PhotoSaved) new.
Proof.
  intros Hreply Hempty. cbv zeta.
  assert (Hgen : forall us w errs,
    Forall (fun u => reply_ok (env_of (delivery_of u)) = true) us ->
    media_group_buffer w = ∅ ->
    let final := run_updates us {| world := w; escaped := errs |} in
    archiver (world final) = archive_all (omap call_of us) (archiver w) /\
    escaped final = errs ++ omap raised_by us /\
    media_group_buffer (world final) = ∅ /\
    exists new,
      outbox (world final) = outbox w ++ new /\
      length new =
        length (List.filter succeeded (archive_results (omap call_of us) (archiver w))) /\
      Forall (fun r => reply_text r = AlbumSaved 1 \/ reply_text r = PhotoSaved) new).
  { clear. induction us as [|u us IH]; intros w errs Hreply Hempty; cbv zeta.
    { simpl. rewrite !app_nil_r. repeat split; try done. exists []. by rewrite app_nil_r. }
    apply Forall_cons in Hreply as [Hr Hreply]. rewrite run_updates_cons.
    destruct (process_update_alone u w errs Hr) as (Ha & He & Hb & new1 & Ho1 & Hl1 & Hf1).
    { intros m _ _. by rewrite Hempty. }
    destruct (process_update u {| world := w; escaped := errs |}) as [w1 errs1].
    cbn [world escaped] in Ha, He, Hb, Ho1.
    destruct (IH w1 errs1 Hreply ltac:(by rewrite Hb)) as (Ha2 & He2 & Hb2 & new2 & Ho2 & Hl2 & Hf2).
    assert (Hcalls : omap call_of (u :: us) = option_list (call_of u) ++ omap call_of us).
    { simpl. by destruct (call_of u). }
    assert (Hraised : omap raised_by (u :: us) = option_list (raised_by u) ++ omap raised_by us).
    { simpl. by destruct (raised_by u). }
    rewrite Hcalls, Hraised, archive_all_app, archive_results_app, <- Ha.
    split; [exact Ha2|]. split; [by rewrite He2, He, <- app_assoc|]. split; [exact Hb2|].
    exists (new1 ++ new2). split; [by rewrite Ho2, Ho1, <- app_assoc|].
    split; [|by apply Forall_app].
    rewrite List.filter_app, !length_app. lia. }
  destruct (Hgen us w0 [] Hreply Hempty) as (Ha & He & Hb & Hout).
  split; [exact Ha|]. split; [|split; [exact He|split; [exact Hb|exact Hout]]].
  clear. induction us as [|u us IH]; [constructor|]. simpl.
  destruct (call_of u) as [c|] eqn:E; [|exact IH]. constructor; [|exact IH].
  unfold call_of in E. destruct (message_of u) as [m|]; [|done].
  destruct (truthy (media_group_id m)); [by inversion E|].
  destruct (has_photo m); by inversion E.
Qed.

(** Two albums interleaved within 0.3 s, a single photo and a channel post
    between them: five calls of one message each, in the order of arrival,
    and one exception. *)
Lemma every_message_is_archived_on_its_own_witness :
  let us := [InMessage (arrival 0 msg_a);
             InMessage (arrival (1 # 10) (album_message 201 "album2" None));
             Elsewhere (arrival (15 # 100) (single_message 300));
             InMessage (arrival (2 # 10) msg_b);
             InMessage (arrival (25 # 100) (single_message 301));
             InMessage (arrival (3 # 10) (album_message 202 "album2" None))] in
  let final := run_updates us (start_loop fresh_world) in
  media_group_buffer fresh_world = ∅ /\
  map call_gid (omap call_of us) = ["album1"; "album2"; "album1"; "single_301"; "album2"] /\
  escaped final = [AttributeError] /\
  media_group_buffer (world final) = ∅ /\
  map gs_group_id (groups (metadata (archiver (world final))))
    = ["album1"; "album2"; "album1"; "single_301"; "album2"] /\
  map gs_files_count (groups (metadata (archiver (world final)))) = [1; 1; 1; 1; 1].
Proof.
  cbv zeta.
  destruct (every_message_is_archived_on_its_own
              [InMessage (arrival 0 msg_a);
               InMessage (arrival (1 # 10) (album_message 201 "album2" None));
               Elsewhere (arrival (15 # 100) (single_message 300));
               InMessage (arrival (2 # 10) msg_b);
               InMessage (arrival (25 # 100) (single_message 301));
               InMessage (arrival (3 # 10) (album_message 202 "album2" None))] fresh_world)
    as (Ha & _ & He & Hb & _).
  - repeat constructor.
  - reflexivity.
  - split; [reflexivity|]. split; [vm_compute; reflexivity|]. split; [exact He|].
    split; [exact Hb|]. rewrite Ha. split; vm_compute; reflexivity.
Defined.

(** ** A single photo *)

(** X9: a photo outside any album (no group identifier, or an empty one)
    that the update holds in [update.message] is archived at once, alone, as
    the group [single_<message id>], from which the message identifier
    reads back.  The handler does not go to sleep and leaves the buffer as
    it is; [PhotoSaved] is sent when and only when the call returned [True];
    and then the new folder holds the descriptor of a one-message group
    whose only entry is the photo, stored as number 1.  The same photo in an
    update that holds its message elsewhere (a channel post, an edited
    message) makes the handler raise before anything is archived. *)
Theorem single_photo_archived_alone env m w :
  truthy (media_group_id m) = false -> photo m <> [] ->
  let r := save_media_group (archive_env env) (single_id_of m) [m] (archiver w) in
  let h := handle_media env (Some m) w in
  let dir := group_dir_of (next_group_count (archiver w)) in
  handle_media env None w = (Raised AttributeError, w) /\
  handle_media_start env (Some m) w = (Finished (fst h), snd h) /\
  archiver (snd h) = snd r /\
  media_group_buffer (snd h) = media_group_buffer w /\
  outbox (snd h) =
    outbox w ++ (if succeeded (fst r) && reply_ok env
                 then [{| reply_to := message_id m; reply_text := PhotoSaved |}] else []) /\
  fst h = (if succeeded (fst r) && negb (reply_ok env) then Raised ReplyError else Returned tt) /\
  match strip_literal "single_" (single_id_of m) with
  | Some digits => parse_number digits = Some (message_id m, EmptyString)
  | None => False
  end /\
  (succeeded (fst r) = true ->
   exists gi f,
     files (disk (snd r)) !! path_join dir "info.json" = Some (json_dumps (json_of_group_info gi)) /\
     last (groups (metadata (snd r))) =
       Some (summary_of (group_folder (next_group_count (archiver w))) gi) /\
     gi_media_group_id gi = single_id_of m /\
     gi_message_count gi = 1%nat /\
     gi_files gi = [f] /\
     stored_as (archive_env env) dir (disk (snd r)) (1%nat, m) f).
Proof.
  intros Hg Hp. cbv zeta. split; [done|].
  unfold handle_media, handle_media_start. rewrite Hg.
  destruct (photo m) as [|sm lg] eqn:Ep; [done|].
  fold (single_id_of m).
  destruct (save_media_group_returns (archive_env env) (single_id_of m) [m] (archiver w))
    as (b & Hb & _).
  destruct (save_media_group (archive_env env) (single_id_of m) [m] (archiver w))
    as [r a'] eqn:Er. simpl in Hb. subst r. cbn [fst snd].
  split; [|split; [|split; [|split; [|split; [|split]]]]].
  - destruct b; [|done]. unfold send_reply. by destruct (reply_ok env).
  - destruct b; [|done]. unfold send_reply. by destruct (reply_ok env).
  - destruct b; [|done]. unfold send_reply. by destruct (reply_ok env).
  - destruct b; simpl; [|by rewrite app_nil_r].
    unfold send_reply. destruct (reply_ok env); simpl; [done|by rewrite app_nil_r].
  - destruct b; simpl; [|done]. unfold send_reply. by destruct (reply_ok env).
  - unfold single_id_of.
    change (strip_literal "single_" ("single_" +:+ ?x)) with (Some x).
    destruct (parse_number_str_int (message_id m) EmptyString eq_refl) as [H _].
    by rewrite app_nil_r' in H.
  - destruct b; [intros _|done].
    assert (Hok : fst (save_media_group (archive_env env) (single_id_of m) [m] (archiver w))
                  = Returned true) by (by rewrite Er).
    destruct (save_media_group_success_run _ _ _ _ Hok)
      as (gi & d1 & Hloop & Hmeta & Hinfo & _ & _ & Hframe).
    rewrite Er in Hmeta, Hinfo, Hframe. cbn [snd] in Hmeta, Hinfo, Hframe.
    pose proof (process_messages_fixed _ _ _ _ _ _ _ _ Hloop) as (Hid & _ & Hcount).
    destruct (process_messages_files _ _ _ _ _ _ _ _ Hloop) as (new & Hnew & Hall).
    simpl in Hnew, Hid, Hcount. subst new.
    unfold has_photo in Hall. simpl in Hall. rewrite Ep in Hall.
    inversion Hall as [|? f ? fs Hst Hrest Ha Hb]; subst. inversion Hrest; subst.
    exists gi, f. repeat split; try done.
    + by rewrite Hmeta; simpl; rewrite last_snoc.
    + eapply stored_as_frame; [exact Hst|].
      destruct Hst as (fp & bytes & sm' & lg' & _ & _ & -> & _). simpl.
      apply Hframe; [apply photo_path_not_descriptor|apply group_path_not_metadata].
Qed.

(** The single photo 301 on a fresh start, and the same photo posted in a
    channel. *)
Lemma single_photo_archived_alone_witness :
  let h := handle_media (handler_env all_fine) (Some (single_message 301)) fresh_world in
  truthy (media_group_id (single_message 301)) = false /\
  photo (single_message 301) <> [] /\
  single_id_of (single_message 301) = "single_301" /\
  fst h = Returned tt /\
  media_group_buffer (snd h) = ∅ /\
  outbox (snd h) = [{| reply_to := 301; reply_text := PhotoSaved |}] /\
  map gs_group_id (groups (metadata (archiver (snd h)))) = ["single_301"] /\
  world (process_update (Elsewhere (arrival 0 (single_message 301))) (start_loop fresh_world))
    = fresh_world.
Proof.
  cbv zeta.
  assert (Hg : truthy (media_group_id (single_message 301)) = false) by reflexivity.
  assert (Hp : photo (single_message 301) <> []) by discriminate.
  destruct (single_photo_archived_alone (handler_env all_fine) (single_message 301) fresh_world
              Hg Hp) as (_ & _ & Ha & Hb & Ho & Hr & _ & _).
  split; [exact Hg|]. split; [exact Hp|]. split; [vm_compute; reflexivity|].
  split; [rewrite Hr; vm_compute; reflexivity|].
  split; [exact Hb|]. split; [rewrite Ho; vm_compute; reflexivity|].
  split; [rewrite Ha; vm_compute; reflexivity|]. reflexivity.
Defined.
